(** * Hydra: the coordination layer of a multi-agent git worktree manager

    A shallow embedding of the coordination core of [hydra.py]: the
    permission resolver ([_validate_allow_pattern], [_expand_allow],
    [_path_is_allowed]), the lock store ([_cleanup_dead_locks],
    [_acquire_locks], the transaction of [_hook_pre_commit]), the snapshot
    debounce wait ([_wait_for_worktree_quiet]), the journal reader
    ([_read_journal_entries], [cmd_changes]) and the merge and rollback
    commands ([cmd_merge], [cmd_rollback]).

    Conventions.
    - A Python [str] is a [string]; all string operations are written out.
    - A raised [HydraError] (of which [MctlError] is an alias) is the
      [HydraError] constructor of [result].
    - The [locks] table of the SQLite store, whose primary key is the file
      path, is a [gmap string Lock]; a transaction that is rolled back
      returns the table it started from.
    - External collaborators (tmux, git, the file system, the clock, the
      JSON decoder, [fnmatch]) are parameters: record fields or section
      variables. *)

From Stdlib Require Import ZArith QArith Qminmax Qround Lqa Ascii String List.
From stdpp Require Import gmap strings list fin_maps sorting pretty.

#[local] Set Warnings "-register-all".

Local Open Scope string_scope.
Local Open Scope Z_scope.

(** ** Results and exceptions *)

Inductive result (A : Type) : Type :=
  | Ok (a : A)
  | HydraError (msg : string).
Arguments Ok {A} a.
Arguments HydraError {A} msg.

Definition MctlError {A : Type} (msg : string) : result A := HydraError msg.

#[global] Instance result_bind : MBind result := λ A B k r,
  match r with
  | Ok a => k a
  | HydraError msg => HydraError msg
  end.

#[global] Instance result_ret : MRet result := λ A a, Ok a.

Definition is_ok {A : Type} (r : result A) : bool :=
  match r with Ok _ => true | HydraError _ => false end.

(** The exceptions a function can leave with: [HydraError], which [main]
    reports with exit status 2, and any other one ([RuntimeError],
    [PermissionError], [CalledProcessError], ...). *)
Inductive Exn :=
  | EHydra (msg : string)
  | EOther (msg : string).

(** Whether a call that may raise any exception returns. *)
Definition returns {A : Type} (r : Exn + A) : bool :=
  match r with inr _ => true | inl _ => false end.

(** [[f(x) for x in xs]] where [f] may raise: the first exception wins. *)
Fixpoint map_result {A B : Type} (f : A → result B) (xs : list A) : result (list B) :=
  match xs with
  | [] => Ok []
  | x :: xs' => y ← f x; ys ← map_result f xs'; Ok (y :: ys)
  end.

(** ** Python string operations *)

Module Py.

(** [s.replace(old, new)] for one-character [old] and [new]. *)
Fixpoint replace_char (old new : ascii) (s : string) : string :=
  match s with
  | EmptyString => EmptyString
  | String c s' =>
      String (if Ascii.eqb c old then new else c) (replace_char old new s')
  end.

(** [s.startswith(p)]. *)
Definition startswith (s p : string) : bool := String.prefix p s.

(** [needle in s]. *)
Fixpoint contains (needle s : string) : bool :=
  String.prefix needle s ||
  match s with
  | EmptyString => false
  | String _ s' => contains needle s'
  end.

(** [s.lstrip(chars)]: drops every leading character that is in [chars]. *)
Fixpoint lstrip (chars : list ascii) (s : string) : string :=
  match s with
  | EmptyString => EmptyString
  | String c s' => if existsb (Ascii.eqb c) chars then lstrip chars s' else s
  end.

(** [s.split(sep)] for a one-character separator. *)
Fixpoint split (sep : ascii) (s : string) : list string :=
  match s with
  | EmptyString => [EmptyString]
  | String c s' =>
      if Ascii.eqb c sep then EmptyString :: split sep s'
      else match split sep s' with
           | hd :: tl => String c hd :: tl
           | [] => [String c EmptyString]
           end
  end.

(** [sep.join(parts)]. *)
Fixpoint join (sep : string) (parts : list string) : string :=
  match parts with
  | [] => EmptyString
  | [p] => p
  | p :: rest => p ++ sep ++ join sep rest
  end.

(** [repr(s)] of a string without quotes or escapes in it. *)
Definition repr (s : string) : string := "'" ++ s ++ "'".

(** ASCII white space, as [str.isspace] has it. *)
Definition isspace (c : ascii) : bool :=
  let n := nat_of_ascii c in
  ((9 <=? n) && (n <=? 13) || (28 <=? n) && (n <=? 32))%nat.

Fixpoint lstrip_space (s : string) : string :=
  match s with
  | EmptyString => EmptyString
  | String c s' => if isspace c then lstrip_space s' else s
  end.

(** [rstrip_space] keeps a character when something other than white
    space follows it. *)
Fixpoint rstrip_space (s : string) : string :=
  match s with
  | EmptyString => EmptyString
  | String c s' =>
      match rstrip_space s' with
      | EmptyString => if isspace c then EmptyString else String c EmptyString
      | r => String c r
      end
  end.

(** [s.strip()]. *)
Definition strip (s : string) : string := rstrip_space (lstrip_space s).

(** [sorted(xs)] for a list of strings: [String.le] is the lexicographic
    order on code points. *)
Definition sorted (xs : list string) : list string := merge_sort String.le xs.

End Py.

(** ** 4.1 Permission resolver *)

(** [os.path.isabs] on POSIX. *)
Definition isabs (pattern : string) : bool := Py.startswith pattern "/".

Definition _is_glob_pattern (pattern : string) : bool :=
  if Py.contains "**" pattern then true
  else existsb (λ ch, Py.contains (String ch EmptyString) pattern)
         (list_ascii_of_string "*?[]").

Definition _validate_allow_pattern (pattern : string) : result string :=
  if String.eqb pattern "" then
    MctlError "Empty allow pattern is not allowed."
  else if isabs pattern then
    MctlError ("Allow pattern must be relative: " ++ Py.repr pattern)
  else
    let norm := Py.replace_char "\" "/" pattern in
    if Py.startswith norm "../" || Py.contains "/../" norm || String.eqb norm ".." then
      MctlError ("Allow pattern must not escape repo root: " ++ Py.repr pattern)
    else Ok (Py.lstrip ["."; "/"]%char norm).

Section PathIsAllowed.

(** [fnmatch.fnmatch(name, pattern)], the shell-style matcher of Python's
    library. *)
Variable fnmatch : string → string → bool.

(** The [for] loop of [_path_is_allowed]: each pattern is validated when
    the loop reaches it, and the first match returns. *)
Fixpoint path_is_allowed_loop (normalized_path : string)
    (allow_patterns : list string) : result bool :=
  match allow_patterns with
  | [] => Ok false
  | raw :: rest =>
      pattern ← _validate_allow_pattern raw;
      if fnmatch normalized_path pattern then Ok true
      else path_is_allowed_loop normalized_path rest
  end.

Definition _path_is_allowed (path : string) (allow_patterns : list string)
    : result bool :=
  let normalized_path := Py.replace_char "\" "/" path in
  path_is_allowed_loop normalized_path allow_patterns.

End PathIsAllowed.

(** [Path(s).as_posix()] for a pure POSIX path: empty and [.] components
    are dropped, exactly two leading slashes are kept, and the empty
    relative path prints as [.]. *)
Definition as_posix (s : string) : string :=
  let parts :=
    List.filter (λ x, negb (String.eqb x "") && negb (String.eqb x "."))
      (Py.split "/" s) in
  let root :=
    if Py.startswith s "/" then
      if Py.startswith s "//" && negb (Py.startswith s "///") then "//" else "/"
    else "" in
  match root, parts with
  | EmptyString, [] => "."
  | _, _ => root ++ Py.join "/" parts
  end.

Section ExpandAllow.

(** The file system under the repository root.
    - [glob pattern] is [globlib.glob(str(root / pattern), recursive=True)];
    - [resolve m] is [Path(m).resolve()]: [inr None] for the
      [FileNotFoundError] that the loop catches, [inl e] for any other
      exception (a symlink loop raises [RuntimeError]), which the loop lets
      through;
    - [is_file rp] is [rp.is_file()], [inl e] when it raises (an
      unsearchable directory raises [PermissionError]);
    - [relative_to_root rp] is [rp.relative_to(root).as_posix()], [None]
      for the [ValueError] of a path outside [root]. *)
Variable glob : string → list string.
Variable resolve : string → Exn + option string.
Variable is_file : string → Exn + bool.
Variable relative_to_root : string → option string.

(** The inner loop over the matches of one glob pattern. *)
Fixpoint add_matches (matches : list string) (locked : gset string)
    : Exn + gset string :=
  match matches with
  | [] => inr locked
  | m :: rest =>
      match resolve m with
      | inl e => inl e
      | inr None => add_matches rest locked
      | inr (Some rp) =>
          match is_file rp with
          | inl e => inl e
          | inr false => add_matches rest locked
          | inr true =>
              match relative_to_root rp with
              | None => add_matches rest locked
              | Some rel => add_matches rest ({[rel]} ∪ locked)
              end
          end
      end
  end.

(** The outer loop over the allow patterns. *)
Fixpoint expand_loop (allow : list string) (locked : gset string)
    : Exn + gset string :=
  match allow with
  | [] => inr locked
  | raw :: rest =>
      match _validate_allow_pattern raw with
      | HydraError msg => inl (EHydra msg)
      | Ok pattern =>
          if negb (_is_glob_pattern pattern) then
            expand_loop rest ({[as_posix pattern]} ∪ locked)
          else
            match add_matches (glob pattern) locked with
            | inl e => inl e
            | inr locked' => expand_loop rest locked'
            end
      end
  end.

Definition _expand_allow (allow : list string) : Exn + list string :=
  match expand_loop allow ∅ with
  | inl e => inl e
  | inr locked => inr (Py.sorted (elements locked))
  end.

End ExpandAllow.

(** ** 4.2 Lock store *)

(** One row of the [locks] table; the [file] column is the key of the map.
    [tmux_session] is nullable. *)
Record Lock := {
  agent : string;
  task : string;
  locked_at : Z;
  tmux_session : option string;
}.

#[global] Instance Lock_eq_dec : EqDecision Lock.
Proof. solve_decision. Defined.

Abbreviation Locks := (gmap string Lock).

(** The terminal multiplexer as a liveness oracle: whether the [tmux]
    binary is on the path, and whether [tmux has-session -t s] exits
    with status 0. *)
Record Tmux := {
  _tmux_available : bool;
  has_session : string → bool;
}.

Definition _tmux_session_exists (tm : Tmux) (session : string) : bool :=
  if negb (_tmux_available tm) then false
  else has_session tm session.

(** [SELECT DISTINCT tmux_session FROM locks WHERE tmux_session IS NOT NULL
    AND tmux_session != ''] *)
Definition select_distinct_sessions (db : Locks) : list string :=
  remove_dups
    (omap (λ kv : string * Lock,
             match tmux_session kv.2 with
             | Some s => if decide (s = "") then None else Some s
             | None => None
             end)
          (map_to_list db)).

(** [DELETE FROM locks WHERE tmux_session=?]: the row count and the table
    that is left. *)
Definition delete_where_session (session : string) (db : Locks) : nat * Locks :=
  (size (filter (λ kv : string * Lock, tmux_session kv.2 = Some session) db),
   filter (λ kv : string * Lock, tmux_session kv.2 ≠ Some session) db).

(** The body of the [for (session,) in rows] loop. *)
Definition cleanup_step (tm : Tmux) (st : nat * Locks) (session : string)
    : nat * Locks :=
  let '(released, db) := st in
  if decide (session = "") then (released, db)
  else if _tmux_session_exists tm session then (released, db)
  else
    let deleted := delete_where_session session db in
    ((released + deleted.1)%nat, deleted.2).

Definition _cleanup_dead_locks (tm : Tmux) (db : Locks) : nat * Locks :=
  if negb (_tmux_available tm) then (0%nat, db)
  else foldl (cleanup_step tm) (0%nat, db) (select_distinct_sessions db).

(** A conflict row [(file, holding agent, holding task)]. *)
Definition Conflict : Type := string * string * string.

(** [SELECT file, agent, task FROM locks WHERE file IN (...)], the rows in
    the order of the requested files. *)
Definition select_in (files : list string) (db : Locks) : list Conflict :=
  omap (λ f, (λ row, (f, agent row, task row)) <$> db !! f) files.

Definition owned_by (a t : string) (row : Conflict) : bool :=
  String.eqb row.1.2 a && String.eqb row.2 t.

(** [f"- {f} (held by {a} / {t})"] *)
Definition acquire_conflict_line (c : Conflict) : string :=
  "- " ++ c.1.1 ++ " (held by " ++ c.1.2 ++ " / " ++ c.2 ++ ")".

Definition newline : string := String (ascii_of_nat 10) EmptyString.

(** The message of the conflict error: the first [shown] conflicts, one per
    line, and the number of the others. *)
Definition conflict_report (line : Conflict → string) (shown : nat)
    (conflicts : list Conflict) : string :=
  let pretty_ := Py.join newline (line <$> take shown conflicts) in
  let more :=
    if (length conflicts <=? shown)%nat then ""
    else newline ++ "... and " ++ pretty (length conflicts - shown)%nat ++ " more" in
  pretty_ ++ more.

(** The [INSERT], and on [IntegrityError] (the key exists) the [UPDATE] of
    every other column. *)
Definition insert_or_update (f : string) (row : Lock) (db : Locks) : Locks :=
  match db !! f with
  | None => <[f := row]> db
  | Some _ => alter (λ _, row) f db
  end.

(** [_acquire_locks]: the result and the table after the transaction. The
    [except] branch rolls back to the table at [BEGIN IMMEDIATE]. *)
Definition _acquire_locks (tm : Tmux) (now : Z) (files : list string)
    (a t : string) (session : option string) (db : Locks) : result unit * Locks :=
  let unique := Py.sorted (remove_dups files) in
  let db1 := (_cleanup_dead_locks tm db).2 in
  match unique with
  | [] => (Ok (), db1)
  | _ =>
      let rows := select_in unique db1 in
      let conflicts := List.filter (λ row, negb (owned_by a t row)) rows in
      match conflicts with
      | _ :: _ =>
          (MctlError ("Lock conflict for agent=" ++ a ++ " task=" ++ t ++ ":"
                      ++ newline ++ conflict_report acquire_conflict_line 20 conflicts),
           db)
      | [] =>
          (Ok (),
           foldl (λ db' f,
                    insert_or_update f
                      {| agent := a; task := t; locked_at := now;
                         tmux_session := session |} db')
                 db1 unique)
      end
  end.

Definition _set_locks_tmux_session (a t session : string) (db : Locks) : nat * Locks :=
  (size (filter (λ kv : string * Lock, agent kv.2 = a ∧ task kv.2 = t) db),
   (λ row, if decide (agent row = a ∧ task row = t)
           then {| agent := agent row; task := task row;
                   locked_at := locked_at row; tmux_session := Some session |}
           else row) <$> db).

Definition _release_locks (a t : string) (db : Locks) : nat * Locks :=
  (size (filter (λ kv : string * Lock, agent kv.2 = a ∧ task kv.2 = t) db),
   filter (λ kv : string * Lock, ¬ (agent kv.2 = a ∧ task kv.2 = t)) db).

(** *** Commit-time enforcement: [_hook_pre_commit] *)

(** What the hook reads from its process and from the repository.
    - [environ_*] are [os.environ.get(name, "")];
    - [task_allow] is the raw [allow] list of the task descriptor (read from
      [HYDRA_TASK_FILE] or from the task directory), or the error raised
      while reading it; both branches of the hook validate every pattern
      of the list;
    - [staged] is [_git_staged_paths()];
    - [now] is [_now_ts()]. *)
Record HookInput := {
  environ_HYDRA_SKIP_HOOKS : string;
  environ_AGENT_ID : string;
  environ_TASK_ID : string;
  task_allow : result (list string);
  staged : list string;
  now : Z;
}.

(** [f"- {f} (held by {a}/{t})"] *)
Definition hook_conflict_line (c : Conflict) : string :=
  "- " ++ c.1.1 ++ " (held by " ++ c.1.2 ++ "/" ++ c.2 ++ ")".

(** The [for rel in staged] loop inside the transaction. *)
Fixpoint pre_commit_loop (a task_id : string) (now_ : Z) (staged_ : list string)
    (db : Locks) (conflicts : list Conflict) : Locks * list Conflict :=
  match staged_ with
  | [] => (db, conflicts)
  | rel :: rest =>
      match db !! rel with
      | None =>
          pre_commit_loop a task_id now_ rest
            (<[rel := {| agent := a; task := task_id; locked_at := now_;
                         tmux_session := Some "" |}]> db)
            conflicts
      | Some row =>
          if negb (String.eqb (agent row) a) || negb (String.eqb (task row) task_id)
          then pre_commit_loop a task_id now_ rest db
                 (conflicts ++ [(rel, agent row, task row)])
          else pre_commit_loop a task_id now_ rest db conflicts
      end
  end.

Section PreCommit.

Variable fnmatch : string → string → bool.

(** [[p for p in staged if not _path_is_allowed(p, allow_patterns)]];
    an exception of [_path_is_allowed] leaves the comprehension. *)
Fixpoint not_allowed_paths (paths allow_patterns : list string)
    : result (list string) :=
  match paths with
  | [] => Ok []
  | p :: rest =>
      ok ← _path_is_allowed fnmatch p allow_patterns;
      others ← not_allowed_paths rest allow_patterns;
      Ok (if (ok : bool) then others else p :: others)
  end.

(** The exit status (or the exception) of the hook and the lock table it
    leaves; [None] is a missing [locks.db]. *)
Definition _hook_pre_commit (inp : HookInput) (db : option Locks)
    : result Z * option Locks :=
  if negb (String.eqb (Py.strip (environ_HYDRA_SKIP_HOOKS inp)) "") then (Ok 0, db)
  else
    let a := Py.strip (environ_AGENT_ID inp) in
    let task_id := Py.strip (environ_TASK_ID inp) in
    if String.eqb a "" || String.eqb task_id "" then (Ok 0, db)
    else
      match raw ← task_allow inp; map_result _validate_allow_pattern raw with
      | HydraError msg => (HydraError msg, db)
      | Ok allow_patterns =>
          match staged inp with
          | [] => (Ok 0, db)
          | _ =>
              match not_allowed_paths (staged inp) allow_patterns with
              | HydraError msg => (HydraError msg, db)
              | Ok ((_ :: _) as not_allowed) =>
                  (HydraError
                     ("Pre-commit blocked: staged files outside task allow list:"
                      ++ newline ++ conflict_report (λ c, "- " ++ c.1.1) 50
                                      ((λ p, (p, "", "")) <$> not_allowed)),
                   db)
              | Ok [] =>
                  match db with
                  | None =>
                      (HydraError "Locks DB not found. Did you run `hydra init`?", None)
                  | Some locks =>
                      match pre_commit_loop a task_id (now inp) (staged inp) locks [] with
                      | (_, (_ :: _) as conflicts) =>
                          (HydraError
                             ("Pre-commit blocked: lock conflict(s):" ++ newline
                              ++ conflict_report hook_conflict_line 50 conflicts),
                           Some locks)
                      | (locks', []) => (Ok 0, Some locks')
                      end
                  end
              end
          end
      end.

End PreCommit.

(** ** 4.4 Snapshot debounce: [_wait_for_worktree_quiet] *)

Module Debounce.

Local Open Scope Q_scope.

(** A Python [float]: a finite value, taken as the rational number it
    stands for (rounding is not modelled), an infinity or NaN.
    [--debounce] and [--max-wait] are parsed with [type=float], which
    accepts [inf] and [nan]. *)
Inductive PyFloat :=
  | Finite (q : Q)
  | PosInf
  | NegInf
  | NaN.

(** [x < y] and [x <= y]: false as soon as one side is NaN. *)
Definition float_lt (x y : PyFloat) : bool :=
  match x, y with
  | NaN, _ | _, NaN => false
  | Finite a, Finite b => negb (Qle_bool b a)
  | Finite _, PosInf => true
  | Finite _, NegInf => false
  | PosInf, _ => false
  | NegInf, NegInf => false
  | NegInf, _ => true
  end.

Definition float_le (x y : PyFloat) : bool :=
  match x, y with
  | NaN, _ | _, NaN => false
  | Finite a, Finite b => Qle_bool a b
  | Finite _, PosInf => true
  | Finite _, NegInf => false
  | PosInf, PosInf => true
  | PosInf, _ => false
  | NegInf, _ => true
  end.

(** [x - y] *)
Definition float_sub (x y : PyFloat) : PyFloat :=
  match x, y with
  | NaN, _ | _, NaN => NaN
  | Finite a, Finite b => Finite (a - b)
  | Finite _, PosInf => NegInf
  | Finite _, NegInf => PosInf
  | PosInf, PosInf => NaN
  | PosInf, _ => PosInf
  | NegInf, NegInf => NaN
  | NegInf, _ => NegInf
  end.

(** [max(x, y)] and [min(x, y)] of two arguments: the first one, unless
    the second is greater (smaller). *)
Definition py_max (x y : PyFloat) : PyFloat := if float_lt x y then y else x.

Definition py_min (x y : PyFloat) : PyFloat := if float_lt y x then y else x.

(** One row of [_git_status_porcelain] with what the loop learns about
    the file. [stat] is [p = (worktree / rel).resolve()] followed by
    [p.stat()]: an exception that the loop does not catch, [None] for the
    [FileNotFoundError] of [stat] that it does catch, or [st_mtime].
    [is_file] is [p.is_file()], which may raise as well. Times are
    seconds. *)
Record StatusRow := {
  status : string;
  rel : string;
  stat : Exn + option Q;
  is_file : Exn + bool;
}.

(** What the environment does during the [k]-th pass of the loop: the
    rows of the working-tree status, or the exception of
    [_git_status_porcelain] ([git status] runs with [check=True]); the
    time that passes before each of the two readings of the clock; and
    what [time.sleep] does when asked for a finite non-negative number of
    seconds: the time it takes, or an exception. *)
Record Pass := {
  rows : Exn + list StatusRow;
  before_quiet_reading : Q;
  before_timeout_reading : Q;
  sleep : Q → Exn + Q;
}.

Inductive Outcome :=
  | Returned            (* the function returns [None] *)
  | TimedOut            (* the [HydraError] of the timeout *)
  | Raised (e : Exn)    (* an exception of [git status], [stat], [is_file] or [sleep] *)
  | OutOfFuel.          (* the model ran out of passes *)

(** The [for] loop over the rows, from [latest_mtime] on. *)
Fixpoint latest_mtime_from (latest_mtime : Q) (rs : list StatusRow) : Exn + Q :=
  match rs with
  | [] => inr latest_mtime
  | r :: rs' =>
      if String.eqb (rel r) "" then latest_mtime_from latest_mtime rs'
      else match stat r with
           | inl e => inl e
           | inr None => latest_mtime_from latest_mtime rs'
           | inr (Some st_mtime) =>
               match is_file r with
               | inl e => inl e
               | inr false => latest_mtime_from latest_mtime rs'
               | inr true => latest_mtime_from (Qmax latest_mtime st_mtime) rs'
               end
           end
  end.

Definition latest_mtime_of (rs : list StatusRow) : Exn + Q := latest_mtime_from 0 rs.

(** [time.sleep(secs)]: a [ValueError] for a negative number or NaN, an
    [OverflowError] for infinity. *)
Definition time_sleep (p : Pass) (secs : PyFloat) : Exn + Q :=
  match secs with
  | Finite q =>
      if Qle_bool 0 q then sleep p q
      else inl (EOther "ValueError: sleep length must be non-negative")
  | PosInf => inl (EOther "OverflowError: timestamp too large to convert to C _PyTime_t")
  | NegInf => inl (EOther "ValueError: sleep length must be non-negative")
  | NaN => inl (EOther "ValueError: Invalid value NaN (not a number)")
  end.

Section Wait.

Variables (debounce_seconds max_wait_seconds poll_seconds : PyFloat).
Variable env : nat → Pass.
Variable start : Q.

(** The body of the [while True] loop, in a pass that begins at time
    [clock]: the way the function ends in this pass, or the time at which
    the next pass begins. *)
Definition one_pass (p : Pass) (clock : Q) : Outcome + Q :=
  match rows p with
  | inl e => inl (Raised e)
  | inr [] => inl Returned
  | inr rs =>
      match latest_mtime_of rs with
      | inl e => inl (Raised e)
      | inr latest_mtime =>
          let t1 := clock + before_quiet_reading p in
          let quiet_for :=
            if negb (Qeq_bool latest_mtime 0) then Finite (t1 - latest_mtime)
            else debounce_seconds in
          if float_le debounce_seconds quiet_for then inl Returned
          else
            let t2 := t1 + before_timeout_reading p in
            if float_le max_wait_seconds (Finite (t2 - start)) then inl TimedOut
            else
              match time_sleep p
                      (py_min poll_seconds
                         (py_max (Finite (5 # 100))
                            (float_sub debounce_seconds quiet_for)))
              with
              | inl e => inl (Raised e)
              | inr slept => inr (t2 + slept)
              end
      end
  end.

(** The [while True] loop; [k] counts the passes and [clock] is the
    time at the beginning of the pass. *)
Fixpoint wait_loop (fuel k : nat) (clock : Q) : Outcome :=
  match fuel with
  | O => OutOfFuel
  | S fuel' =>
      match one_pass (env k) clock with
      | inl outcome => outcome
      | inr clock' => wait_loop fuel' (S k) clock'
      end
  end.

End Wait.

(** [start] is the first reading of the clock. *)
Definition _wait_for_worktree_quiet (debounce_seconds max_wait_seconds poll_seconds : PyFloat)
    (env : nat → Pass) (start : Q) (fuel : nat) : Outcome :=
  if float_le debounce_seconds (Finite 0) then Returned
  else wait_loop debounce_seconds max_wait_seconds poll_seconds env start fuel 0 start.

(** The shortest sleep of the loop for a positive [poll_seconds]. *)
Definition shortest_sleep (poll_seconds : PyFloat) : Q :=
  match poll_seconds with
  | Finite poll => Qmin poll (5 # 100)
  | _ => 5 # 100
  end.

(** Passes that are enough for the loop to finish when [max_wait_seconds]
    is the finite number [limit]. *)
Definition enough_fuel (limit : Q) (poll_seconds : PyFloat) : nat :=
  S (Z.to_nat (Qceiling (limit / shortest_sleep poll_seconds))).

End Debounce.

(** ** 4.4 Journal: [_read_journal_entries] and [cmd_changes] *)

Module Journal.

Record JournalEntry := {
  ts : Z;
  sha : string;
  agent : string;
  task : string;
  files : string;
  index : nat;
}.

(** A decoded JSON value, as [json.loads] returns it. *)
Inductive Json :=
  | JNull
  | JBool (b : bool)
  | JInt (z : Z)
  | JFloat (q : Q)
  | JStr (s : string)
  | JList (items : list Json)
  | JDict (fields : list (string * Json)).

(** Python's truth value of a decoded value, for [x or default]. *)
Definition truthy (v : Json) : bool :=
  match v with
  | JNull => false
  | JBool b => b
  | JInt z => negb (z =? 0)
  | JFloat q => negb (Qeq_bool q 0)
  | JStr s => negb (String.eqb s "")
  | JList items => match items with [] => false | _ => true end
  | JDict fields => match fields with [] => false | _ => true end
  end.

(** [obj.get(key)] *)
Fixpoint get (key : string) (fields : list (string * Json)) : Json :=
  match fields with
  | [] => JNull
  | (k, v) :: rest => if String.eqb k key then v else get key rest
  end.

(** [obj.get(key) or default] *)
Definition get_or (key : string) (default : Json) (fields : list (string * Json)) : Json :=
  let v := get key fields in
  if truthy v then v else default.

Section Reader.

(** [json.loads], [None] for [JSONDecodeError]; the builtins [int] and
    [str] on a decoded value, [None] when they raise. *)
Variable json_loads : string → option Json.
Variable py_int : Json → option Z.
Variable py_str : Json → option string.

(** The body of the [for idx, raw in enumerate(f)] loop for one line:
    [None] when the line is skipped silently, [Some None] when it is
    counted as invalid, [Some (Some e)] when it is appended. *)
Definition read_line (idx : nat) (raw : string) : option (option JournalEntry) :=
  let line := Py.strip raw in
  if String.eqb line "" then None
  else
    match json_loads line with
    | None => Some None
    | Some (JDict obj) =>
        Some (ts_ ← py_int (get_or "ts" (JInt 0) obj);
              sha_ ← py_str (get_or "sha" (JStr "") obj);
              agent_ ← py_str (get_or "agent" (JStr "") obj);
              task_ ← py_str (get_or "task" (JStr "") obj);
              files_ ← py_str (get_or "files" (JStr "") obj);
              Some {| ts := ts_; sha := sha_; agent := agent_; task := task_;
                      files := files_; index := idx |})
    | Some _ => Some None
    end.

Fixpoint read_lines (idx : nat) (lines : list string)
    (entries : list JournalEntry) (invalid : nat) : list JournalEntry * nat :=
  match lines with
  | [] => (entries, invalid)
  | raw :: rest =>
      match read_line idx raw with
      | None => read_lines (S idx) rest entries invalid
      | Some None => read_lines (S idx) rest entries (S invalid)
      | Some (Some e) => read_lines (S idx) rest (entries ++ [e]) invalid
      end
  end.

(** [None] is a journal file that does not exist. *)
Definition _read_journal_entries (journal : option (list string))
    : list JournalEntry * nat :=
  match journal with
  | None => ([], 0%nat)
  | Some lines => read_lines 0 lines [] 0%nat
  end.

(** The order of the sort key [(int(x.ts), int(x.index))]: tuples
    compare lexicographically. *)
Definition key_leb (x y : JournalEntry) : bool :=
  (ts x <? ts y) || ((ts x =? ts y) && (index x <=? index y)%nat).

(** [list.sort(key=...)] is stable: an element is inserted after the
    elements whose key is not greater. *)
Fixpoint insert_sorted (x : JournalEntry) (l : list JournalEntry) : list JournalEntry :=
  match l with
  | [] => [x]
  | y :: l' => if key_leb y x then y :: insert_sorted x l' else x :: y :: l'
  end.

Definition sort_by_key (l : list JournalEntry) : list JournalEntry :=
  fold_left (λ acc x, insert_sorted x acc) l [].

(** The filters of [cmd_changes], after their parsing. *)
Record Filter := {
  since_ts : option Z;
  agent_filter : option string;
  task_filter : option string;
}.

Definition keep (flt : Filter) (e : JournalEntry) : bool :=
  match since_ts flt with Some s => negb (ts e <? s) | None => true end &&
  match agent_filter flt with Some a => String.eqb (agent e) a | None => true end &&
  match task_filter flt with Some t => String.eqb (task e) t | None => true end.

(** The entries [cmd_changes] prints, in the order it prints them. *)
Definition cmd_changes (flt : Filter) (journal : option (list string))
    : list JournalEntry :=
  let '(entries, invalid) := _read_journal_entries journal in
  let filtered := List.filter (keep flt) entries in
  sort_by_key filtered.

End Reader.

End Journal.

(** ** More string operations, for the output of git *)

Module PyText.

(** [s.splitlines()] for text whose line terminator is the line feed. *)
Definition splitlines (s : string) : list string :=
  match s with
  | EmptyString => []
  | _ =>
      let parts := Py.split (ascii_of_nat 10) s in
      match last parts with
      | Some EmptyString => removelast parts
      | _ => parts
      end
  end.

(** [s.split()]: the maximal runs of characters that are not white space.
    [cur] is the run being read, reversed. *)
Fixpoint split_ws_aux (s : string) (cur : list ascii) : list string :=
  let flush := match cur with
               | [] => []
               | _ => [string_of_list_ascii (rev cur)]
               end in
  match s with
  | EmptyString => flush
  | String c s' =>
      if Py.isspace c then flush ++ split_ws_aux s' []
      else split_ws_aux s' (c :: cur)
  end.

Definition split_ws (s : string) : list string := split_ws_aux s [].

(** [s.strip(ch)] for one character. *)
Fixpoint rstrip_char (ch : ascii) (s : string) : string :=
  match s with
  | EmptyString => EmptyString
  | String c s' =>
      match rstrip_char ch s' with
      | EmptyString => if Ascii.eqb c ch then EmptyString else String c EmptyString
      | r => String c r
      end
  end.

Definition strip_char (ch : ascii) (s : string) : string :=
  rstrip_char ch (Py.lstrip [ch] s).

(** [s.endswith(p)] for a one-character [p]. *)
Fixpoint endswith_char (s : string) (ch : ascii) : bool :=
  match s with
  | EmptyString => false
  | String c EmptyString => Ascii.eqb c ch
  | String _ s' => endswith_char s' ch
  end.

(** [s[n:]] *)
Fixpoint drop (n : nat) (s : string) : string :=
  match n, s with
  | O, _ => s
  | S n', String _ s' => drop n' s'
  | S _, EmptyString => EmptyString
  end.

(** [s[:n]] *)
Fixpoint take (n : nat) (s : string) : string :=
  match n, s with
  | S n', String c s' => String c (take n' s')
  | _, _ => EmptyString
  end.

Definition is_digit (c : ascii) : bool :=
  let n := nat_of_ascii c in ((48 <=? n) && (n <=? 57))%nat.

Fixpoint digits_value (s : string) (acc : Z) : option Z :=
  match s with
  | EmptyString => Some acc
  | String c s' =>
      if is_digit c
      then digits_value s' (10 * acc + Z.of_nat (nat_of_ascii c) - 48)
      else None
  end.

(** [int(s)] on a stripped decimal literal; [None] is [ValueError]. *)
Definition int_of_string (s : string) : option Z :=
  match s with
  | EmptyString => None
  | String "-" (String _ _ as d) => Z.opp <$> digits_value d 0
  | String "+" (String _ _ as d) => digits_value d 0
  | _ => digits_value s 0
  end.

(** The characters of [[A-Za-z0-9._-]]. *)
Definition is_safe (c : ascii) : bool :=
  let n := nat_of_ascii c in
  ((48 <=? n) && (n <=? 57) || (65 <=? n) && (n <=? 90)
   || (97 <=? n) && (n <=? 122) || (n =? 46) || (n =? 95) || (n =? 45))%nat.

(** [re.sub(r"[^A-Za-z0-9._-]+", "-", s)]: every maximal run of other
    characters becomes one hyphen. [in_run] says that the previous
    character was already replaced. *)
Fixpoint sub_unsafe (s : string) (in_run : bool) : string :=
  match s with
  | EmptyString => EmptyString
  | String c s' =>
      if is_safe c then String c (sub_unsafe s' false)
      else if in_run then sub_unsafe s' true
      else String "-" (sub_unsafe s' true)
  end.

End PyText.

Definition _sanitize_ref_component (value label : string) : result string :=
  if String.eqb value "" then MctlError (label ++ " must be non-empty.")
  else if Py.contains "/" value || Py.startswith value "."
          || PyText.endswith_char value "." then
    MctlError ("Invalid " ++ label ++ ": " ++ Py.repr value)
  else
    let safe := PyText.strip_char "-" (PyText.sub_unsafe value false) in
    if String.eqb safe "" then MctlError ("Invalid " ++ label ++ ": " ++ Py.repr value)
    else Ok safe.

(** [re.fullmatch(r"t[0-9]+", task_id)] *)
Definition _sanitize_task_id (task_id : string) : result string :=
  match task_id with
  | String "t" (String _ _ as digits) =>
      if forallb PyText.is_digit (list_ascii_of_string digits) then Ok task_id
      else MctlError ("Invalid task id: " ++ Py.repr task_id
                      ++ " (expected like t1737123456 or t3005)")
  | _ => MctlError ("Invalid task id: " ++ Py.repr task_id
                    ++ " (expected like t1737123456 or t3005)")
  end.

Definition _tmux_session_name (a t : string) : string :=
  let a' := PyText.strip_char "-" (PyText.sub_unsafe a false) in
  let t' := PyText.strip_char "-" (PyText.sub_unsafe t false) in
  PyText.take 60 ("hydra-" ++ a' ++ "-" ++ t').

Definition _rewrite_headish_for_branch (ref branch : string) : string :=
  let s := Py.strip ref in
  if String.eqb s "HEAD" then branch
  else if Py.startswith s "HEAD" && (4 <? String.length s)%nat
          && match String.get 4 s with
             | Some c => Ascii.eqb c "^" || Ascii.eqb c "~"
             | None => false
             end
  then branch ++ PyText.drop 4 s
  else s.

(** ** Commands as interaction with the outside world *)

(** [subprocess.CompletedProcess] *)
Record CompletedProcess := {
  returncode : Z;
  stdout : string;
  stderr : string;
}.

(** What a command asks of its collaborators, with the type of the answer.
    - [Subprocess cwd argv env] is [subprocess.run(argv, cwd=cwd, env=env)];
      [env] lists the variables set on top of the process environment;
    - [Print] is [print(line)], [PrintErr] is [print(line, file=sys.stderr)];
    - [Locks_read] and [Locks_write] are the [locks] table of the store;
    - [Tmux_probe] is the state of the liveness oracle;
    - [ResolveAgentTask], [LoadTask] and [FindWorktreeByBranch] are the
      helpers of the same names, taken by their answers: they change
      nothing, and what they run to read ([git for-each-ref] in
      [_resolve_agent_task], [git worktree list --porcelain] in
      [_find_worktree_by_branch]) is not a [Subprocess] of the command;
    - [ConfigSession] is the [tmux_session] of the configuration file as
      [cmd_agent_close] reads it, the name of the project directory when
      the file gives none;
    - the others are what [cmd_agent_open] asks of helpers that do not
      touch the lock table, each with the exception it may raise:
      [ReadConfig] is [json.loads(config_path.read_text(...))];
      [ProjectSession] is [config.get("tmux_session", "hydra")], taken to be
      a string when the configuration is an object; [LoadTaskAllow] is the
      [allow] list of [_load_task]; [ExpandAllow] is [_expand_allow] on the
      project's files; [ShareDeps] is [_share_deps] with the default
      directories; [Symlink] is [_relative_symlink]. *)
Inductive Request : Type → Type :=
  | Subprocess (cwd : string) (argv : list string) (env : list (string * string))
      : Request CompletedProcess
  | PathExists (p : string) : Request bool
  | Mkdir (p : string) : Request unit
  | NowTs : Request Z
  | Print (line : string) : Request unit
  | PrintErr (line : string) : Request unit
  | Locks_read : Request Locks
  | Locks_write (db : Locks) : Request unit
  | Tmux_probe : Request Tmux
  | ResolveAgentTask (a : string) (task_opt : option string) : Request (result string)
  | LoadTask (task_id : string) : Request (result unit)
  | FindWorktreeByBranch (branch_ref : string) : Request (result (option string))
  | ConfigSession : Request string
  | ReadConfig : Request (option Exn)
  | ProjectSession : Request (Exn + string)
  | LoadTaskAllow (task_id : string) : Request (Exn + list string)
  | ExpandAllow (allow : list string) : Request (Exn + list string)
  | ShareDeps (worktree : string) (dry_run : bool) : Request (option Exn)
  | Symlink (target dest : string) : Request (option Exn).

(** A command: it returns, raises, or asks and goes on with the answer. *)
Inductive Prog (A : Type) : Type :=
  | Ret (a : A)
  | Raise (e : Exn)
  | Vis {X : Type} (rq : Request X) (k : X → Prog A).
Arguments Ret {A} a.
Arguments Raise {A} e.
Arguments Vis {A X} rq k.

Fixpoint prog_bind {A B : Type} (k : A → Prog B) (p : Prog A) : Prog B :=
  match p with
  | Ret a => k a
  | Raise e => Raise e
  | Vis rq h => Vis rq (λ x, prog_bind k (h x))
  end.

Notation "x <- p ;; k" := (prog_bind (λ x, k) p)
  (at level 100, p at next level, right associativity).
Notation "p ;; k" := (prog_bind (λ _ : unit, k) p)
  (at level 100, right associativity).

Definition ask {X : Type} (rq : Request X) : Prog X := Vis rq Ret.

Definition raise_hydra {A : Type} (msg : string) : Prog A := Raise (EHydra msg).

Definition lift_result {A : Type} (r : result A) : Prog A :=
  match r with
  | Ok a => Ret a
  | HydraError msg => raise_hydra msg
  end.

(** [try: body finally: cleanup]. An exception of [cleanup] replaces the
    outcome of [body]. *)
Fixpoint try_finally {A : Type} (body : Prog A) (cleanup : Prog unit) : Prog A :=
  match body with
  | Ret a => cleanup ;; Ret a
  | Raise e => cleanup ;; Raise e
  | Vis rq k => Vis rq (λ x, try_finally (k x) cleanup)
  end.

(** [try: body except Exception: handler; raise] *)
Fixpoint try_except {A : Type} (body : Prog A) (handler : Prog unit) : Prog A :=
  match body with
  | Ret a => Ret a
  | Raise e => handler ;; Raise e
  | Vis rq k => Vis rq (λ x, try_except (k x) handler)
  end.

(** An answer that is an exception is raised. *)
Definition or_raise {A : Type} (r : Exn + A) : Prog A :=
  match r with
  | inl e => Raise e
  | inr a => Ret a
  end.

Definition raise_if (r : option Exn) : Prog unit :=
  match r with
  | Some e => Raise e
  | None => Ret ()
  end.

(** *** Running a command *)

Inductive Event :=
  | Ran (cwd : string) (argv : list string) (code : Z)
  | Printed (line : string)
  | PrintedErr (line : string)
  | LocksRead (db : Locks)
  | LocksWritten (db : Locks)
  | TmuxProbed (tm : Tmux)
  | Asked (helper : string).

(** The helper or library call behind a request that leaves no other
    event. *)
Definition helper_of {X : Type} (rq : Request X) : string :=
  match rq with
  | PathExists _ => "Path.exists"
  | Mkdir _ => "Path.mkdir"
  | NowTs => "_now_ts"
  | ResolveAgentTask _ _ => "_resolve_agent_task"
  | LoadTask _ => "_load_task"
  | FindWorktreeByBranch _ => "_find_worktree_by_branch"
  | ConfigSession => "config.get"
  | ReadConfig => "json.loads"
  | ProjectSession => "config.get"
  | LoadTaskAllow _ => "_load_task"
  | ExpandAllow _ => "_expand_allow"
  | ShareDeps _ _ => "_share_deps"
  | Symlink _ _ => "_relative_symlink"
  | _ => ""
  end.

Definition event_of {X : Type} (rq : Request X) : X → Event :=
  match rq in Request X return X → Event with
  | Subprocess cwd argv _ => λ proc, Ran cwd argv (returncode proc)
  | Print line => λ _, Printed line
  | PrintErr line => λ _, PrintedErr line
  | Locks_read => λ db, LocksRead db
  | Locks_write db => λ _, LocksWritten db
  | Tmux_probe => λ tm, TmuxProbed tm
  | rq' => λ _, Asked (helper_of rq')
  end.

Section Exec.

(** The outside world and how it answers. *)
Variable World : Type.
Variable respond : ∀ X : Type, Request X → World → X * World.

(** The outcome, the world that is left and the events in their order. *)
Fixpoint exec {A : Type} (p : Prog A) (w : World) : (Exn + A) * World * list Event :=
  match p with
  | Ret a => (inr a, w, [])
  | Raise e => (inl e, w, [])
  | Vis rq k =>
      let '(x, w') := respond _ rq w in
      let '(r, w'', evs) := exec (k x) w' in
      (r, w'', event_of rq x :: evs)
  end.

End Exec.

(** [main]: the exit status of the process. An exception that is not a
    [HydraError] ends the interpreter with status 1. *)
Definition exit_status (r : Exn + Z) : Z :=
  match r with
  | inr code => code
  | inl (EHydra _) => 2
  | inl (EOther _) => 1
  end.

(** The subprocess command lines among the events, in order. *)
Definition commands (evs : list Event) : list (list string) :=
  omap (λ ev, match ev with Ran _ argv _ => Some argv | _ => None end) evs.

(** *** Helpers of the commands *)

(** The message of the [HydraError] that [_run] raises for a command that
    failed under [check=True]. *)
Definition command_failed (proc : CompletedProcess) (argv : list string) : string :=
  let stderr_ := Py.strip (stderr proc) in
  let stdout_ := Py.strip (stdout proc) in
  let msg := "Command failed (" ++ pretty (returncode proc) ++ "): "
             ++ Py.join " " argv in
  let msg := if String.eqb stdout_ "" then msg
             else msg ++ newline ++ "STDOUT:" ++ newline ++ stdout_ in
  if String.eqb stderr_ "" then msg
  else msg ++ newline ++ "STDERR:" ++ newline ++ stderr_.

Definition _run (argv : list string) (cwd : string) (check : bool)
    (env : list (string * string)) : Prog CompletedProcess :=
  proc <- ask (Subprocess cwd argv env) ;;
  if check && negb (returncode proc =? 0) then raise_hydra (command_failed proc argv)
  else Ret proc.

Definition _git_ref_exists (root ref : string) : Prog bool :=
  proc <- ask (Subprocess root ["git"; "show-ref"; "--verify"; "--quiet"; ref] []) ;;
  Ret (returncode proc =? 0).

Definition _find_worktree_by_branch (branch_ref : string) : Prog (option string) :=
  r <- ask (FindWorktreeByBranch branch_ref) ;;
  lift_result r.

Definition _default_trunk_ref (root : string) : Prog string :=
  has_main <- _git_ref_exists root "refs/heads/main" ;;
  if (has_main : bool) then Ret "main"
  else
    has_master <- _git_ref_exists root "refs/heads/master" ;;
    if (has_master : bool) then Ret "master"
    else raise_hydra
           "No trunk branch found (expected refs/heads/main or refs/heads/master).".

Definition _ensure_worktree_clean (worktree label : string) (allow_untracked : bool)
    : Prog unit :=
  proc <- _run ["git"; "status"; "--porcelain"] worktree true [] ;;
  let lines := List.filter (λ line, negb (String.eqb (Py.strip line) ""))
                 (PyText.splitlines (stdout proc)) in
  let lines := if allow_untracked
               then List.filter (λ line, negb (Py.startswith line "??")) lines
               else lines in
  match lines with
  | [] => Ret ()
  | _ => raise_hydra (label ++ " has uncommitted changes in " ++ worktree ++ ":"
                      ++ newline
                      ++ conflict_report (λ c, c.1.1) 20 ((λ l, (l, "", "")) <$> lines))
  end.

Definition _abort_merge (worktree : string) : Prog unit :=
  proc <- _run ["git"; "merge"; "--abort"] worktree false [] ;;
  if returncode proc =? 0 then Ret ()
  else (_ <- _run ["git"; "reset"; "--hard"; "HEAD"] worktree false [] ;; Ret ()).

Definition _abort_revert (worktree : string) : Prog unit :=
  proc <- _run ["git"; "revert"; "--abort"] worktree false [] ;;
  if returncode proc =? 0 then Ret ()
  else (_ <- _run ["git"; "reset"; "--hard"; "HEAD"] worktree false [] ;; Ret ()).

Definition _resolve_commit (root ref : string) : Prog string :=
  proc <- _run ["git"; "rev-parse"; "--verify"; ref] root true [] ;;
  let sha_ := Py.strip (stdout proc) in
  if String.eqb sha_ "" then raise_hydra ("Unable to resolve ref: " ++ Py.repr ref)
  else Ret sha_.

Definition nonblank_lines (out : string) : list string :=
  Py.strip <$> List.filter (λ line, negb (String.eqb (Py.strip line) ""))
                 (PyText.splitlines out).

Definition _list_changed_files (root base_ref target_ref : string) : Prog (list string) :=
  proc <- _run ["git"; "merge-base"; base_ref; target_ref] root true [] ;;
  let merge_base := Py.strip (stdout proc) in
  if String.eqb merge_base "" then
    raise_hydra ("Unable to find merge-base between " ++ Py.repr base_ref
                 ++ " and " ++ Py.repr target_ref ++ ".")
  else
    proc2 <- _run ["git"; "diff"; "--name-only"; merge_base ++ ".." ++ target_ref]
               root true [] ;;
    Ret (nonblank_lines (stdout proc2)).

(** The directories of a project, as [_find_project_root] and
    [_ensure_dirs] give them. *)
Record Paths := {
  root : string;
  hydra_dir : string;
  agents_dir : string;
  tasks_dir : string;
}.

Definition _task_path (ps : Paths) (task_id : string) : string :=
  tasks_dir ps ++ "/" ++ task_id ++ ".json".

Definition agent_env (ps : Paths) (a task_id : string) : list (string * string) :=
  [("AGENT_ID", a); ("TASK_ID", task_id);
   ("HYDRA_PROJECT_ROOT", root ps); ("HYDRA_TASK_FILE", _task_path ps task_id);
   ("GIT_AUTHOR_NAME", a ++ " Agent"); ("GIT_AUTHOR_EMAIL", a ++ "@agents.local");
   ("GIT_COMMITTER_NAME", a ++ " Agent"); ("GIT_COMMITTER_EMAIL", a ++ "@agents.local")].

(** The agent worktree: the one git lists for the branch, or the
    conventional directory when it exists. *)
Definition find_agent_worktree (ps : Paths) (a task_id branch_ref : string)
    : Prog (option string) :=
  found <- _find_worktree_by_branch branch_ref ;;
  match found with
  | Some wt => Ret (Some wt)
  | None =>
      let candidate := agents_dir ps ++ "/" ++ a ++ "/" ++ task_id in
      there <- ask (PathExists candidate) ;;
      Ret (if (there : bool) then Some candidate else None)
  end.

(** ** 4.5 Merge: [cmd_merge] *)

Record MergeArgs := {
  merge_agent : string;
  merge_task : option string;
  merge_squash : bool;
  merge_abort : bool;
}.

(** [for line in lines: print(line)] *)
Fixpoint print_each (lines : list string) : Prog unit :=
  match lines with
  | [] => Ret ()
  | line :: rest => ask (Print line) ;; print_each rest
  end.

(** A line of [git status --porcelain] that the command takes for a
    conflict. *)
Definition is_conflict_line (line : string) : bool :=
  Py.startswith line "UU " || Py.startswith line "AA " || Py.startswith line "DD ".

(** [line.split()[-1]] *)
Definition last_word (line : string) : string :=
  default "" (last (PyText.split_ws line)).

(** After [git merge] has failed in [trunk_worktree]: either the conflict
    report and the early [return 1] (left), or the abort and the error. The
    two branches of the source ([--squash] or not) differ in the texts
    [what] and [step4] only. *)
Definition merge_failed (trunk_worktree branch trunk a task_id : string)
    (what step4 : string) (proc : CompletedProcess) : Prog (Z + unit) :=
  st <- _run ["git"; "status"; "--porcelain"] trunk_worktree true [] ;;
  let status_ := stdout st in
  let has_conflicts := existsb is_conflict_line (PyText.splitlines status_) in
  if has_conflicts then
    let conflict_files :=
      last_word <$> List.filter is_conflict_line (PyText.splitlines status_) in
    ask (Print (newline ++ "⚠️  Merge conflict while " ++ what ++ " " ++ Py.repr branch
                ++ " into " ++ Py.repr trunk)) ;;
    ask (Print (newline ++ "Conflict files:")) ;;
    print_each ((λ f, "  - " ++ f) <$> conflict_files) ;;
    ask (Print (newline ++ "To resolve:")) ;;
    ask (Print ("  1. cd " ++ trunk_worktree)) ;;
    ask (Print "  2. Edit conflict files and resolve markers") ;;
    ask (Print "  3. git add <resolved-files>") ;;
    ask (Print step4) ;;
    ask (Print ("  5. Or run: hydra merge " ++ a ++ " --task " ++ task_id
                ++ " --abort  (to abort)")) ;;
    Ret (inl 1)
  else
    _abort_merge trunk_worktree ;;
    raise_hydra ("Merge failed (not a conflict): " ++ Py.repr branch ++ " into "
                 ++ Py.repr trunk ++ " (merge aborted)." ++ newline
                 ++ Py.strip (stderr proc)).

(** The pre-flight lock check of the merge, inside [with _connect_db(...)]:
    the connection commits the garbage collection when the block ends and
    rolls it back when the block raises. *)
Definition merge_lock_check (a task_id : string) (changed : list string) : Prog unit :=
  match changed with
  | [] => Ret ()
  | _ =>
      db <- ask Locks_read ;;
      tm <- ask Tmux_probe ;;
      let db1 := (_cleanup_dead_locks tm db).2 in
      let conflicts :=
        List.filter (λ row, negb (owned_by a task_id row)) (select_in changed db1) in
      match conflicts with
      | _ :: _ =>
          raise_hydra ("Merge blocked: target files are locked by other agents:"
                       ++ newline ++ conflict_report hook_conflict_line 50 conflicts)
      | [] => ask (Locks_write db1)
      end
  end.

(** The [git merge] of the [try] block, in either mode. *)
Definition merge_step (args : MergeArgs) (env : list (string * string))
    (a task_id branch trunk trunk_worktree : string) : Prog (Z + unit) :=
  if merge_squash args then
    proc <- _run ["git"; "merge"; "--squash"; branch] trunk_worktree false env ;;
    if negb (returncode proc =? 0) then
      merge_failed trunk_worktree branch trunk a task_id "squash merging"
        ("  4. git commit -m 'Merge " ++ branch ++ " into " ++ trunk ++ " (squash)'")
        proc
    else
      stg <- _run ["git"; "diff"; "--cached"; "--name-only"] trunk_worktree true [] ;;
      if negb (String.eqb (Py.strip (stdout stg)) "") then
        _ <- _run ["git"; "commit"; "-m";
                   "Merge " ++ branch ++ " into " ++ trunk ++ " (squash)"]
               trunk_worktree true env ;;
        Ret (inr ())
      else Ret (inr ())
  else
    proc <- _run ["git"; "merge"; "--no-ff"; "--no-edit"; branch]
              trunk_worktree false env ;;
    if negb (returncode proc =? 0) then
      merge_failed trunk_worktree branch trunk a task_id "merging"
        "  4. git commit --no-edit" proc
    else Ret (inr ()).

(** The body of the [try] block: [inl code] is an early [return code],
    [inr sha] the merged commit. *)
Definition merge_body (ps : Paths) (args : MergeArgs)
    (a task_id branch branch_ref trunk trunk_worktree : string) : Prog (Z + string) :=
  hd <- _run ["git"; "rev-parse"; "--abbrev-ref"; "HEAD"] trunk_worktree true [] ;;
  let head_branch := Py.strip (stdout hd) in
  if negb (String.eqb head_branch trunk) then
    raise_hydra ("Trunk worktree " ++ trunk_worktree ++ " is on " ++ Py.repr head_branch
                 ++ ", expected " ++ Py.repr trunk ++ ".")
  else
    _ensure_worktree_clean trunk_worktree ("Trunk worktree (" ++ trunk ++ ")") true ;;
    agent_worktree <- find_agent_worktree ps a task_id branch_ref ;;
    match agent_worktree with
    | None => Ret ()
    | Some wt =>
        there <- ask (PathExists wt) ;;
        if (there : bool) then
          _ensure_worktree_clean wt
            ("Agent worktree (" ++ a ++ "/" ++ task_id ++ ")") false
        else Ret ()
    end ;;
    changed <- _list_changed_files (root ps) trunk branch ;;
    merge_lock_check a task_id changed ;;
    let env := (agent_env ps a task_id ++ [("HYDRA_SKIP_HOOKS", "1")])%list in
    r <- merge_step args env a task_id branch trunk trunk_worktree ;;
    match r with
    | inl code => Ret (inl code)
    | inr _ =>
        sha_ <- _run ["git"; "rev-parse"; "HEAD"] trunk_worktree true [] ;;
        Ret (inr (Py.strip (stdout sha_)))
    end.

(** What follows a committed merge. *)
Definition merge_cleanup (ps : Paths) (a task_id branch branch_ref merged_sha : string)
    : Prog Z :=
  let session := _tmux_session_name a task_id in
  tm <- ask Tmux_probe ;;
  (if _tmux_session_exists tm session
   then (_ <- _run ["tmux"; "kill-session"; "-t"; session] "" true [] ;; Ret ())
   else Ret ()) ;;
  db <- ask Locks_read ;;
  let released_db := _release_locks a task_id db in
  ask (Locks_write released_db.2) ;;
  ask (PrintErr ("hydra: released " ++ pretty released_db.1 ++ " lock(s) for "
                 ++ a ++ "/" ++ task_id)) ;;
  agent_worktree <- find_agent_worktree ps a task_id branch_ref ;;
  match agent_worktree with
  | None => Ret ()
  | Some wt =>
      there <- ask (PathExists wt) ;;
      if (there : bool) then
        proc3 <- _run ["git"; "worktree"; "remove"; "--force"; wt] (root ps) false [] ;;
        if negb (returncode proc3 =? 0)
        then ask (PrintErr ("hydra warning: failed to remove worktree " ++ wt ++ ": "
                            ++ Py.strip (if String.eqb (stderr proc3) ""
                                         then stdout proc3 else stderr proc3)))
        else Ret ()
      else Ret ()
  end ;;
  still <- _git_ref_exists (root ps) branch_ref ;;
  (if (still : bool) then
     proc4 <- _run ["git"; "branch"; "-D"; branch] (root ps) false [] ;;
     if negb (returncode proc4 =? 0)
     then ask (PrintErr ("hydra warning: failed to delete branch " ++ Py.repr branch
                         ++ ": "
                         ++ Py.strip (if String.eqb (stderr proc4) ""
                                      then stdout proc4 else stderr proc4)))
     else Ret ()
   else Ret ()) ;;
  ask (Print merged_sha) ;;
  Ret 0.

(** The [try ... finally] block in the trunk worktree [wt] and what
    follows it; [created] is [created_trunk_worktree]. *)
Definition merge_in_worktree (ps : Paths) (args : MergeArgs)
    (a task_id branch branch_ref trunk wt : string) (created : bool) : Prog Z :=
  r <- try_finally
         (merge_body ps args a task_id branch branch_ref trunk wt)
         (if created then
            (_ <- _run ["git"; "worktree"; "remove"; "--force"; wt] (root ps) false [] ;;
             Ret ())
          else Ret ()) ;;
  match r with
  | inl code => Ret code
  | inr merged_sha => merge_cleanup ps a task_id branch branch_ref merged_sha
  end.

Definition cmd_merge (ps : Paths) (args : MergeArgs) : Prog Z :=
  a <- lift_result (_sanitize_ref_component (merge_agent args) "agent name") ;;
  rt <- ask (ResolveAgentTask a (merge_task args)) ;;
  task_id <- lift_result rt ;;
  lt <- ask (LoadTask task_id) ;;
  lift_result lt ;;
  let branch := "agent/" ++ a ++ "/" ++ task_id in
  let branch_ref := "refs/heads/" ++ branch in
  trunk <- _default_trunk_ref (root ps) ;;
  trunk_worktree <- _find_worktree_by_branch ("refs/heads/" ++ trunk) ;;
  if merge_abort args then
    match trunk_worktree with
    | None => raise_hydra ("No trunk worktree found for " ++ trunk)
    | Some wt =>
        _abort_merge wt ;;
        ask (Print ("Merge aborted in " ++ wt)) ;;
        Ret 0
    end
  else
    there <- _git_ref_exists (root ps) branch_ref ;;
    if negb there then raise_hydra ("Agent branch not found: " ++ branch_ref)
    else
      trunk <- _default_trunk_ref (root ps) ;;
      trunk_worktree <- _find_worktree_by_branch ("refs/heads/" ++ trunk) ;;
      wt_created <-
        match trunk_worktree with
        | Some wt => Ret (wt, false)
        | None =>
            now_ <- ask NowTs ;;
            let wt := hydra_dir ps ++ "/worktrees/trunk-" ++ trunk ++ "-" ++ pretty now_ in
            ask (Mkdir (hydra_dir ps ++ "/worktrees")) ;;
            _ <- _run ["git"; "worktree"; "add"; wt; trunk] (root ps) true [] ;;
            Ret (wt, true)
        end ;;
      merge_in_worktree ps args a task_id branch branch_ref trunk
        wt_created.1 wt_created.2.

(** ** 4.5 Rollback: [cmd_rollback] *)

Record RollbackArgs := {
  rollback_agent : string;
  rollback_task : option string;
  rollback_to : string;
}.

(** The body of the [try] block of the rollback. *)
Definition rollback_body (ps : Paths) (args : RollbackArgs)
    (a task_id branch to_commit agent_worktree : string) : Prog Z :=
  _ensure_worktree_clean agent_worktree
    ("Agent worktree (" ++ a ++ "/" ++ task_id ++ ")") false ;;
  cnt <- _run ["git"; "rev-list"; "--count"; to_commit ++ "..HEAD"]
           agent_worktree true [] ;;
  let count_out := stdout cnt in
  let text := Py.strip (if String.eqb count_out "" then "0" else count_out) in
  match PyText.int_of_string (if String.eqb text "" then "0" else text) with
  | None => Raise (EOther "ValueError: invalid literal for int()")
  | Some count =>
      if count <=? 0 then
        ask (Print "Nothing to rollback") ;;
        Ret 0
      else
        proc2 <- _run ["git"; "revert"; "--no-commit"; to_commit ++ "..HEAD"]
                   agent_worktree false [] ;;
        if negb (returncode proc2 =? 0) then
          _abort_revert agent_worktree ;;
          raise_hydra ("Revert conflict while rolling back " ++ Py.repr branch ++ " to "
                       ++ Py.repr (rollback_to args) ++ " (revert aborted)." ++ newline
                       ++ "To resolve manually: git checkout " ++ branch
                       ++ " && git revert --no-commit " ++ to_commit ++ "..HEAD"
                       ++ newline ++ Py.strip (stderr proc2))
        else
          let msg := "Rollback " ++ branch ++ " to " ++ rollback_to args
                     ++ " (" ++ PyText.take 12 to_commit ++ ")" in
          _ <- _run ["git"; "commit"; "-m"; msg] agent_worktree true
                 (agent_env ps a task_id) ;;
          new_sha <- _run ["git"; "rev-parse"; "HEAD"] agent_worktree true [] ;;
          ask (Print (Py.strip (stdout new_sha))) ;;
          Ret 0
  end.

Definition cmd_rollback (ps : Paths) (args : RollbackArgs) : Prog Z :=
  a <- lift_result (_sanitize_ref_component (rollback_agent args) "agent name") ;;
  rt <- ask (ResolveAgentTask a (rollback_task args)) ;;
  task_id <- lift_result rt ;;
  lt <- ask (LoadTask task_id) ;;
  lift_result lt ;;
  let branch := "agent/" ++ a ++ "/" ++ task_id in
  let branch_ref := "refs/heads/" ++ branch in
  there <- _git_ref_exists (root ps) branch_ref ;;
  if negb there then raise_hydra ("Agent branch not found: " ++ branch_ref)
  else
    let to_ref := _rewrite_headish_for_branch (rollback_to args) branch in
    to_commit <- _resolve_commit (root ps) to_ref ;;
    proc <- ask (Subprocess (root ps)
                   ["git"; "merge-base"; "--is-ancestor"; to_commit; branch] []) ;;
    if negb (returncode proc =? 0) then
      raise_hydra ("--to " ++ Py.repr (rollback_to args) ++ " (" ++ to_commit
                   ++ ") is not an ancestor of " ++ Py.repr branch ++ ".")
    else
      agent_worktree <- find_agent_worktree ps a task_id branch_ref ;;
      wt_created <-
        match agent_worktree with
        | Some wt => Ret (wt, false)
        | None =>
            now_ <- ask NowTs ;;
            let wt := hydra_dir ps ++ "/worktrees/rollback-" ++ a ++ "-" ++ task_id
                      ++ "-" ++ pretty now_ in
            ask (Mkdir (hydra_dir ps ++ "/worktrees")) ;;
            _ <- _run ["git"; "worktree"; "add"; wt; branch] (root ps) true [] ;;
            Ret (wt, true)
        end ;;
      let wt := wt_created.1 in
      let created_worktree := wt_created.2 in
      try_finally
        (rollback_body ps args a task_id branch to_commit wt)
        (if (created_worktree : bool) then
           (_ <- _run ["git"; "worktree"; "remove"; "--force"; wt] (root ps) false [] ;;
            Ret ())
         else Ret ()).

(** ** Closing an agent: [cmd_agent_close]

    [_zellij_available] returns [False], so the Zellij branch is never
    taken. *)

Record CloseArgs := {
  close_name : string;
  close_task : string;
  close_keep_tmux : bool;
  close_dry_run : bool;
  close_remove_worktree : bool;
}.

(** The [if not args.keep_tmux] block. [subprocess.run(..., check=True)]
    raises [CalledProcessError] for a status other than 0, which the block
    catches. *)
Definition close_window (args : CloseArgs) (a : string) : Prog unit :=
  if negb (close_keep_tmux args) then
    tm <- ask Tmux_probe ;;
    if _tmux_available tm then
      session_name <- ask ConfigSession ;;
      let window_target := session_name ++ ":" ++ a in
      if close_dry_run args then
        ask (Print ("[dry-run] tmux kill-window -t " ++ window_target))
      else
        proc <- ask (Subprocess "" ["tmux"; "kill-window"; "-t"; window_target] []) ;;
        if returncode proc =? 0 then ask (Print ("Closed tmux window: " ++ a))
        else ask (Print ("Warning: Failed to close tmux window: " ++ stderr proc))
    else Ret ()
  else Ret ().

Definition cmd_agent_close (ps : Paths) (args : CloseArgs) : Prog Z :=
  a <- lift_result (_sanitize_ref_component (close_name args) "agent name") ;;
  task_id <- lift_result (_sanitize_task_id (close_task args)) ;;
  close_window args a ;;
  db <- ask Locks_read ;;
  let released_db := _release_locks a task_id db in
  ask (Locks_write released_db.2) ;;
  (if close_remove_worktree args then
     let worktree := agents_dir ps ++ "/" ++ a ++ "/" ++ task_id in
     let cmd := ["git"; "worktree"; "remove"; "--force"; worktree] in
     if close_dry_run args then ask (Print ("[dry-run] " ++ Py.join " " cmd))
     else (_ <- _run cmd (root ps) true [] ;; Ret ())
   else Ret ()) ;;
  ask (Print ("Released " ++ pretty released_db.1 ++ " locks for "
              ++ a ++ "/" ++ task_id)) ;;
  Ret 0.

(** ** Opening an agent: [cmd_agent_open] *)

Record OpenArgs := {
  open_name : string;
  open_task : string;
  open_base : option string;
  open_dry_run : bool;
  open_lock : bool;
  open_no_shared_deps : bool;
  open_no_tmux : bool;
}.

Definition _default_base_ref (root : string) : Prog string :=
  main <- ask (Subprocess root ["git"; "show-ref"; "--verify"; "--quiet";
                                "refs/heads/main"] []) ;;
  if returncode main =? 0 then Ret "main"
  else
    master <- ask (Subprocess root ["git"; "show-ref"; "--verify"; "--quiet";
                                    "refs/heads/master"] []) ;;
    if returncode master =? 0 then Ret "master"
    else
      head <- _run ["git"; "rev-parse"; "--abbrev-ref"; "HEAD"] root true [] ;;
      let name := Py.strip (stdout head) in
      Ret (if String.eqb name "" then "HEAD" else name).

Definition _create_worktree (root worktree parent branch base_ref : string)
    (dry_run : bool) : Prog unit :=
  there <- ask (PathExists worktree) ;;
  if (there : bool) then raise_hydra ("Worktree path already exists: " ++ worktree)
  else
    ask (Mkdir parent) ;;
    proc <- ask (Subprocess root ["git"; "show-ref"; "--verify"; "--quiet";
                                  "refs/heads/" ++ branch] []) ;;
    if returncode proc =? 0 then raise_hydra ("Branch already exists: " ++ branch)
    else
      let cmd := ["git"; "worktree"; "add"; "-b"; branch; worktree; base_ref] in
      if dry_run then ask (Print ("[dry-run] " ++ Py.join " " cmd))
      else (_ <- _run cmd root true [] ;; Ret ()).

(** [for k, v in env_vars.items(): subprocess.run([... send-keys ...],
    check=False)] *)
Fixpoint send_keys (target : string) (vars : list (string * string)) : Prog unit :=
  match vars with
  | [] => Ret ()
  | (k, v) :: rest =>
      _ <- ask (Subprocess "" ["tmux"; "send-keys"; "-t"; target;
                               "export " ++ k ++ "=" ++ v; "Enter"] []) ;;
      send_keys target rest
  end.

(** [subprocess.run(..., check=True)] raises [CalledProcessError], which
    is no [HydraError]. *)
Definition _start_tmux_window (project_session window_name worktree : string)
    (env_vars : list (string * string)) (dry_run : bool) : Prog unit :=
  result_ <- ask (Subprocess "" ["tmux"; "list-windows"; "-t"; project_session;
                                 "-F"; "#{window_name}"] []) ;;
  let out := Py.strip (stdout result_) in
  let existing_windows :=
    if String.eqb out "" then [] else Py.split (ascii_of_nat 10) out in
  if bool_decide (window_name ∈ existing_windows) then
    raise_hydra ("tmux window already exists: " ++ window_name ++ " in session "
                 ++ project_session)
  else if dry_run then
    ask (Print ("[dry-run] tmux new-window -t " ++ project_session ++ " -n "
                ++ window_name ++ " -c " ++ worktree))
  else
    proc <- ask (Subprocess "" ["tmux"; "new-window"; "-t"; project_session;
                                "-n"; window_name; "-c"; worktree] []) ;;
    if returncode proc =? 0
    then send_keys (project_session ++ ":" ++ window_name) env_vars
    else Raise (EOther "CalledProcessError").

(** [with _connect_db(...) as conn: _acquire_locks(...)]: the time is
    read first, the liveness oracle is asked inside the transaction. *)
Definition acquire_for_open (files : list string) (a task_id : string) : Prog unit :=
  now_ <- ask NowTs ;;
  db <- ask Locks_read ;;
  tm <- ask Tmux_probe ;;
  let acquired := _acquire_locks tm now_ files a task_id None db in
  match acquired.1 with
  | Ok _ => ask (Locks_write acquired.2)
  | HydraError msg => raise_hydra msg
  end.

(** The body of the [try] block. *)
Definition open_body (ps : Paths) (args : OpenArgs)
    (a task_id worktree branch base_ref project_session : string) : Prog unit :=
  _create_worktree (root ps) worktree (agents_dir ps ++ "/" ++ a) branch base_ref
    (open_dry_run args) ;;
  (if negb (open_no_shared_deps args) then
     failed <- ask (ShareDeps worktree (open_dry_run args)) ;;
     raise_if failed
   else Ret ()) ;;
  (if negb (open_dry_run args) then
     source_there <- ask (PathExists (root ps ++ "/hydra.py")) ;;
     if (source_there : bool) then
       link_there <- ask (PathExists (worktree ++ "/hydra.py")) ;;
       if negb link_there then
         failed <- ask (Symlink (root ps ++ "/hydra.py") (worktree ++ "/hydra.py")) ;;
         raise_if failed
       else Ret ()
     else Ret ()
   else Ret ()) ;;
  tmux_there <-
    (if negb (open_no_tmux args)
     then (tm <- ask Tmux_probe ;; Ret (_tmux_available tm))
     else Ret false) ;;
  if (tmux_there : bool) then
    _start_tmux_window project_session a worktree (agent_env ps a task_id)
      (open_dry_run args) ;;
    (if negb (open_dry_run args) && open_lock args then
       db <- ask Locks_read ;;
       ask (Locks_write (_set_locks_tmux_session a task_id project_session db).2)
     else Ret ()) ;;
    ask (Print ("tmux attach -t " ++ project_session))
  else
    (if negb (open_no_tmux args) then
       tm <- ask Tmux_probe ;;
       if negb (_tmux_available tm) then
         ask (PrintErr
                "hydra warning: tmux not found; created worktree without tmux session")
       else Ret ()
     else Ret ()) ;;
    ask (Print worktree).

(** The [except Exception] clause. *)
Definition open_failed (args : OpenArgs) (a task_id : string) : Prog unit :=
  if open_lock args then
    db <- ask Locks_read ;;
    ask (Locks_write (_release_locks a task_id db).2)
  else Ret ().

Definition cmd_agent_open (ps : Paths) (args : OpenArgs) : Prog Z :=
  unreadable <- ask ReadConfig ;;
  raise_if unreadable ;;
  a <- lift_result (_sanitize_ref_component (open_name args) "agent name") ;;
  task_id <- lift_result (_sanitize_task_id (open_task args)) ;;
  loaded <- ask (LoadTaskAllow task_id) ;;
  allow <- or_raise loaded ;;
  let worktree := agents_dir ps ++ "/" ++ a ++ "/" ++ task_id in
  let branch := "agent/" ++ a ++ "/" ++ task_id in
  base_ref <-
    match open_base args with
    | Some b => if String.eqb b "" then _default_base_ref (root ps) else Ret b
    | None => _default_base_ref (root ps)
    end ;;
  session <- ask ProjectSession ;;
  project_session <- or_raise session ;;
  expanded <- ask (ExpandAllow allow) ;;
  files_to_lock <- or_raise expanded ;;
  (if open_dry_run args then
     if open_lock args then
       ask (Print ("[dry-run] would lock " ++ pretty (length files_to_lock) ++ " paths"))
     else ask (Print "[dry-run] no locking (optimistic concurrency)")
   else Ret ()) ;;
  (if open_lock args then acquire_for_open files_to_lock a task_id else Ret ()) ;;
  try_except
    (open_body ps args a task_id worktree branch base_ref project_session)
    (open_failed args a task_id) ;;
  Ret 0.

(** ** A scripted outside world

    A world for running the commands on concrete inputs: the lock table
    and the clock are state, the liveness oracle and the file system are
    fixed, and a subprocess is answered from the command lines run so far
    (most recent first), its working directory and its own command line.
    The configuration is readable, and sharing directories and linking
    succeed. *)

Module Scripted.

Record World := {
  locks : Locks;
  tmux : Tmux;
  clock : Z;
  history : list (list string);
  answer : list (list string) → string → list string → CompletedProcess;
  path_exists : string → bool;
  resolve_agent_task : string → option string → result string;
  load_task : string → result unit;
  find_worktree_by_branch : string → result (option string);
  config_session : string;
  task_allow : string → Exn + list string;
  expand_allow : list string → Exn + list string;
}.

Definition with_locks (db : Locks) (w : World) : World :=
  {| locks := db; tmux := tmux w; clock := clock w; history := history w;
     answer := answer w; path_exists := path_exists w;
     resolve_agent_task := resolve_agent_task w; load_task := load_task w;
     find_worktree_by_branch := find_worktree_by_branch w;
     config_session := config_session w;
     task_allow := task_allow w; expand_allow := expand_allow w |}.

Definition with_history (h : list (list string)) (w : World) : World :=
  {| locks := locks w; tmux := tmux w; clock := clock w; history := h;
     answer := answer w; path_exists := path_exists w;
     resolve_agent_task := resolve_agent_task w; load_task := load_task w;
     find_worktree_by_branch := find_worktree_by_branch w;
     config_session := config_session w;
     task_allow := task_allow w; expand_allow := expand_allow w |}.

Definition respond (X : Type) (rq : Request X) (w : World) : X * World :=
  match rq in Request X return X * World with
  | Subprocess cwd argv _ =>
      (answer w (history w) cwd argv, with_history (argv :: history w) w)
  | PathExists p => (path_exists w p, w)
  | Mkdir _ => ((), w)
  | NowTs => (clock w, w)
  | Print _ => ((), w)
  | PrintErr _ => ((), w)
  | Locks_read => (locks w, w)
  | Locks_write db => ((), with_locks db w)
  | Tmux_probe => (tmux w, w)
  | ResolveAgentTask a task_opt => (resolve_agent_task w a task_opt, w)
  | LoadTask task_id => (load_task w task_id, w)
  | FindWorktreeByBranch branch_ref => (find_worktree_by_branch w branch_ref, w)
  | ConfigSession => (config_session w, w)
  | ReadConfig => (None, w)
  | ProjectSession => (inr (config_session w), w)
  | LoadTaskAllow task_id => (task_allow w task_id, w)
  | ExpandAllow allow => (expand_allow w allow, w)
  | ShareDeps _ _ => (None, w)
  | Symlink _ _ => (None, w)
  end.

Definition run {A : Type} (p : Prog A) (w : World) : (Exn + A) * World * list Event :=
  exec World respond p w.

Definition completed (code : Z) (out : string) : CompletedProcess :=
  {| returncode := code; stdout := out; stderr := "" |}.

(** Whether a command line starting with [prefix] has been run. *)
Definition has_run (prefix : list string) (h : list (list string)) : bool :=
  existsb (λ argv, bool_decide (prefix `prefix_of` argv)) h.

End Scripted.

(** ** Notions used by the statements *)

(** A path pattern has a [..] segment, after the separators are normalized. *)
Definition has_dotdot_segment (pattern : string) : bool :=
  existsb (String.eqb "..") (Py.split "/" (Py.replace_char "\" "/" pattern)).

(** A literal pattern in normal form: forward slashes only, no leading dot
    or slash, no empty or [.] segment, no glob character. *)
Definition is_normal_literal (p : string) : bool :=
  negb (Py.contains "\" p)
  && negb (Py.startswith p ".")
  && negb (Py.startswith p "/")
  && forallb (λ seg, negb (String.eqb seg "") && negb (String.eqb seg "."))
       (Py.split "/" p)
  && negb (_is_glob_pattern p).

(** Every literal pattern of [allow] is in [out] as it is written. *)
Definition keeps_literals_verbatim (allow out : list string) : Prop :=
  ∀ raw, raw ∈ allow → _is_glob_pattern raw = false → raw ∈ out.

(** A pattern as a task stores it: backslashes turned into slashes, every
    leading dot and slash stripped. *)
Definition stored_pattern (raw : string) : string :=
  Py.lstrip ["."; "/"]%char (Py.replace_char "\" "/" raw).

Section ExpandOrigins.

Variable glob : string → list string.
Variable resolve : string → Exn + option string.
Variable is_file : string → Exn + bool.
Variable relative_to_root : string → option string.

(** [p] is what a literal pattern of [allow] is locked as: the pattern
    with its backslashes turned into slashes and every leading dot and
    slash stripped, as [Path] prints it. *)
Definition from_literal (allow : list string) (p : string) : Prop :=
  ∃ raw,
    raw ∈ allow ∧ _is_glob_pattern (stored_pattern raw) = false
    ∧ p = as_posix (stored_pattern raw).

(** [p] is the path, relative to the root, of a regular file that a glob
    pattern of [allow] matches. *)
Definition from_glob (allow : list string) (p : string) : Prop :=
  ∃ raw pattern m rp,
    raw ∈ allow ∧ _validate_allow_pattern raw = Ok pattern
    ∧ _is_glob_pattern pattern = true ∧ m ∈ glob pattern
    ∧ resolve m = inr (Some rp) ∧ is_file rp = inr true
    ∧ relative_to_root rp = Some p.

(** No call of [resolve] or [is_file] on a match of a glob pattern of
    [allow] raises. *)
Definition file_system_answers (allow : list string) : Prop :=
  ∀ raw pattern m,
    raw ∈ allow → _validate_allow_pattern raw = Ok pattern →
    _is_glob_pattern pattern = true → m ∈ glob pattern →
    match resolve m with
    | inl _ => False
    | inr None => True
    | inr (Some rp) => returns (is_file rp) = true
    end.

End ExpandOrigins.

(** The liveness oracle confirms that the session of a row is not running:
    tmux is available, the tag is not empty, and [has-session] fails. *)
Definition confirmed_dead (tm : Tmux) (row : Lock) : bool :=
  _tmux_available tm &&
  match tmux_session row with
  | Some s => negb (String.eqb s "") && negb (has_session tm s)
  | None => false
  end.

(** One operation of the lock store ([_cleanup_dead_locks],
    [_acquire_locks], [_set_locks_tmux_session], [_release_locks]) with
    its arguments, and the table it leaves; a garbage collection comes with
    the state of the oracle at its time. *)
Inductive LockStep :=
  | Collect (tm : Tmux)
  | Acquire (tm : Tmux) (now_ : Z) (files : list string) (a t : string)
      (session : option string)
  | RecordSession (a t session : string)
  | Release (a t : string).

Definition run_step (db : Locks) (st : LockStep) : Locks :=
  match st with
  | Collect tm => (_cleanup_dead_locks tm db).2
  | Acquire tm now_ files a t session =>
      (_acquire_locks tm now_ files a t session db).2
  | RecordSession a t session => (_set_locks_tmux_session a t session db).2
  | Release a t => (_release_locks a t db).2
  end.

Definition run_steps (steps : list LockStep) (db : Locks) : Locks :=
  foldl run_step db steps.

(** The step is not one of the owner [(a, t)] on its lock of [f]: not its
    release, not a session recorded on its locks, not its acquisition of
    [f] once more. Garbage collections and the operations of other owners
    are such steps. *)
Definition spares (a t f : string) (st : LockStep) : Prop :=
  match st with
  | Collect _ => True
  | Acquire _ _ files b u _ => b = a ∧ u = t → f ∉ files
  | RecordSession b u _ => ¬ (b = a ∧ u = t)
  | Release b u => ¬ (b = a ∧ u = t)
  end.

(** The lock of [f] as the claim words it: whatever is done to the table,
    the row is there as long as its owner [(a, t)] has not released it. *)
Definition stays_until_released (a t f : string) (db : Locks) : Prop :=
  ∀ steps,
    Forall (λ st, ∀ b u, st = Release b u → ¬ (b = a ∧ u = t)) steps →
    is_Some (run_steps steps db !! f).

(** A session that the loop of the collector deletes: its tag is not empty
    and the oracle does not find it. *)
Definition deletes (tm : Tmux) (session : string) : bool :=
  negb (String.eqb session "") && negb (_tmux_session_exists tm session).

(** The rows of the requested files that another owner holds. *)
Definition conflicts_with (files : list string) (a t : string) (db : Locks)
    : list Conflict :=
  List.filter (λ row, negb (owned_by a t row)) (select_in files db).

(** The error message names the conflict: it contains its line. *)
Definition reports (msg : string) (c : Conflict) : Prop :=
  Py.contains (acquire_conflict_line c) msg = true.

(** [f] is locked by [(a, t)]. *)
Definition locked_by (db : Locks) (a t f : string) : Prop :=
  ∃ row, db !! f = Some row ∧ agent row = a ∧ task row = t.

(** Lock acquisition as the specification words it: with a conflicting row
    in the table at the time of the call, an error that names every
    conflict and an unchanged table; otherwise every requested file locked
    by the requester. *)
Definition acquire_as_claimed (tm : Tmux) (now_ : Z) (files : list string)
    (a t : string) (session : option string) (db : Locks) : Prop :=
  let res := _acquire_locks tm now_ files a t session db in
  match conflicts_with files a t db with
  | (_ :: _) as conflicts =>
      (∃ msg, res.1 = HydraError msg ∧ Forall (reports msg) conflicts) ∧ res.2 = db
  | [] => res.1 = Ok () ∧ Forall (locked_by res.2 a t) files
  end.

(** The row that the pre-commit hook inserts for a staged path that has no
    lock: the committer, the current time and an empty session tag. *)
Definition hook_row (a task_id : string) (now_ : Z) : Lock :=
  {| agent := a; task := task_id; locked_at := now_; tmux_session := Some "" |}.

(** Time does not run backwards: between two readings of the clock no
    negative time passes, and [time.sleep], when it returns, has lasted at
    least as long as asked. *)
Definition clock_advances (env : nat → Debounce.Pass) : Prop :=
  ∀ k, (0 <= Debounce.before_quiet_reading (env k))%Q
       ∧ (0 <= Debounce.before_timeout_reading (env k))%Q
       ∧ ∀ q slept, Debounce.sleep (env k) q = inr slept → (q <= slept)%Q.

(** The polling interval is positive: a positive number or infinity. *)
Definition poll_positive (poll_seconds : Debounce.PyFloat) : Prop :=
  Debounce.float_lt (Debounce.Finite 0) poll_seconds = true.

(** The passes of the debounce loop, one after the other. *)
Section DebouncePasses.

Import Debounce.
Local Open Scope Q_scope.

Variables (debounce_seconds max_wait_seconds poll_seconds : PyFloat).
Variable env : nat → Pass.
Variable start : Q.

(** The time at which pass [k] begins, if the loop gets that far. *)
Fixpoint clock_at (k : nat) : Q :=
  match k with
  | O => start
  | S j =>
      match one_pass debounce_seconds max_wait_seconds poll_seconds start (env j)
              (clock_at j)
      with
      | inr clock' => clock'
      | inl _ => clock_at j
      end
  end.

(** The row names a regular file, last modified at [m]. *)
Definition changed_at (r : StatusRow) (m : Q) : Prop :=
  rel r ≠ "" ∧ stat r = inr (Some m) ∧ is_file r = inr true.

(** The worktree is quiet in a pass that begins at [clock]. Either the
    status is clean. Or a row names a regular file modified after the
    epoch, and every regular file of the rows was last modified at least
    [debounce_seconds] before the reading of the clock. Or the rows name no
    regular file modified after the epoch (only deleted paths,
    directories, files stamped with the epoch or before) and
    [debounce_seconds] is not NaN: then there is nothing to wait for. *)
Definition quiet_pass (p : Pass) (clock : Q) : Prop :=
  ∃ rs, rows p = inr rs
    ∧ (rs = []
       ∨ ((∃ r m, r ∈ rs ∧ changed_at r m ∧ 0 < m)
          ∧ ∀ r m, r ∈ rs → changed_at r m →
              float_le debounce_seconds
                (Finite (clock + before_quiet_reading p - m)) = true)
       ∨ (rs ≠ []
          ∧ (∀ r m, r ∈ rs → changed_at r m → m <= 0)
          ∧ debounce_seconds ≠ NaN)).

Definition quiet_at (k : nat) : Prop := quiet_pass (env k) (clock_at k).

(** Nothing raises in the pass: [git status] gives its rows, [stat] and
    [is_file] answer for each of them, and [time.sleep] returns. *)
Definition row_answers (r : StatusRow) : Prop :=
  rel r = ""
  ∨ stat r = inr None
  ∨ ∃ m b, stat r = inr (Some m) ∧ is_file r = inr b.

Definition pass_answers (p : Pass) : Prop :=
  (∃ rs, rows p = inr rs ∧ ∀ r, r ∈ rs → row_answers r)
  ∧ ∀ q, 0 <= q → returns (sleep p q) = true.

End DebouncePasses.

(** The sort key [(ts, index)] of one journal entry is smaller than that
    of another. *)
Definition key_lt (x y : Journal.JournalEntry) : Prop :=
  Journal.ts x < Journal.ts y
  ∨ (Journal.ts x = Journal.ts y ∧ (Journal.index x < Journal.index y)%nat).

(** [always P p]: whatever the collaborators answer, the events of the
    command [p] and its outcome satisfy [P]. *)
Fixpoint always {A : Type} (P : list Event → Exn + A → Prop) (p : Prog A) : Prop :=
  match p with
  | Ret a => P [] (inr a)
  | Raise e => P [] (inl e)
  | Vis rq k => ∀ x, always (λ evs r, P (event_of rq x :: evs) r) (k x)
  end.

(** A subprocess event whose command line is [git commit ...]. *)
Definition is_commit (ev : Event) : Prop :=
  ∃ cwd rest code, ev = Ran cwd ("git" :: "commit" :: rest) code.

(** [never bad p]: no run of [p] has an event that is [bad]. *)
Definition never {A : Type} (bad : Event → Prop) (p : Prog A) : Prop :=
  always (λ evs _, Forall (λ ev, ¬ bad ev) evs) p.

(** The [git merge] of the agent branch, in either mode. *)
Definition is_merge_attempt (cwd : string) (code : Z) (ev : Event) : Prop :=
  ∃ branch, ev = Ran cwd ["git"; "merge"; "--squash"; branch] code
            ∨ ev = Ran cwd ["git"; "merge"; "--no-ff"; "--no-edit"; branch] code.

(** What [cmd_merge] does to clean up after a merge: the session is
    killed, the release of the locks is reported, the branch is deleted. *)
Definition is_merge_cleanup (ev : Event) : Prop :=
  (∃ cwd rest code, ev = Ran cwd ("tmux" :: "kill-session" :: rest) code)
  ∨ (∃ cwd rest code, ev = Ran cwd ("git" :: "branch" :: "-D" :: rest) code)
  ∨ (∃ line, ev = PrintedErr line).

(** [git worktree add ...] *)
Definition is_worktree_add (ev : Event) : Prop :=
  ∃ cwd rest code, ev = Ran cwd ("git" :: "worktree" :: "add" :: rest) code.

(** The lock table that is written is the garbage collection of the one
    that was read just before. *)
Definition writes_only_collect (evs : list Event) : Prop :=
  ∀ db', LocksWritten db' ∈ evs →
    ∃ db tm, db' = (_cleanup_dead_locks tm db).2
             ∧ [LocksRead db; TmuxProbed tm; LocksWritten db'] `sublist_of` evs.

(** After a failed merge in [cwd]: either the command returns 1 and has
    not aborted the merge, or it raises [HydraError], and then it has run
    [git merge --abort] unless the [git status] that looks for conflicts
    has failed itself. *)
Definition left_or_aborted {A : Type} (one : A) (cwd : string)
    (evs : list Event) (r : Exn + A) : Prop :=
  (r = inr one ∧ ∀ c, Ran cwd ["git"; "merge"; "--abort"] c ∉ evs)
  ∨ ((∃ msg, r = inl (EHydra msg))
     ∧ ((∃ c, Ran cwd ["git"; "merge"; "--abort"] c ∈ evs)
        ∨ (∃ c, c ≠ 0 ∧ Ran cwd ["git"; "status"; "--porcelain"] c ∈ evs))).

(** What every run of the [try] block of [cmd_merge] satisfies. *)
Definition merge_body_ok (evs : list Event) (r : Exn + (Z + string)) : Prop :=
  (∀ ev, ev ∈ evs → ¬ is_merge_cleanup ev ∧ ¬ is_worktree_add ev)
  ∧ writes_only_collect evs
  ∧ (∀ cwd code ev, ev ∈ evs → is_merge_attempt cwd code ev → code ≠ 0 →
       left_or_aborted (inl 1) cwd evs r).

(** What every run of the part of [cmd_merge] after a committed merge
    satisfies. *)
Definition merge_cleanup_ok (evs : list Event) : Prop :=
  ∀ ev, ev ∈ evs → (∀ cwd code, ¬ is_merge_attempt cwd code ev) ∧ ¬ is_worktree_add ev.

(** What a failed merge of the agent branch leaves: the outcome, no
    clean-up, and no change to the lock table but garbage collection. *)
Definition failed_merge_ok (evs : list Event) (r : Exn + Z) : Prop :=
  ∀ cwd code ev, ev ∈ evs → is_merge_attempt cwd code ev → code ≠ 0 →
    left_or_aborted 1 cwd evs r
    ∧ (∀ ev', ev' ∈ evs → ¬ is_merge_cleanup ev')
    ∧ writes_only_collect evs.

(** An event that is no [git merge], no clean-up and no write to the lock
    table. *)
Definition inert (ev : Event) : Prop :=
  match ev with
  | Ran _ ("git" :: "merge" :: _) _ => False
  | Ran _ ("tmux" :: "kill-session" :: _) _ => False
  | Ran _ ("git" :: "branch" :: "-D" :: _) _ => False
  | PrintedErr _ => False
  | LocksWritten _ => False
  | _ => True
  end.

(** What [cmd_merge --abort] may do: the three subprocesses of its own,
    its line on the standard output, and the three look-ups that the
    command takes by their answers. *)
Definition abort_only (ev : Event) : Prop :=
  match ev with
  | Ran _ argv _ =>
      (∃ ref, argv = ["git"; "show-ref"; "--verify"; "--quiet"; ref])
      ∨ argv = ["git"; "merge"; "--abort"]
      ∨ argv = ["git"; "reset"; "--hard"; "HEAD"]
  | Printed _ => True
  | Asked helper =>
      helper = "_resolve_agent_task"
      ∨ helper = "_load_task"
      ∨ helper = "_find_worktree_by_branch"
  | PrintedErr _ | LocksRead _ | LocksWritten _ | TmuxProbed _ => False
  end.

(** An event that does not touch the lock table. *)
Definition off_the_table (ev : Event) : Prop :=
  match ev with
  | LocksRead _ | LocksWritten _ => False
  | _ => True
  end.

(** ** Concrete inputs for the examples *)

Module Sample.

(** A repository at [/repo] with one Python file and one directory
    under [src]. *)
Definition glob (pattern : string) : list string :=
  if String.eqb pattern "src/*" then ["/repo/src/a.py"; "/repo/src/pkg"] else [].

Definition resolve (m : string) : Exn + option string := inr (Some m).

Definition is_file (rp : string) : Exn + bool := inr (String.eqb rp "/repo/src/a.py").

Definition relative_to_root (rp : string) : option string :=
  if Py.startswith rp "/repo/" then Some (PyText.drop 6 rp) else None.

Definition expand : list string → Exn + list string :=
  _expand_allow glob resolve is_file relative_to_root.

End Sample.

Module SampleLocks.

(** tmux is installed and only the session [main] is running. *)
Definition tmux : Tmux :=
  {| _tmux_available := true; has_session := String.eqb "main" |}.

(** tmux is not installed. *)
Definition no_tmux : Tmux :=
  {| _tmux_available := false; has_session := λ _, false |}.

Definition row (a t : string) (session : option string) : Lock :=
  {| agent := a; task := t; locked_at := 100; tmux_session := session |}.

(** Four locks: one in the live session, one in a dead session, one
    without a session and one with an empty tag. *)
Definition locks : Locks :=
  <["src/live.py" := row "alice" "t1" (Some "main")]>
    (<["src/dead.py" := row "bob" "t2" (Some "gone")]>
       (<["src/new.py" := row "carol" "t3" None]>
          (<["src/hook.py" := row "dave" "t4" (Some "")]> ∅))).

End SampleLocks.

Module SampleConflicts.

(** Twenty-one files, [f10] to [f30], all locked by [bob] for [t2]. *)
Definition files : list string := (λ n, "f" ++ pretty n) <$> seq 10 21.

Definition locks : Locks :=
  list_to_map ((λ f, (f, SampleLocks.row "bob" "t2" None)) <$> files).

(** One file locked by [bob] in a session that is gone. *)
Definition stale : Locks :=
  <["a.py" := SampleLocks.row "bob" "t2" (Some "gone")]> ∅.

End SampleConflicts.

Module SampleHook.

(** A commit of [alice] for task [t1] with two staged paths, one of which
    she has locked already. *)
Definition input : HookInput :=
  {| environ_HYDRA_SKIP_HOOKS := "";
     environ_AGENT_ID := "alice";
     environ_TASK_ID := "t1";
     task_allow := Ok ["src/*"];
     staged := ["src/a.py"; "src/b.py"];
     now := 300 |}.

Definition locks : Locks :=
  <["src/a.py" := SampleLocks.row "alice" "t1" (Some "main")]> ∅.

(** A stand-in for [fnmatch] that accepts the paths under [src/]. *)
Definition fnmatch (path pattern : string) : bool := Py.startswith path "src/".

End SampleHook.

Module SampleDebounce.

Import Debounce.

(** A file that is written again every 0.6 seconds: at pass [k] its
    modification time is [1000 + 0.6 k]. Each sleep lasts 0.1 seconds
    longer than asked. *)
Definition busy (k : nat) : Pass :=
  {| rows := inr [ {| status := " M"; rel := "a.py";
                      stat := inr (Some (inject_Z (Z.of_nat k) * (6 # 10) + 1000)%Q);
                      is_file := inr true |} ];
     before_quiet_reading := 0%Q;
     before_timeout_reading := 0%Q;
     sleep := λ q, inr (q + (1 # 10))%Q |}.

End SampleDebounce.

Module SampleSettled.

Import Debounce.

(** A file that was last written at time 1000 and is left alone. *)
Definition settled (k : nat) : Pass :=
  {| rows := inr [ {| status := " M"; rel := "a.py"; stat := inr (Some 1000%Q);
                      is_file := inr true |} ];
     before_quiet_reading := 0%Q;
     before_timeout_reading := 0%Q;
     sleep := λ q, inr (q + (1 # 10))%Q |}.

End SampleSettled.

(** A project in which agent [alice] works on task [t1]; git knows no
    worktree for her branch and the conventional directory does not exist,
    so a command that needs a worktree creates a temporary one. Every
    command succeeds except [git revert --no-commit], which leaves with
    [revert_code], and [git merge-base --is-ancestor], which leaves with
    [ancestor_code]. *)
Module SampleRollback.

Definition ps : Paths :=
  {| root := "/repo"; hydra_dir := "/repo/.hydra";
     agents_dir := "/repo/.agents"; tasks_dir := "/repo/.hydra/tasks" |}.

Definition args : RollbackArgs :=
  {| rollback_agent := "alice"; rollback_task := Some "t1"; rollback_to := "HEAD~2" |}.

Definition word (n : nat) (argv : list string) : string := default "" (argv !! n).

Definition answer (revert_code ancestor_code : Z)
    (_ : list (list string)) (_ : string) (argv : list string) : CompletedProcess :=
  let sub := word 1 argv in
  if String.eqb sub "rev-parse" then Scripted.completed 0 "0123456789abcdef"
  else if String.eqb sub "merge-base" then Scripted.completed ancestor_code ""
  else if String.eqb sub "rev-list" then Scripted.completed 0 "2"
  else if String.eqb sub "revert" && negb (String.eqb (word 2 argv) "--abort")
  then Scripted.completed revert_code ""
  else Scripted.completed 0 "".

Definition world (revert_code ancestor_code : Z) : Scripted.World :=
  {| Scripted.locks := ∅;
     Scripted.tmux := {| _tmux_available := true; has_session := λ _, false |};
     Scripted.clock := 1700000000;
     Scripted.history := [];
     Scripted.answer := answer revert_code ancestor_code;
     Scripted.path_exists := λ _, false;
     Scripted.resolve_agent_task := λ _ task_opt, Ok (default "t1" task_opt);
     Scripted.load_task := λ _, Ok ();
     Scripted.find_worktree_by_branch := λ _, Ok None;
     Scripted.config_session := "hydra";
     Scripted.task_allow := λ _, inr ["src/a.py"];
     Scripted.expand_allow := λ allow, inr allow |}.

End SampleRollback.

(** The same project when [alice] merges [t1]. The branch changes
    [src/a.py]; [git merge] leaves with [merge_code], and [git status]
    shows an unmerged path once a merge has been run. [trunk_worktree] is
    the worktree that git lists for the trunk, if any. *)
Module SampleMerge.

Definition ps : Paths := SampleRollback.ps.

Definition args (abort : bool) : MergeArgs :=
  {| merge_agent := "alice"; merge_task := Some "t1"; merge_squash := false;
     merge_abort := abort |}.

Definition answer (merge_code : Z)
    (h : list (list string)) (_ : string) (argv : list string) : CompletedProcess :=
  let sub := SampleRollback.word 1 argv in
  if String.eqb sub "rev-parse" then Scripted.completed 0 "main"
  else if String.eqb sub "merge-base" then Scripted.completed 0 "0123456789abcdef"
  else if String.eqb sub "diff" then Scripted.completed 0 "src/a.py"
  else if String.eqb sub "status" then
    Scripted.completed 0
      (if Scripted.has_run ["git"; "merge"] h then "UU src/a.py" else "")
  else if String.eqb sub "merge" && negb (String.eqb (SampleRollback.word 2 argv) "--abort")
  then Scripted.completed merge_code ""
  else Scripted.completed 0 "".

Definition row (a t : string) : Lock :=
  {| agent := a; task := t; locked_at := 100; tmux_session := None |}.

Definition world (merge_code : Z) (trunk_worktree : option string) (db : Locks)
    : Scripted.World :=
  {| Scripted.locks := db;
     Scripted.tmux := {| _tmux_available := true; has_session := λ _, false |};
     Scripted.clock := 1700000000;
     Scripted.history := [];
     Scripted.answer := answer merge_code;
     Scripted.path_exists := λ _, false;
     Scripted.resolve_agent_task := λ _ task_opt, Ok (default "t1" task_opt);
     Scripted.load_task := λ _, Ok ();
     Scripted.find_worktree_by_branch := λ _, Ok trunk_worktree;
     Scripted.config_session := "hydra";
     Scripted.task_allow := λ _, inr ["src/a.py"];
     Scripted.expand_allow := λ allow, inr allow |}.

End SampleMerge.

(** A merge that meets a conflict in a temporary trunk worktree. *)
Definition conflicted_merge : Scripted.World :=
  SampleMerge.world 1 None {["src/a.py" := SampleMerge.row "alice" "t1"]}.

Definition temporary_trunk : string := "/repo/.hydra/worktrees/trunk-main-1700000000".

(** A lock table in which [bob] holds a file of the merge. *)
Definition foreign_lock : Scripted.World :=
  SampleMerge.world 0 None {["src/a.py" := SampleMerge.row "bob" "t2"]}.

(** A dry run of closing [alice]'s task [t1]. *)
Definition dry_close : CloseArgs :=
  {| close_name := "alice"; close_task := "t1"; close_keep_tmux := false;
     close_dry_run := true; close_remove_worktree := true |}.

(** Opening [alice]'s task [t1], whose allow list is [src/a.py]. Only the
    trunk [main] exists as a branch; [worktree_there] says whether the
    directory of the worktree exists already, which makes the command fail
    after the acquisition. *)
Module SampleOpen.

Definition args (dry_run lock : bool) : OpenArgs :=
  {| open_name := "alice"; open_task := "t1"; open_base := None;
     open_dry_run := dry_run; open_lock := lock;
     open_no_shared_deps := false; open_no_tmux := false |}.

Definition answer (_ : list (list string)) (_ : string) (argv : list string)
    : CompletedProcess :=
  if String.eqb (SampleRollback.word 1 argv) "show-ref"
     && negb (String.eqb (SampleRollback.word 4 argv) "refs/heads/main")
  then Scripted.completed 1 ""
  else Scripted.completed 0 "".

Definition world (worktree_there : bool) : Scripted.World :=
  {| Scripted.locks := {["src/old.py" := SampleMerge.row "alice" "t1"]};
     Scripted.tmux := {| _tmux_available := true; has_session := λ _, true |};
     Scripted.clock := 1700000000;
     Scripted.history := [];
     Scripted.answer := answer;
     Scripted.path_exists := λ _, worktree_there;
     Scripted.resolve_agent_task := λ _ task_opt, Ok (default "t1" task_opt);
     Scripted.load_task := λ _, Ok ();
     Scripted.find_worktree_by_branch := λ _, Ok None;
     Scripted.config_session := "hydra";
     Scripted.task_allow := λ _, inr ["src/a.py"];
     Scripted.expand_allow := λ allow, inr allow |}.

End SampleOpen.

(** * Properties *)

(** ** Strings *)

Section StringFacts.

Lemma sorted_strongly (xs : list string) : StronglySorted String.le (Py.sorted xs).
Proof. apply StronglySorted_merge_sort; apply _. Qed.

Lemma sorted_perm (xs : list string) : Py.sorted xs ≡ₚ xs.
Proof. apply merge_sort_Permutation. Qed.

Lemma elem_of_sorted (x : string) (xs : list string) : x ∈ Py.sorted xs ↔ x ∈ xs.
Proof. by rewrite sorted_perm. Qed.

Lemma app_cons (c : ascii) (s t : string) : String c s ++ t = String c (s ++ t).
Proof. reflexivity. Qed.

Lemma app_empty (t : string) : "" ++ t = t.
Proof. reflexivity. Qed.

Lemma split_nonempty (sep : ascii) (s : string) : Py.split sep s ≠ [].
Proof.
  destruct s as [|c s]; simpl; [done|].
  destruct (Ascii.eqb c sep); [done|]. by destruct (Py.split sep s).
Qed.

Lemma join_cons_char (sep : string) (c : ascii) (hd : string) (tl : list string) :
  Py.join sep (String c hd :: tl) = String c (Py.join sep (hd :: tl)).
Proof. by destruct tl. Qed.

(** [sep.join(s.split(sep)) == s] *)
Lemma join_split (sep : ascii) (s : string) :
  Py.join (String sep EmptyString) (Py.split sep s) = s.
Proof.
  induction s as [|c s IH]; simpl; [done|].
  destruct (Ascii.eqb_spec c sep) as [->|Hne].
  - pose proof (split_nonempty sep s) as Hs.
    destruct (Py.split sep s) as [|hd tl]; [done|].
    simpl in *. by rewrite IH.
  - pose proof (split_nonempty sep s) as Hs.
    destruct (Py.split sep s) as [|hd tl]; [done|].
    by rewrite join_cons_char, IH.
Qed.

Lemma replace_char_absent (old new : ascii) (s : string) :
  Py.contains (String old EmptyString) s = false →
  Py.replace_char old new s = s.
Proof.
  induction s as [|c s IH]; simpl; [done|].
  destruct (Ascii.eqb_spec c old) as [->|Hne].
  - destruct (ascii_dec old old); [|done]. by destruct s.
  - intros H. apply orb_false_iff in H as [_ H]. by rewrite IH.
Qed.

Lemma filter_all {A : Type} (P : A → bool) (l : list A) :
  forallb P l = true → List.filter P l = l.
Proof.
  induction l as [|x l IH]; simpl; [done|].
  intros [Hx Hl]%andb_true_iff. by rewrite Hx, IH.
Qed.

End StringFacts.

(** ** Permission resolver *)

Lemma validate_rejects_empty : is_ok (_validate_allow_pattern "") = false.
Proof. reflexivity. Qed.

Lemma validate_rejects_absolute (p : string) :
  isabs p = true → is_ok (_validate_allow_pattern p) = false.
Proof.
  intros Habs. unfold _validate_allow_pattern.
  destruct (String.eqb p ""); [done|]. by rewrite Habs.
Qed.

Lemma contains_cons (needle : string) (c : ascii) (s : string) :
  Py.contains needle s = true → Py.contains needle (String c s) = true.
Proof.
  intros H. change (Py.contains needle (String c s))
    with (String.prefix needle (String c s) || Py.contains needle s).
  rewrite H. apply orb_true_r.
Qed.

Lemma contains_prefix (needle s : string) :
  String.prefix needle s = true → Py.contains needle s = true.
Proof. intros H. destruct s; cbn [Py.contains]; by rewrite H. Qed.

Lemma prefix_app (p s : string) : String.prefix p (p ++ s) = true.
Proof.
  induction p as [|c p IH]; [by destruct s|].
  rewrite app_cons. cbn. by destruct (ascii_dec c c).
Qed.

Lemma contains_app (needle a s : string) :
  Py.contains needle s = true → Py.contains needle (a ++ s) = true.
Proof.
  induction a as [|c a IH]; [done|]. intros H.
  rewrite app_cons. by apply contains_cons, IH.
Qed.

Lemma string_app_assoc (a b c : string) : (a ++ b) ++ c = a ++ (b ++ c).
Proof. induction a as [|x a IH]; [done|]. by rewrite !app_cons, IH. Qed.

Lemma join_app (sep : string) (l1 l2 : list string) :
  l1 ≠ [] → l2 ≠ [] →
  Py.join sep (l1 ++ l2) = Py.join sep l1 ++ sep ++ Py.join sep l2.
Proof.
  intros H1 H2. induction l1 as [|x l1 IH]; [done|].
  destruct l1 as [|y l1].
  - destruct l2; done.
  - change (Py.join sep ((x :: y :: l1) ++ l2))
      with (x ++ sep ++ Py.join sep ((y :: l1) ++ l2)).
    rewrite IH by done.
    change (Py.join sep (x :: y :: l1)) with (x ++ sep ++ Py.join sep (y :: l1)).
    by rewrite !string_app_assoc.
Qed.

(** Where [split] finds a [..] segment that is not the last one, the text
    starts with [../] (first segment) or contains [/../] (a later one). *)
Lemma dotdot_segment_first (s : string) (tl : list string) :
  Py.split "/" s = ".." :: tl → tl ≠ [] → Py.startswith s "../" = true.
Proof.
  intros Hs Htl. rewrite <- (join_split "/" s), Hs.
  destruct tl as [|y tl]; [done|].
  change (Py.join "/" (".." :: y :: tl)) with ("../" ++ Py.join "/" (y :: tl)).
  apply prefix_app.
Qed.

Lemma dotdot_segment_later (s : string) (i : nat) :
  Py.split "/" s !! S i = Some ".." →
  (S (S i) < length (Py.split "/" s))%nat →
  Py.contains "/../" s = true.
Proof.
  intros Hi Hlen. rewrite <- (join_split "/" s).
  apply list_elem_of_split_length in Hi as (l1 & l2 & Hs & Hl1).
  rewrite Hs in Hlen |- *. rewrite length_app in Hlen. simpl in Hlen.
  assert (l1 ≠ []) by (destruct l1; simpl in Hl1; [lia|done]).
  assert (l2 ≠ []) by (destruct l2; simpl in Hlen; [lia|done]).
  rewrite join_app by done.
  destruct l2 as [|y l2]; [done|].
  change (Py.join "/" (".." :: y :: l2)) with ("../" ++ Py.join "/" (y :: l2)).
  apply contains_app.
  change ("/" ++ "../" ++ Py.join "/" (y :: l2))
    with ("/../" ++ Py.join "/" (y :: l2)).
  apply contains_prefix, prefix_app.
Qed.

(** A [..] segment anywhere but in the last position is rejected. *)
Lemma validate_rejects_inner_dotdot (p : string) (i : nat) :
  Py.split "/" (Py.replace_char "\" "/" p) !! i = Some ".." →
  (S i < length (Py.split "/" (Py.replace_char "\" "/" p)))%nat →
  is_ok (_validate_allow_pattern p) = false.
Proof.
  intros Hi Hlen. unfold _validate_allow_pattern.
  destruct (String.eqb p ""); [done|]. destruct (isabs p); [done|].
  destruct i as [|i].
  - destruct (Py.split "/" (Py.replace_char "\" "/" p)) as [|hd tl] eqn:Hs; [done|].
    simpl in Hi. injection Hi as ->.
    rewrite (dotdot_segment_first _ tl Hs); [done|].
    destruct tl; simpl in Hlen; [lia|done].
  - rewrite (dotdot_segment_later _ i Hi Hlen). by rewrite orb_true_r.
Qed.

(** C4, the defect. A pattern whose last segment is [..] passes
    [_validate_allow_pattern]: [src/..] is returned unchanged and [./..],
    the parent of the repository root, is returned as the empty pattern;
    [_path_is_allowed] then matches against it instead of raising. The
    checks of the function cover a [..] at the start ([../]), in the
    middle ([/../]) and alone, and miss the one at the end. *)
Theorem validate_accepts_trailing_dotdot :
  has_dotdot_segment "src/.." = true
  ∧ _validate_allow_pattern "src/.." = Ok "src/.."
  ∧ has_dotdot_segment "./.." = true
  ∧ _validate_allow_pattern "./.." = Ok ""
  ∧ ∀ (fnmatch : string → string → bool) (path : string),
      _path_is_allowed fnmatch path ["src/.."]
      = Ok (fnmatch (Py.replace_char "\" "/" path) "src/..").
Proof.
  repeat split; try reflexivity.
  intros fnmatch path. unfold _path_is_allowed. simpl.
  change (_validate_allow_pattern "src/..") with (@Ok string "src/..").
  simpl. by destruct (fnmatch _ _).
Qed.

(** ** Pattern expansion *)

Lemma lstrip_no_leading (chars : list ascii) (s : string) :
  match s with
  | EmptyString => True
  | String c _ => existsb (Ascii.eqb c) chars = false
  end → Py.lstrip chars s = s.
Proof. destruct s as [|c s]; [done|]. simpl. by intros ->. Qed.

Lemma as_posix_normal (p : string) :
  Py.startswith p "/" = false →
  forallb (λ seg, negb (String.eqb seg "") && negb (String.eqb seg "."))
    (Py.split "/" p) = true →
  as_posix p = p.
Proof.
  intros Hroot Hsegs. unfold as_posix.
  rewrite Hroot, (filter_all _ _ Hsegs).
  pose proof (split_nonempty "/" p).
  destruct (Py.split "/" p) eqn:Hs; [done|].
  rewrite <- Hs, app_empty. apply join_split.
Qed.

Lemma normal_literal_fixed (p : string) :
  is_normal_literal p = true →
  Py.replace_char "\" "/" p = p
  ∧ Py.lstrip ["."; "/"]%char p = p
  ∧ as_posix p = p
  ∧ _is_glob_pattern p = false.
Proof.
  unfold is_normal_literal. rewrite !andb_true_iff, !negb_true_iff.
  intros [[[[Hbs Hdot] Hslash] Hsegs] Hglob].
  repeat split; [by apply replace_char_absent| |by apply as_posix_normal|done].
  apply lstrip_no_leading. destruct p as [|c p]; [done|].
  unfold Py.startswith in Hdot, Hslash. simpl in Hdot, Hslash. simpl.
  destruct (ascii_dec "." c) as [<-|Hd]; [by destruct p|].
  destruct (ascii_dec "/" c) as [<-|Hs]; [by destruct p|].
  rewrite !orb_false_r.
  apply orb_false_iff; split; by apply Ascii.eqb_neq.
Qed.

Lemma prefix_empty (s : string) : String.prefix "" s = true.
Proof. by destruct s. Qed.

Lemma startswith_char (c d : ascii) (r : string) :
  Py.startswith (String c r) (String d EmptyString) = bool_decide (d = c).
Proof.
  unfold Py.startswith. cbn [String.prefix].
  destruct (ascii_dec d c) as [Heq|Hne].
  - by rewrite prefix_empty, bool_decide_eq_true_2.
  - by rewrite bool_decide_eq_false_2.
Qed.

Section ExpandFacts.

Variable glob : string → list string.
Variable resolve : string → Exn + option string.
Variable is_file : string → Exn + bool.
Variable relative_to_root : string → option string.

Lemma add_matches_spec (ms : list string) (locked out : gset string) :
  add_matches resolve is_file relative_to_root ms locked = inr out →
  ∀ p, p ∈ out ↔
       p ∈ locked ∨ ∃ m rp, m ∈ ms ∧ resolve m = inr (Some rp) ∧ is_file rp = inr true
                            ∧ relative_to_root rp = Some p.
Proof.
  revert locked. induction ms as [|m ms IH]; intros locked; cbn [add_matches].
  - intros [= <-] p. split; [by left|].
    intros [?|(?&?&Hm&_)]; [done|]. by apply elem_of_nil in Hm.
  - assert (∀ locked',
      add_matches resolve is_file relative_to_root ms locked' = inr out →
      (∀ p, p ∈ locked' ↔
            p ∈ locked ∨ ∃ rp, resolve m = inr (Some rp) ∧ is_file rp = inr true
                               ∧ relative_to_root rp = Some p) →
      ∀ p, p ∈ out ↔
           p ∈ locked ∨ ∃ m' rp, m' ∈ m :: ms ∧ resolve m' = inr (Some rp)
                                 ∧ is_file rp = inr true
                                 ∧ relative_to_root rp = Some p) as Hstep.
    { intros locked' Hrun Hl' p. rewrite (IH _ Hrun p), Hl'. split.
      - intros [[Hp|(rp&Hrest)]|(m'&rp&Hin&Hrest)]; [by left|right..].
        + exists m, rp. split; [apply elem_of_cons; by left|done].
        + exists m', rp. split; [apply elem_of_cons; by right|done].
      - intros [Hp|(m'&rp&Hin&Hrest)]; [by left; left|].
        apply elem_of_cons in Hin as [->|Hin].
        + left; right. by exists rp.
        + right. by exists m', rp. }
    destruct (resolve m) as [e|[rp|]] eqn:Hres; [done| |].
    2:{ intros Hrun. apply (Hstep _ Hrun). intros p. split; [by left|].
        by intros [?|(?&?&_)]. }
    destruct (is_file rp) as [e|[|]] eqn:Hfile; [done| |].
    2:{ intros Hrun. apply (Hstep _ Hrun). intros p. split; [by left|].
        intros [?|(?&?&?&_)]; [done|congruence]. }
    destruct (relative_to_root rp) as [r|] eqn:Hrel.
    2:{ intros Hrun. apply (Hstep _ Hrun). intros p. split; [by left|].
        intros [?|(?&?&?&?)]; [done|congruence]. }
    intros Hrun. apply (Hstep _ Hrun). intros p.
    rewrite elem_of_union, elem_of_singleton. split.
    + intros [->|?]; [right; by exists rp|by left].
    + intros [?|(rp'&?&?&?)]; [by right|left; congruence].
Qed.

Lemma validate_ok_stored (raw pattern : string) :
  _validate_allow_pattern raw = Ok pattern → pattern = stored_pattern raw.
Proof.
  unfold _validate_allow_pattern, stored_pattern.
  destruct (String.eqb raw ""); [done|]. destruct (isabs raw); [done|].
  destruct (_ || _ || _); [done|]. by intros [= <-].
Qed.

Lemma expand_loop_spec (allow : list string) (locked out : gset string) :
  expand_loop glob resolve is_file relative_to_root allow locked = inr out →
  ∀ p, p ∈ out ↔
       p ∈ locked ∨ from_literal allow p
       ∨ from_glob glob resolve is_file relative_to_root allow p.
Proof.
  revert locked. induction allow as [|raw allow IH]; intros locked; cbn [expand_loop].
  - intros [= <-] p. split; [by left|].
    intros [?|[(?&Hr&_)|(?&?&?&?&Hr&_)]]; [done|..]; by apply elem_of_nil in Hr.
  - destruct (_validate_allow_pattern raw) as [pattern|msg] eqn:Hval; [|done].
    pose proof (validate_ok_stored _ _ Hval) as ->.
    destruct (_is_glob_pattern (stored_pattern raw)) eqn:Hglob; cbn [negb].
    + destruct (add_matches _ _ _ (glob (stored_pattern raw)) locked)
        as [e|locked'] eqn:Hadd; [done|].
      intros Hloop p. rewrite (IH _ Hloop p), (add_matches_spec _ _ _ Hadd p).
      clear IH Hloop Hadd. unfold from_literal, from_glob. split.
      * intros [[Hp|(m&rp&Hm&Hres&Hf&Hrel)]
               |[(r&Hin&Hrest)|(r&q&m&rp&Hin&Hrest)]].
        -- by left.
        -- right; right. exists raw, (stored_pattern raw), m, rp.
           repeat split; try done. apply elem_of_cons; by left.
        -- right; left. exists r. split; [apply elem_of_cons; by right|done].
        -- right; right. exists r, q, m, rp.
           split; [apply elem_of_cons; by right|done].
      * intros [Hp|[(r&Hin&Hg&Hq)|(r&q&m&rp&Hin&Hv&Hg&Hm&Hrest)]].
        -- by left; left.
        -- apply elem_of_cons in Hin as [->|Hin].
           ++ congruence.
           ++ right; left. by exists r.
        -- apply elem_of_cons in Hin as [->|Hin].
           ++ rewrite Hval in Hv. injection Hv as <-.
              left; right. by exists m, rp.
           ++ right; right. by exists r, q, m, rp.
    + intros Hloop p. rewrite (IH _ Hloop p). clear IH Hloop.
      rewrite elem_of_union, elem_of_singleton. unfold from_literal, from_glob. split.
      * intros [[->|Hp]|[(r&Hin&Hrest)|(r&q&m&rp&Hin&Hrest)]].
        -- right; left. exists raw.
           repeat split; try done. apply elem_of_cons; by left.
        -- by left.
        -- right; left. exists r. split; [apply elem_of_cons; by right|done].
        -- right; right. exists r, q, m, rp.
           split; [apply elem_of_cons; by right|done].
      * intros [Hp|[(r&Hin&Hg&Hq)|(r&q&m&rp&Hin&Hv&Hg&Hm&Hrest)]].
        -- by left; right.
        -- apply elem_of_cons in Hin as [->|Hin].
           ++ by left; left.
           ++ right; left. by exists r.
        -- apply elem_of_cons in Hin as [->|Hin].
           ++ rewrite Hval in Hv. injection Hv as <-. congruence.
           ++ right; right. by exists r, q, m, rp.
Qed.

Lemma expand_loop_validates (allow : list string) (locked out : gset string) :
  expand_loop glob resolve is_file relative_to_root allow locked = inr out →
  ∀ raw, raw ∈ allow → is_ok (_validate_allow_pattern raw) = true.
Proof.
  revert locked. induction allow as [|r allow IH]; intros locked; cbn [expand_loop].
  - intros _ raw Hraw. by apply elem_of_nil in Hraw.
  - destruct (_validate_allow_pattern r) as [pattern|msg] eqn:Hval; [|done].
    intros Hloop raw [->|Hin]%elem_of_cons; [by rewrite Hval|].
    destruct (_is_glob_pattern pattern); cbn [negb] in Hloop; [|by eauto].
    destruct (add_matches _ _ _ _ _); [done|by eauto].
Qed.

Lemma prefix_cons_ne (c d : ascii) (p s : string) :
  c ≠ d → String.prefix (String c p) (String d s) = false.
Proof. intros Hne. cbn [String.prefix]. by destruct (ascii_dec c d). Qed.

Lemma contains_cons_ne (c d : ascii) (p s : string) :
  c ≠ d → Py.contains (String c p) (String d s) = Py.contains (String c p) s.
Proof.
  intros Hne.
  change (Py.contains (String c p) (String d s))
    with (String.prefix (String c p) (String d s) || Py.contains (String c p) s).
  by rewrite prefix_cons_ne.
Qed.

Lemma string_cons_ne (c : ascii) (s : string) : String c s ≠ s.
Proof. induction s as [|d s IH]; [done|]. intros [= -> Hs]. by apply IH. Qed.

(** A dot in front of a literal in normal form: validation returns the
    literal without the dot, and the pattern with the dot is no glob
    pattern either. *)
Lemma validate_strips_dot (name : string) :
  is_normal_literal name = true →
  is_ok (_validate_allow_pattern name) = true →
  _validate_allow_pattern name = Ok name
  ∧ _validate_allow_pattern (String "." name) = Ok name
  ∧ _is_glob_pattern (String "." name) = false.
Proof.
  intros Hnormal Hok.
  destruct (normal_literal_fixed name Hnormal) as (Hrepl & Hstrip & _ & Hglob).
  assert (Py.startswith name "." = false) as Hdot.
  { unfold is_normal_literal in Hnormal.
    rewrite !andb_true_iff, !negb_true_iff in Hnormal. tauto. }
  unfold _validate_allow_pattern in Hok. rewrite Hrepl, Hstrip in Hok.
  destruct (String.eqb name "") eqn:Hempty; [done|].
  destruct (isabs name) eqn:Habs; [done|].
  destruct (Py.startswith name "../" || Py.contains "/../" name || String.eqb name "..")
    eqn:Hescape; [done|].
  pose proof Hescape as Hmid.
  apply orb_false_iff in Hmid as [[_ Hmid]%orb_false_iff _].
  destruct name as [|c name]; [done|].
  rewrite startswith_char in Hdot. apply bool_decide_eq_false_1 in Hdot.
  split; [|split].
  - unfold _validate_allow_pattern. by rewrite Hrepl, Hstrip, Hempty, Habs, Hescape.
  - unfold _validate_allow_pattern, isabs.
    replace (Py.replace_char "\" "/" (String "." (String c name)))
      with (String "." (String c name)) by (cbn; by rewrite <- Hrepl at 1).
    rewrite startswith_char, bool_decide_eq_false_2 by done.
    assert (Py.startswith (String "." (String c name)) "../" = false) as ->.
    { unfold Py.startswith. cbn [String.prefix]. destruct (ascii_dec "." "."); [|done].
      by apply prefix_cons_ne. }
    rewrite contains_cons_ne, Hmid by done.
    assert (String.eqb (String "." (String c name)) ".." = false) as ->.
    { apply String.eqb_neq. intros [= -> _]. done. }
    cbn [String.eqb orb]. f_equal.
    change (Py.lstrip ["."; "/"]%char (String "." (String c name)))
      with (Py.lstrip ["."; "/"]%char (String c name)).
    exact Hstrip.
  - unfold _is_glob_pattern in *.
    rewrite contains_cons_ne by done.
    destruct (Py.contains "**" (String c name)); [done|].
    cbn [existsb list_ascii_of_string] in *.
    by rewrite !contains_cons_ne by done.
Qed.

(** C5, the defect. [_validate_allow_pattern] ends with [lstrip("./")],
    which strips every leading dot and slash and not only a leading [./].
    So a literal pattern that begins with a dot is locked under another
    path: for every literal [name] in normal form, the pattern [.name]
    (a dot file such as [.gitignore] or [.env]) is no glob pattern, and its
    expansion is [name], whatever the file system holds. The pattern is
    not in the result, and [.name] and [name] together give one lock. *)
Theorem expand_allow_renames_dotfiles (name : string) :
  is_normal_literal name = true →
  is_ok (_validate_allow_pattern name) = true →
  _is_glob_pattern ("." ++ name) = false
  ∧ _expand_allow glob resolve is_file relative_to_root ["." ++ name] = inr [name]
  ∧ ¬ keeps_literals_verbatim ["." ++ name] [name]
  ∧ _expand_allow glob resolve is_file relative_to_root ["." ++ name; name] = inr [name].
Proof.
  intros Hnormal Hok. rewrite app_cons, app_empty.
  destruct (validate_strips_dot name Hnormal Hok) as (Hname & Hdot & Hglob').
  destruct (normal_literal_fixed name Hnormal) as (_ & _ & Hposix & Hglob).
  split; [done|]. split; [|split].
  - unfold _expand_allow. cbn [expand_loop]. rewrite Hdot, Hglob, Hposix. cbn [negb].
    by rewrite union_empty_r_L, elements_singleton.
  - intros Hkeep. specialize (Hkeep (String "." name)).
    rewrite !list_elem_of_singleton in Hkeep.
    by apply (string_cons_ne "." name), Hkeep.
  - unfold _expand_allow. cbn [expand_loop]. rewrite Hdot, Hname, Hglob, Hposix.
    cbn [negb].
    by rewrite union_empty_r_L, union_idemp_L, elements_singleton.
Qed.

End ExpandFacts.

Lemma expand_allow_renames_dotfiles_witness :
  _is_glob_pattern ".gitignore" = false
  ∧ Sample.expand [".gitignore"] = inr ["gitignore"]
  ∧ ¬ keeps_literals_verbatim [".gitignore"] ["gitignore"]
  ∧ Sample.expand [".gitignore"; "gitignore"] = inr ["gitignore"].
Proof.
  apply (expand_allow_renames_dotfiles Sample.glob Sample.resolve Sample.is_file
           Sample.relative_to_root "gitignore").
  - vm_compute. reflexivity.
  - vm_compute. reflexivity.
Defined.

(** ** Lock store: garbage collection *)

Section Cleanup.

Variable tm : Tmux.

Lemma delete_where_session_lookup (session : string) (db : Locks) (f : string) :
  (delete_where_session session db).2 !! f
  = row ← db !! f; if decide (tmux_session row = Some session) then None else Some row.
Proof.
  unfold delete_where_session. simpl. rewrite map_lookup_filter.
  destruct (db !! f) as [row|]; simpl; [|done].
  destruct (decide (tmux_session row = Some session)).
  - by rewrite option_guard_False by (simpl; tauto).
  - by rewrite option_guard_True.
Qed.

Lemma delete_where_session_count (session : string) (db : Locks) :
  ((delete_where_session session db).1 + size (delete_where_session session db).2)%nat
  = size db.
Proof.
  unfold delete_where_session. simpl.
  rewrite <- map_size_disj_union by apply map_disjoint_filter_complement.
  by rewrite map_filter_union_complement.
Qed.

Lemma cleanup_step_lookup (st : nat * Locks) (session : string) (f : string) :
  (cleanup_step tm st session).2 !! f
  = row ← st.2 !! f;
    if deletes tm session && bool_decide (tmux_session row = Some session)
    then None else Some row.
Proof.
  destruct st as [released db]. unfold cleanup_step, deletes. simpl.
  destruct (decide (session = "")) as [->|Hne].
  { simpl. by destruct (db !! f). }
  apply String.eqb_neq in Hne. rewrite Hne. simpl.
  destruct (_tmux_session_exists tm session); simpl.
  { by destruct (db !! f). }
  change (filter _ db) with (delete_where_session session db).2.
  rewrite delete_where_session_lookup.
  destruct (db !! f) as [row|]; simpl; [|done].
  by destruct (decide _); [rewrite bool_decide_eq_true_2|rewrite bool_decide_eq_false_2].
Qed.

Lemma cleanup_step_count (st : nat * Locks) (session : string) :
  ((cleanup_step tm st session).1 + size (cleanup_step tm st session).2)%nat
  = (st.1 + size st.2)%nat.
Proof.
  destruct st as [released db]. unfold cleanup_step. simpl.
  destruct (decide (session = "")); [done|].
  destruct (_tmux_session_exists tm session); [done|].
  pose proof (delete_where_session_count session db) as Hc. simpl in *. lia.
Qed.

Lemma cleanup_fold_lookup (sessions : list string) (st : nat * Locks) (f : string) :
  (foldl (cleanup_step tm) st sessions).2 !! f
  = row ← st.2 !! f;
    if existsb (λ s, deletes tm s && bool_decide (tmux_session row = Some s)) sessions
    then None else Some row.
Proof.
  revert st. induction sessions as [|s sessions IH]; intros st; simpl.
  { by destruct (st.2 !! f). }
  rewrite IH, cleanup_step_lookup.
  destruct (st.2 !! f) as [row|]; simpl; [|done].
  by destruct (deletes tm s && bool_decide (tmux_session row = Some s)).
Qed.

Lemma cleanup_fold_count (sessions : list string) (st : nat * Locks) :
  ((foldl (cleanup_step tm) st sessions).1
   + size (foldl (cleanup_step tm) st sessions).2)%nat
  = (st.1 + size st.2)%nat.
Proof.
  revert st. induction sessions as [|s sessions IH]; intros st; simpl; [done|].
  by rewrite IH, cleanup_step_count.
Qed.

Lemma elem_of_select_distinct_sessions (db : Locks) (s : string) :
  s ∈ select_distinct_sessions db ↔
  s ≠ "" ∧ ∃ f row, db !! f = Some row ∧ tmux_session row = Some s.
Proof.
  unfold select_distinct_sessions.
  rewrite elem_of_remove_dups, list_elem_of_omap. split.
  - intros ([f row] & Hin & Hsel). apply elem_of_map_to_list in Hin. simpl in Hsel.
    destruct (tmux_session row) as [s'|] eqn:Hs; [|done].
    destruct (decide (s' = "")); [done|]. injection Hsel as ->. eauto.
  - intros (Hne & f & row & Hf & Hs). exists (f, row).
    split; [by apply elem_of_map_to_list|]. simpl. rewrite Hs.
    by destruct (decide (s = "")).
Qed.

(** What garbage collection leaves of the table: the rows whose session is
    not confirmed dead. *)
Lemma cleanup_dead_locks_lookup (db : Locks) (f : string) :
  (_cleanup_dead_locks tm db).2 !! f
  = row ← db !! f; if confirmed_dead tm row then None else Some row.
Proof.
  unfold _cleanup_dead_locks, confirmed_dead.
  destruct (_tmux_available tm) eqn:Hav; simpl.
  2:{ by destruct (db !! f). }
  rewrite cleanup_fold_lookup. simpl.
  destruct (db !! f) as [row|] eqn:Hf; simpl; [|done].
  destruct (tmux_session row) as [s|] eqn:Hs.
  - destruct (existsb _ _) eqn:Hex.
    + apply existsb_exists in Hex as (s' & _ & Hs').
      apply andb_true_iff in Hs' as [Hdel Heq].
      apply bool_decide_eq_true in Heq. injection Heq as <-.
      unfold deletes, _tmux_session_exists in Hdel. rewrite Hav in Hdel. simpl in Hdel.
      by rewrite Hdel.
    + destruct (negb (String.eqb s "") && negb (has_session tm s)) eqn:Hdead; [|done].
      assert (existsb (λ s0, deletes tm s0 && bool_decide (Some s = Some s0))
                (select_distinct_sessions db) = true) as Hc; [|congruence].
      apply existsb_exists. exists s. split.
      * apply list_elem_of_In, elem_of_select_distinct_sessions.
        apply andb_true_iff in Hdead as [Hne _].
        apply negb_true_iff, String.eqb_neq in Hne. eauto.
      * unfold deletes, _tmux_session_exists. rewrite Hav. simpl.
        by rewrite Hdead, bool_decide_eq_true_2.
  - destruct (existsb _ _) eqn:Hex; [|done].
    apply existsb_exists in Hex as (s' & _ & Hs').
    apply andb_true_iff in Hs' as [_ Heq]. by apply bool_decide_eq_true in Heq.
Qed.

Lemma cleanup_dead_locks_count (db : Locks) :
  ((_cleanup_dead_locks tm db).1 + size (_cleanup_dead_locks tm db).2)%nat = size db.
Proof.
  unfold _cleanup_dead_locks. destruct (_tmux_available tm); simpl; [|done].
  by rewrite cleanup_fold_count.
Qed.

(** C3. Garbage collection keeps every row whose session the oracle
    reports as running, deletes every row whose non-empty session the
    oracle confirms is not running, and without tmux it deletes nothing
    and returns 0; the count it returns is the number of deleted rows. *)
Theorem cleanup_dead_locks_by_liveness (db : Locks) :
  (∀ f row s, db !! f = Some row → tmux_session row = Some s →
              _tmux_session_exists tm s = true →
              (_cleanup_dead_locks tm db).2 !! f = Some row)
  ∧ (∀ f row s, db !! f = Some row → tmux_session row = Some s → s ≠ "" →
                _tmux_available tm = true → has_session tm s = false →
                (_cleanup_dead_locks tm db).2 !! f = None)
  ∧ (_tmux_available tm = false → _cleanup_dead_locks tm db = (0%nat, db))
  ∧ ((_cleanup_dead_locks tm db).1 + size (_cleanup_dead_locks tm db).2)%nat = size db.
Proof.
  split; [|split; [|split]].
  - intros f row s Hf Hs Hlive. rewrite cleanup_dead_locks_lookup, Hf. simpl.
    unfold confirmed_dead. rewrite Hs.
    unfold _tmux_session_exists in Hlive.
    destruct (_tmux_available tm); simpl in *; [|done].
    by rewrite Hlive, andb_false_r.
  - intros f row s Hf Hs Hne Hav Hdead. rewrite cleanup_dead_locks_lookup, Hf. simpl.
    unfold confirmed_dead. rewrite Hs, Hav, Hdead. simpl.
    apply String.eqb_neq in Hne. by rewrite Hne.
  - intros Hav. unfold _cleanup_dead_locks. by rewrite Hav.
  - apply cleanup_dead_locks_count.
Qed.

End Cleanup.

Lemma cleanup_dead_locks_by_liveness_witness :
  (_cleanup_dead_locks SampleLocks.tmux SampleLocks.locks).2 !! "src/live.py"
    = Some (SampleLocks.row "alice" "t1" (Some "main"))
  ∧ (_cleanup_dead_locks SampleLocks.tmux SampleLocks.locks).2 !! "src/dead.py" = None
  ∧ _cleanup_dead_locks SampleLocks.no_tmux SampleLocks.locks = (0%nat, SampleLocks.locks).
Proof.
  destruct (cleanup_dead_locks_by_liveness SampleLocks.tmux SampleLocks.locks)
    as (Hlive & Hdead & _).
  destruct (cleanup_dead_locks_by_liveness SampleLocks.no_tmux SampleLocks.locks)
    as (_ & _ & Hnone & _).
  split; [|split].
  - apply (Hlive "src/live.py" _ "main"); vm_compute; reflexivity.
  - apply (Hdead "src/dead.py" (SampleLocks.row "bob" "t2" (Some "gone")) "gone");
      [vm_compute; reflexivity|vm_compute; reflexivity|discriminate|reflexivity|reflexivity].
  - apply Hnone. reflexivity.
Defined.

(** ** Lock store: acquisition *)

Lemma prefix_app_l (n s b : string) :
  String.prefix n s = true → String.prefix n (s ++ b) = true.
Proof.
  revert s. induction n as [|c n IH]; intros s; [by destruct s, b|].
  destruct s as [|c' s]; [done|]. rewrite app_cons. cbn.
  destruct (ascii_dec c c'); [apply IH|done].
Qed.

Lemma contains_app_l (n s b : string) :
  Py.contains n s = true → Py.contains n (s ++ b) = true.
Proof.
  induction s as [|c s IH].
  - cbn. rewrite orb_false_r. intros H. destruct n; [|done].
    rewrite app_empty. by destruct b.
  - cbn [Py.contains]. intros [H|H]%orb_true_iff.
    + apply contains_prefix, prefix_app_l, H.
    + rewrite app_cons. by apply contains_cons, IH.
Qed.

Lemma prefix_refl (s : string) : String.prefix s s = true.
Proof. induction s as [|c s IH]; [done|]. cbn. by destruct (ascii_dec c c). Qed.

Lemma contains_join (sep x : string) (l : list string) :
  x ∈ l → Py.contains x (Py.join sep l) = true.
Proof.
  induction l as [|y l IH]; [by intros ?%elem_of_nil|].
  intros [->|Hin]%elem_of_cons.
  - destruct l as [|z l]; [apply contains_prefix, prefix_refl|].
    change (Py.join sep (y :: z :: l)) with (y ++ sep ++ Py.join sep (z :: l)).
    apply contains_prefix, prefix_app.
  - destruct l as [|z l]; [by apply elem_of_nil in Hin|].
    change (Py.join sep (y :: z :: l)) with (y ++ sep ++ Py.join sep (z :: l)).
    by apply contains_app, contains_app, IH.
Qed.

(** Every conflict that the report shows is named in it. *)
Lemma conflict_report_reports (shown : nat) (conflicts : list Conflict) (c : Conflict) :
  c ∈ take shown conflicts →
  reports (conflict_report acquire_conflict_line shown conflicts) c.
Proof.
  intros Hin. unfold reports, conflict_report.
  apply contains_app_l, contains_join.
  by apply list_elem_of_fmap_2.
Qed.

Lemma insert_or_update_insert (f : string) (row : Lock) (db : Locks) :
  insert_or_update f row db = <[f := row]> db.
Proof.
  unfold insert_or_update. destruct (db !! f) as [old|] eqn:Hf; [|done].
  apply map_eq. intros f'. destruct (decide (f = f')) as [<-|Hne].
  - by rewrite lookup_alter_eq, lookup_insert_eq, Hf.
  - by rewrite lookup_alter_ne, lookup_insert_ne.
Qed.

Lemma insert_all_lookup (row : Lock) (files : list string) (db : Locks) (f : string) :
  foldl (λ db' f', insert_or_update f' row db') db files !! f
  = if decide (f ∈ files) then Some row else db !! f.
Proof.
  revert db. induction files as [|f' files IH]; intros db; simpl; [done|].
  rewrite IH, insert_or_update_insert.
  destruct (decide (f ∈ files)) as [Hin|Hnin].
  - rewrite decide_True; [done|]. apply elem_of_cons; by right.
  - destruct (decide (f' = f)) as [->|Hne].
    + rewrite lookup_insert_eq, decide_True; [done|]. apply elem_of_cons; by left.
    + rewrite lookup_insert_ne by done. rewrite decide_False; [done|].
      intros [->|?]%elem_of_cons; done.
Qed.

Lemma elem_of_select_in (files : list string) (db : Locks) (c : Conflict) :
  c ∈ select_in files db ↔
  c.1.1 ∈ files ∧ ∃ row, db !! c.1.1 = Some row ∧ c.1.2 = agent row ∧ c.2 = task row.
Proof.
  unfold select_in. rewrite list_elem_of_omap. split.
  - intros (f & Hf & Hsel). destruct (db !! f) as [row|] eqn:Hrow; [|done].
    simpl in Hsel. injection Hsel as <-. simpl. eauto.
  - intros (Hf & row & Hrow & Ha & Ht). exists c.1.1. split; [done|].
    rewrite Hrow. simpl. destruct c as [[f a'] t']. simpl in *. by subst.
Qed.

Lemma owned_by_false (a t : string) (c : Conflict) :
  negb (owned_by a t c) = true ↔ c.1.2 ≠ a ∨ c.2 ≠ t.
Proof.
  unfold owned_by. rewrite negb_true_iff, andb_false_iff, !String.eqb_neq. tauto.
Qed.

Lemma elem_of_conflicts_with (files : list string) (a t : string) (db : Locks)
    (c : Conflict) :
  c ∈ conflicts_with files a t db ↔
  c.1.1 ∈ files
  ∧ ∃ row, db !! c.1.1 = Some row ∧ c.1.2 = agent row ∧ c.2 = task row
           ∧ (agent row ≠ a ∨ task row ≠ t).
Proof.
  unfold conflicts_with.
  rewrite list_elem_of_In, filter_In, <- list_elem_of_In, elem_of_select_in,
    owned_by_false.
  split.
  - intros [(Hf & row & Hrow & Ha & Ht) Hown]. split; [done|]. exists row.
    rewrite <- Ha, <- Ht. eauto.
  - intros (Hf & row & Hrow & Ha & Ht & Hown). rewrite Ha, Ht. eauto 10.
Qed.

Lemma elem_of_unique (files : list string) (f : string) :
  f ∈ Py.sorted (remove_dups files) ↔ f ∈ files.
Proof. by rewrite elem_of_sorted, elem_of_remove_dups. Qed.

(** The table after a granted request. *)
Lemma acquire_locks_granted_table (tm : Tmux) (now_ : Z) (files : list string)
    (a t : string) (session : option string) (db : Locks) :
  conflicts_with (Py.sorted (remove_dups files)) a t (_cleanup_dead_locks tm db).2 = [] →
  (_acquire_locks tm now_ files a t session db).1 = Ok ()
  ∧ ∀ f, (_acquire_locks tm now_ files a t session db).2 !! f
         = if decide (f ∈ files)
           then Some {| agent := a; task := t; locked_at := now_;
                        tmux_session := session |}
           else (_cleanup_dead_locks tm db).2 !! f.
Proof.
  intros Hnil. unfold _acquire_locks.
  destruct (Py.sorted (remove_dups files)) as [|f0 unique] eqn:Hunique.
  - simpl. split; [done|]. intros f. rewrite decide_False; [done|].
    intros Hf. apply elem_of_unique in Hf. rewrite Hunique in Hf.
    by apply elem_of_nil in Hf.
  - fold (conflicts_with (f0 :: unique) a t (_cleanup_dead_locks tm db).2).
    rewrite Hnil. simpl. split; [done|]. intros f.
    pose proof (insert_all_lookup {| agent := a; task := t; locked_at := now_;
                  tmux_session := session |} (f0 :: unique)
                  (_cleanup_dead_locks tm db).2 f) as Hl.
    simpl in Hl. rewrite Hl.
    destruct (decide (f ∈ files)) as [Hf|Hf].
    + rewrite decide_True; [done|]. rewrite <- Hunique. by apply elem_of_unique.
    + rewrite decide_False; [done|]. rewrite <- Hunique. by rewrite elem_of_unique.
Qed.

(** A request that is not granted raises. *)
Lemma acquire_locks_conflict_raises (tm : Tmux) (now_ : Z) (files : list string)
    (a t : string) (session : option string) (db : Locks) :
  conflicts_with (Py.sorted (remove_dups files)) a t (_cleanup_dead_locks tm db).2 ≠ [] →
  is_ok (_acquire_locks tm now_ files a t session db).1 = false.
Proof.
  intros Hne. unfold _acquire_locks.
  destruct (Py.sorted (remove_dups files)) as [|f0 unique] eqn:Hunique; [done|].
  fold (conflicts_with (f0 :: unique) a t (_cleanup_dead_locks tm db).2).
  by destruct (conflicts_with _ _ _ _).
Qed.

(** C1, amended. Lock acquisition judges conflicts on the table that
    garbage collection leaves. If a requested file is held there by another
    owner, the call raises the conflict error and the table is as before
    the call (garbage collection undone); the message lists the first 20
    conflicts and counts the others. Otherwise every requested file gets a
    row of the requester with the given time and session, and the other
    rows are those that garbage collection leaves. *)
Theorem acquire_locks_all_or_nothing (tm : Tmux) (now_ : Z) (files : list string)
    (a t : string) (session : option string) (db : Locks) :
  let db1 := (_cleanup_dead_locks tm db).2 in
  let conflicts := conflicts_with (Py.sorted (remove_dups files)) a t db1 in
  let res := _acquire_locks tm now_ files a t session db in
  (∀ c, c ∈ conflicts ↔
        c.1.1 ∈ files
        ∧ ∃ row, db1 !! c.1.1 = Some row ∧ c.1.2 = agent row ∧ c.2 = task row
                 ∧ (agent row ≠ a ∨ task row ≠ t))
  ∧ (conflicts ≠ [] →
       res.2 = db
       ∧ ∃ msg, res.1 = HydraError msg
                ∧ msg = "Lock conflict for agent=" ++ a ++ " task=" ++ t ++ ":"
                        ++ newline ++ conflict_report acquire_conflict_line 20 conflicts
                ∧ Forall (reports msg) (take 20 conflicts))
  ∧ (conflicts = [] →
       res.1 = Ok ()
       ∧ (∀ f, f ∈ files →
               res.2 !! f = Some {| agent := a; task := t; locked_at := now_;
                                    tmux_session := session |})
       ∧ (∀ f, f ∉ files → res.2 !! f = db1 !! f)).
Proof.
  intros db1 conflicts res. split; [|split].
  - intros c. unfold conflicts. rewrite elem_of_conflicts_with.
    by rewrite elem_of_unique.
  - intros Hne. subst res. unfold _acquire_locks. fold db1.
    destruct (Py.sorted (remove_dups files)) as [|f0 unique] eqn:Hunique.
    { by exfalso. }
    fold (conflicts_with (f0 :: unique) a t db1). fold conflicts.
    destruct conflicts as [|c0 cs] eqn:Hc; [done|]. simpl.
    split; [done|]. eexists. split; [reflexivity|]. split.
    + done.
    + apply Forall_forall. intros c Hin. unfold reports.
      do 6 apply contains_app. by apply conflict_report_reports.
  - intros Hnil. subst res.
    destruct (acquire_locks_granted_table tm now_ files a t session db Hnil)
      as [Hok Htable].
    split; [done|]. split; intros f Hf; rewrite Htable.
    + by rewrite decide_True.
    + by rewrite decide_False.
Qed.

Lemma acquire_locks_all_or_nothing_witness :
  (_acquire_locks SampleLocks.no_tmux 200 SampleConflicts.files "alice" "t1" None
     SampleConflicts.locks).2 = SampleConflicts.locks
  ∧ (_acquire_locks SampleLocks.tmux 200 ["a.py"] "alice" "t1" None
       SampleConflicts.stale).2 !! "a.py"
    = Some {| agent := "alice"; task := "t1"; locked_at := 200; tmux_session := None |}.
Proof.
  split.
  - pose proof (acquire_locks_all_or_nothing SampleLocks.no_tmux 200
                  SampleConflicts.files "alice" "t1" None SampleConflicts.locks) as H.
    cbv zeta in H. destruct H as (_ & Hconflict & _).
    apply Hconflict. vm_compute. discriminate.
  - pose proof (acquire_locks_all_or_nothing SampleLocks.tmux 200
                  ["a.py"] "alice" "t1" None SampleConflicts.stale) as H.
    cbv zeta in H. destruct H as (_ & _ & Hgranted).
    apply Hgranted; [vm_compute; reflexivity|].
    apply elem_of_cons; by left.
Defined.

(** C1, as stated, fails twice. A file held by another owner whose session
    is dead is no conflict: garbage collection deletes the row first and
    the request is granted. And with 21 conflicts the error names 20 of
    them: the line of [f30] is not in the message. *)
Lemma acquire_not_as_claimed :
  ¬ acquire_as_claimed SampleLocks.tmux 200 ["a.py"] "alice" "t1" None
      SampleConflicts.stale
  ∧ ¬ acquire_as_claimed SampleLocks.no_tmux 200 SampleConflicts.files "alice" "t1" None
        SampleConflicts.locks.
Proof.
  split.
  - unfold acquire_as_claimed.
    replace (conflicts_with ["a.py"] "alice" "t1" SampleConflicts.stale)
      with [("a.py", "bob", "t2")] by (vm_compute; reflexivity).
    intros [(msg & Hres & _) _]. vm_compute in Hres. discriminate.
  - unfold acquire_as_claimed.
    destruct (conflicts_with SampleConflicts.files "alice" "t1" SampleConflicts.locks)
      as [|c0 cs] eqn:Hconf; [vm_compute in Hconf; discriminate|].
    intros [(msg & Hres & Hall) _]. rewrite <- Hconf in Hall.
    assert (("f30", "bob", "t2") ∈
            conflicts_with SampleConflicts.files "alice" "t1" SampleConflicts.locks)
      as Hin.
    { apply elem_of_conflicts_with. cbn [fst snd]. split.
      - apply (list_elem_of_lookup_2 _ 20). vm_compute. reflexivity.
      - exists (SampleLocks.row "bob" "t2" None).
        split; [vm_compute; reflexivity|]. split; [reflexivity|].
        split; [reflexivity|]. left. discriminate. }
    rewrite Forall_forall in Hall. specialize (Hall _ Hin).
    vm_compute in Hres. injection Hres as <-.
    vm_compute in Hall. discriminate.
Qed.

(** ** Lock store: commit-time enforcement *)

Section PreCommitFacts.

Variables (a task_id : string) (now_ : Z).

#[local] Abbreviation fresh := (hook_row a task_id now_).

Lemma conflicts_with_insert_own (files : list string) (rel : string) (db : Locks) :
  db !! rel = None →
  conflicts_with files a task_id (<[rel := fresh]> db) = conflicts_with files a task_id db.
Proof.
  intros Hrel. induction files as [|f files IH]; [done|].
  unfold conflicts_with, select_in in *. cbn [omap list_omap].
  destruct (decide (rel = f)) as [<-|Hne].
  - rewrite lookup_insert_eq, Hrel. cbn [fmap option_fmap option_map List.filter].
    unfold owned_by at 1. cbn [fst snd agent task hook_row].
    rewrite !String.eqb_refl. cbn [andb negb]. exact IH.
  - rewrite lookup_insert_ne by done.
    destruct (db !! f) as [row|]; cbn [fmap option_fmap option_map List.filter];
      [|exact IH].
    destruct (negb (owned_by a task_id (f, agent row, task row))); by rewrite IH.
Qed.

Lemma conflicts_with_cons (rel : string) (rest : list string) (db : Locks) :
  conflicts_with (rel :: rest) a task_id db
  = match db !! rel with
    | Some row =>
        if negb (String.eqb (agent row) a) || negb (String.eqb (task row) task_id)
        then (rel, agent row, task row) :: conflicts_with rest a task_id db
        else conflicts_with rest a task_id db
    | None => conflicts_with rest a task_id db
    end.
Proof.
  unfold conflicts_with, select_in. cbn [omap list_omap].
  destruct (db !! rel) as [row|]; cbn [fmap option_fmap option_map List.filter];
    [|done].
  unfold owned_by at 1. cbn [fst snd]. by rewrite negb_andb.
Qed.

Lemma elem_of_cons_decide (f rel : string) (rest : list string) :
  bool_decide (f ∈ rel :: rest) = bool_decide (f = rel) || bool_decide (f ∈ rest).
Proof.
  destruct (decide (f = rel)) as [Heq|Hne], (decide (f ∈ rest)) as [Hin|Hnin].
  - rewrite !bool_decide_eq_true_2; [done..|]. apply elem_of_cons; by left.
  - rewrite (bool_decide_eq_true_2 (f = rel)) by done.
    rewrite bool_decide_eq_true_2; [done|]. apply elem_of_cons; by left.
  - rewrite (bool_decide_eq_true_2 (f ∈ rest)) by done.
    rewrite bool_decide_eq_true_2; [by rewrite orb_true_r|]. apply elem_of_cons; by right.
  - rewrite !bool_decide_eq_false_2; [done..|]. by intros [?|?]%elem_of_cons.
Qed.

Lemma pre_commit_loop_spec (staged_ : list string) (db : Locks) (cs : list Conflict) :
  (pre_commit_loop a task_id now_ staged_ db cs).2
    = (cs ++ conflicts_with staged_ a task_id db)%list
  ∧ ∀ f, (pre_commit_loop a task_id now_ staged_ db cs).1 !! f
         = if bool_decide (f ∈ staged_)
           then Some (default fresh (db !! f))
           else db !! f.
Proof.
  revert db cs. induction staged_ as [|rel rest IH]; intros db cs.
  { cbn [pre_commit_loop fst snd]. split; [by rewrite app_nil_r|]. intros f.
    rewrite bool_decide_eq_false_2; [done|]. by intros ?%elem_of_nil. }
  cbn [pre_commit_loop]. rewrite conflicts_with_cons.
  destruct (db !! rel) as [row|] eqn:Hrel.
  - assert (∀ cs' f, (pre_commit_loop a task_id now_ rest db cs').1 !! f
                     = if bool_decide (f ∈ rel :: rest)
                       then Some (default fresh (db !! f)) else db !! f) as Hdb.
    { intros cs' f. destruct (IH db cs') as [_ ->].
      rewrite elem_of_cons_decide.
      destruct (decide (f = rel)) as [->|Hne].
      - rewrite (bool_decide_eq_true_2 (rel = rel)) by done. cbn [orb].
        rewrite Hrel. by destruct (bool_decide (rel ∈ rest)).
      - by rewrite (bool_decide_eq_false_2 (f = rel)) by done. }
    destruct (negb (String.eqb (agent row) a) || negb (String.eqb (task row) task_id)).
    + split; [|apply Hdb]. destruct (IH db (cs ++ [(rel, agent row, task row)])%list)
        as [-> _]. by rewrite <- app_assoc.
    + split; [|apply Hdb]. by destruct (IH db cs) as [-> _].
  - destruct (IH (<[rel := fresh]> db) cs) as [Hcs Hdb].
    unfold hook_row in Hcs, Hdb. split.
    + rewrite Hcs. f_equal. by apply conflicts_with_insert_own.
    + intros f. rewrite Hdb, elem_of_cons_decide.
      destruct (decide (f = rel)) as [->|Hne].
      * rewrite (bool_decide_eq_true_2 (rel = rel)) by done. cbn [orb].
        rewrite lookup_insert_eq, Hrel. by destruct (bool_decide (rel ∈ rest)).
      * rewrite (bool_decide_eq_false_2 (f = rel)) by done. cbn [orb].
        by rewrite lookup_insert_ne.
Qed.

End PreCommitFacts.

(** The table that a successful, enforcing run of the hook leaves. *)
Lemma hook_success_table (fnmatch : string → string → bool)
    (inp : HookInput) (db db' : option Locks) (code : Z) :
  Py.strip (environ_HYDRA_SKIP_HOOKS inp) = "" →
  Py.strip (environ_AGENT_ID inp) ≠ "" →
  Py.strip (environ_TASK_ID inp) ≠ "" →
  staged inp ≠ [] →
  _hook_pre_commit fnmatch inp db = (Ok code, db') →
  code = 0
  ∧ ∃ locks locks',
      db = Some locks ∧ db' = Some locks'
      ∧ conflicts_with (staged inp) (Py.strip (environ_AGENT_ID inp))
          (Py.strip (environ_TASK_ID inp)) locks = []
      ∧ ∀ f, locks' !! f
             = if bool_decide (f ∈ staged inp)
               then Some (default (hook_row (Py.strip (environ_AGENT_ID inp))
                                     (Py.strip (environ_TASK_ID inp)) (now inp))
                            (locks !! f))
               else locks !! f.
Proof.
  intros Hskip Hagent Htask Hstaged. unfold _hook_pre_commit.
  rewrite Hskip. simpl.
  apply String.eqb_neq in Hagent, Htask. rewrite Hagent, Htask. simpl.
  destruct (task_allow inp ≫= _) as [allow_patterns|]; [|done].
  destruct (staged inp) as [|rel0 rest] eqn:Hst; [done|]. rewrite <- Hst in *.
  destruct (not_allowed_paths fnmatch (staged inp) allow_patterns) as [[|p ps]|];
    [|done..].
  destruct db as [locks|]; [|done].
  pose proof (pre_commit_loop_spec (Py.strip (environ_AGENT_ID inp))
                (Py.strip (environ_TASK_ID inp)) (now inp) (staged inp) locks [])
    as [Hcs Hdb].
  destruct (pre_commit_loop _ _ _ (staged inp) locks []) as [locks' cs] eqn:Hloop.
  simpl in Hcs, Hdb. destruct cs as [|c cs]; [|done].
  intros [= <- <-]. split; [done|]. by exists locks, locks'.
Qed.

(** C10. When the hook enforces (no skip flag, an agent and a task in the
    environment) and succeeds, the lock table is written: every staged
    path is locked by the committing (agent, task) afterwards; a staged
    path without a row before has a new row of the committer with the
    current time and an empty session tag; the rows that existed are as
    they were, and so are the rows of all other paths. *)
Theorem pre_commit_locks_staged_paths (fnmatch : string → string → bool)
    (inp : HookInput) (db db' : option Locks) (code : Z) :
  Py.strip (environ_HYDRA_SKIP_HOOKS inp) = "" →
  Py.strip (environ_AGENT_ID inp) ≠ "" →
  Py.strip (environ_TASK_ID inp) ≠ "" →
  staged inp ≠ [] →
  _hook_pre_commit fnmatch inp db = (Ok code, db') →
  code = 0
  ∧ ∃ locks locks',
      db = Some locks ∧ db' = Some locks'
      ∧ (∀ f, f ∈ staged inp →
              locked_by locks' (Py.strip (environ_AGENT_ID inp))
                (Py.strip (environ_TASK_ID inp)) f
              ∧ (locks !! f = None →
                 locks' !! f = Some (hook_row (Py.strip (environ_AGENT_ID inp))
                                       (Py.strip (environ_TASK_ID inp)) (now inp)))
              ∧ (is_Some (locks !! f) → locks' !! f = locks !! f))
      ∧ (∀ f, f ∉ staged inp → locks' !! f = locks !! f).
Proof.
  intros Hskip Hagent Htask Hstaged Hrun.
  destruct (hook_success_table _ _ _ _ _ Hskip Hagent Htask Hstaged Hrun)
    as (-> & locks & locks' & -> & -> & Hcs & Hdb).
  split; [done|]. exists locks, locks'. split; [done|]. split; [done|]. split.
  - intros f Hf. specialize (Hdb f). rewrite bool_decide_eq_true_2 in Hdb by done.
    split; [|split].
    + destruct (locks !! f) as [row|] eqn:Hrow; simpl in Hdb.
      * exists row. split; [done|].
        assert ((f, agent row, task row) ∉
                conflicts_with (staged inp) (Py.strip (environ_AGENT_ID inp))
                  (Py.strip (environ_TASK_ID inp)) locks) as Hnc.
        { rewrite Hcs. by intros ?%elem_of_nil. }
        rewrite elem_of_conflicts_with in Hnc. simpl in Hnc.
        destruct (decide (agent row = Py.strip (environ_AGENT_ID inp))) as [Ha|Ha];
          destruct (decide (task row = Py.strip (environ_TASK_ID inp))) as [Ht|Ht];
          try done; exfalso; apply Hnc; eauto 10.
      * eexists. split; [done|]. done.
    + intros Hnone. by rewrite Hdb, Hnone.
    + intros [row Hrow]. by rewrite Hdb, Hrow.
  - intros f Hf. specialize (Hdb f). by rewrite bool_decide_eq_false_2 in Hdb.
Qed.

Lemma pre_commit_locks_staged_paths_witness :
  _hook_pre_commit SampleHook.fnmatch SampleHook.input (Some SampleHook.locks)
  = (Ok 0, Some (<["src/b.py" := hook_row "alice" "t1" 300]> SampleHook.locks))
  ∧ ∃ locks locks',
      Some SampleHook.locks = Some locks
      ∧ Some (<["src/b.py" := hook_row "alice" "t1" 300]> SampleHook.locks) = Some locks'
      ∧ locked_by locks' "alice" "t1" "src/b.py".
Proof.
  assert (_hook_pre_commit SampleHook.fnmatch SampleHook.input (Some SampleHook.locks)
          = (Ok 0, Some (<["src/b.py" := hook_row "alice" "t1" 300]> SampleHook.locks)))
    as Hrun by (vm_compute; reflexivity).
  split; [exact Hrun|].
  destruct (pre_commit_locks_staged_paths SampleHook.fnmatch SampleHook.input _ _ _
              eq_refl ltac:(discriminate) ltac:(discriminate) ltac:(discriminate) Hrun)
    as (_ & locks & locks' & Hdb & Hdb' & Hstaged & _).
  exists locks, locks'. split; [done|]. split; [done|].
  apply (Hstaged "src/b.py"). apply elem_of_cons; right. apply elem_of_cons; by left.
Defined.
(** ** Lock store: rows without a session *)

Lemma release_locks_lookup (a t : string) (db : Locks) (f : string) :
  (_release_locks a t db).2 !! f
  = row ← db !! f; if decide (agent row = a ∧ task row = t) then None else Some row.
Proof.
  unfold _release_locks. cbn [snd]. rewrite map_lookup_filter.
  destruct (db !! f) as [row|]; [|done]. cbn.
  destruct (decide (agent row = a ∧ task row = t)).
  - by rewrite option_guard_False by tauto.
  - by rewrite option_guard_True.
Qed.

Lemma set_session_lookup (a t session : string) (db : Locks) (f : string) :
  (_set_locks_tmux_session a t session db).2 !! f
  = (λ row, if decide (agent row = a ∧ task row = t)
            then {| agent := agent row; task := task row; locked_at := locked_at row;
                    tmux_session := Some session |}
            else row) <$> db !! f.
Proof. unfold _set_locks_tmux_session. cbn [snd]. by rewrite lookup_fmap. Qed.

Lemma cleanup_keeps_untagged (tm : Tmux) (db : Locks) (f : string) (row : Lock) :
  db !! f = Some row →
  tmux_session row = None ∨ tmux_session row = Some "" →
  (_cleanup_dead_locks tm db).2 !! f = Some row.
Proof.
  intros Hf Htag. rewrite cleanup_dead_locks_lookup, Hf. simpl.
  unfold confirmed_dead. destruct Htag as [-> | ->]; simpl; by rewrite andb_false_r.
Qed.

Lemma acquire_conflict_table (tm : Tmux) (now_ : Z) (files : list string)
    (a t : string) (session : option string) (db : Locks) :
  conflicts_with (Py.sorted (remove_dups files)) a t (_cleanup_dead_locks tm db).2 ≠ [] →
  (_acquire_locks tm now_ files a t session db).2 = db.
Proof.
  intros Hne. unfold _acquire_locks.
  destruct (Py.sorted (remove_dups files)) as [|f0 unique] eqn:Hunique; [done|].
  fold (conflicts_with (f0 :: unique) a t (_cleanup_dead_locks tm db).2).
  by destruct (conflicts_with _ _ _ _).
Qed.

(** A step that spares the owner's lock leaves an untagged row as it is. *)
Lemma run_step_spares (st : LockStep) (db : Locks) (f : string) (row : Lock) :
  db !! f = Some row →
  tmux_session row = None ∨ tmux_session row = Some "" →
  spares (agent row) (task row) f st →
  run_step db st !! f = Some row.
Proof.
  intros Hf Htag Hspares. destruct st as [tm|tm now_ files b u session|b u s|b u];
    cbn [run_step spares] in *.
  - by apply cleanup_keeps_untagged.
  - pose proof (cleanup_keeps_untagged tm db f row Hf Htag) as Hgc.
    destruct (decide (conflicts_with (Py.sorted (remove_dups files)) b u
                        (_cleanup_dead_locks tm db).2 = [])) as [Hnil|Hne].
    + destruct (acquire_locks_granted_table tm now_ files b u session db Hnil)
        as [_ Htable].
      rewrite Htable. destruct (decide (f ∈ files)) as [Hin|Hnin]; [|done].
      destruct (decide (b = agent row ∧ u = task row)) as [Hown|Hother].
      { by destruct (Hspares Hown). }
      assert ((f, agent row, task row)
              ∈ conflicts_with (Py.sorted (remove_dups files)) b u
                  (_cleanup_dead_locks tm db).2) as Hconflict.
      { apply elem_of_conflicts_with. cbn. split; [by apply elem_of_unique|].
        exists row. repeat split; try done.
        destruct (decide (agent row = b)) as [<-|]; [|by left].
        destruct (decide (task row = u)) as [<-|]; [|by right].
        by destruct Hother. }
      rewrite Hnil in Hconflict. by apply elem_of_nil in Hconflict.
    + by rewrite (acquire_conflict_table tm now_ files b u session db Hne).
  - rewrite set_session_lookup, Hf. cbn.
    destruct (decide (agent row = b ∧ task row = u)) as [[<- <-]|]; [|done].
    by destruct Hspares.
  - rewrite release_locks_lookup, Hf. cbn.
    destruct (decide (agent row = b ∧ task row = u)) as [[<- <-]|]; [|done].
    by destruct Hspares.
Qed.

Lemma run_steps_spare (steps : list LockStep) (db : Locks) (f : string) (row : Lock) :
  db !! f = Some row →
  tmux_session row = None ∨ tmux_session row = Some "" →
  Forall (spares (agent row) (task row) f) steps →
  run_steps steps db !! f = Some row.
Proof.
  intros Hf Htag Hsteps. revert db Hf. unfold run_steps.
  induction Hsteps as [|st steps Hst _ IH]; intros db Hf; cbn [foldl]; [done|].
  by apply IH, run_step_spares.
Qed.

(** C9, amended. A row whose session tag is NULL or empty is never
    deleted by garbage collection, whatever the liveness oracle answers.
    It stays as it is through every sequence of operations of the lock
    store that spare it: garbage collections, and acquisitions, recorded
    sessions and releases of other owners. It goes only through its owner:
    a release, a session recorded on the owner's locks (after which
    garbage collection may delete it) or a new acquisition of the file.
    Such rows are those of an acquisition without a session, as workspace
    open makes it, and those that the pre-commit hook inserts. *)
Theorem untagged_locks_survive_gc (steps : list LockStep) :
  (∀ (db : Locks) (f : string) (row : Lock),
     db !! f = Some row →
     tmux_session row = None ∨ tmux_session row = Some "" →
     Forall (spares (agent row) (task row) f) steps →
     run_steps steps db !! f = Some row)
  ∧ (∀ (tm : Tmux) (now_ : Z) (files : list string) (a t : string) (db : Locks)
       (f : string),
       (_acquire_locks tm now_ files a t None db).1 = Ok () →
       f ∈ files →
       Forall (spares a t f) steps →
       run_steps steps (_acquire_locks tm now_ files a t None db).2 !! f
       = Some {| agent := a; task := t; locked_at := now_; tmux_session := None |})
  ∧ (∀ (fnmatch : string → string → bool) (inp : HookInput) (locks locks' : Locks)
       (f : string),
       Py.strip (environ_HYDRA_SKIP_HOOKS inp) = "" →
       Py.strip (environ_AGENT_ID inp) ≠ "" →
       Py.strip (environ_TASK_ID inp) ≠ "" →
       _hook_pre_commit fnmatch inp (Some locks) = (Ok 0, Some locks') →
       f ∈ staged inp →
       locks !! f = None →
       Forall (spares (Py.strip (environ_AGENT_ID inp))
                 (Py.strip (environ_TASK_ID inp)) f) steps →
       run_steps steps locks' !! f
       = Some (hook_row (Py.strip (environ_AGENT_ID inp))
                 (Py.strip (environ_TASK_ID inp)) (now inp))).
Proof.
  split; [by apply run_steps_spare|]. split.
  - intros tm now_ files a t db f Hok Hf Hsteps.
    apply run_steps_spare; [|by left|done].
    destruct (decide (conflicts_with (Py.sorted (remove_dups files)) a t
                        (_cleanup_dead_locks tm db).2 = [])) as [Hnil|Hne].
    + destruct (acquire_locks_granted_table tm now_ files a t None db Hnil)
        as [_ Htable].
      by rewrite Htable, decide_True.
    + pose proof (acquire_locks_conflict_raises tm now_ files a t None db Hne) as Herr.
      by rewrite Hok in Herr.
  - intros fnmatch inp locks locks' f Hskip Hagent Htask Hrun Hf Hnone Hsteps.
    apply run_steps_spare; [|by right|done].
    assert (staged inp ≠ []) as Hstaged.
    { intros Hnil. rewrite Hnil in Hf. by apply elem_of_nil in Hf. }
    destruct (hook_success_table _ _ _ _ _ Hskip Hagent Htask Hstaged Hrun)
      as (_ & locks0 & locks0' & [= <-] & [= <-] & _ & Hdb).
    by rewrite Hdb, bool_decide_eq_true_2, Hnone.
Qed.

Lemma untagged_locks_survive_gc_witness :
  run_steps [Collect SampleLocks.tmux; Release "bob" "t2"; Collect SampleLocks.no_tmux;
             RecordSession "alice" "t1" "gone"; Collect SampleLocks.tmux]
    SampleLocks.locks !! "src/new.py" = Some (SampleLocks.row "carol" "t3" None)
  ∧ run_steps [Collect SampleLocks.tmux;
               Acquire SampleLocks.tmux 150 ["src/other.py"] "dave" "t4" (Some "gone");
               Collect SampleLocks.tmux]
      SampleLocks.locks !! "src/hook.py" = Some (SampleLocks.row "dave" "t4" (Some ""))
  ∧ run_steps [Collect SampleLocks.tmux]
      (_acquire_locks SampleLocks.tmux 200 ["a.py"] "alice" "t1" None
         SampleConflicts.stale).2 !! "a.py"
    = Some {| agent := "alice"; task := "t1"; locked_at := 200; tmux_session := None |}
  ∧ run_steps [Collect SampleLocks.tmux]
      (<["src/b.py" := hook_row "alice" "t1" 300]> SampleHook.locks) !! "src/b.py"
    = Some (hook_row (Py.strip (environ_AGENT_ID SampleHook.input))
              (Py.strip (environ_TASK_ID SampleHook.input)) (now SampleHook.input)).
Proof.
  split; [|split; [|split]].
  - refine (proj1 (untagged_locks_survive_gc _)
              SampleLocks.locks "src/new.py" (SampleLocks.row "carol" "t3" None) _ _ _).
    + vm_compute. reflexivity.
    + left. reflexivity.
    + repeat constructor; simpl; intros [? ?]; discriminate.
  - refine (proj1 (untagged_locks_survive_gc _)
              SampleLocks.locks "src/hook.py" (SampleLocks.row "dave" "t4" (Some "")) _ _ _).
    + vm_compute. reflexivity.
    + right. reflexivity.
    + repeat constructor. simpl. intros _ Hin.
      apply list_elem_of_singleton in Hin. discriminate.
  - refine (proj1 (proj2 (untagged_locks_survive_gc [Collect SampleLocks.tmux]))
              SampleLocks.tmux 200 ["a.py"] "alice" "t1" SampleConflicts.stale "a.py" _ _ _).
    + vm_compute. reflexivity.
    + apply elem_of_cons. by left.
    + repeat constructor.
  - refine (proj2 (proj2 (untagged_locks_survive_gc [Collect SampleLocks.tmux]))
              SampleHook.fnmatch SampleHook.input SampleHook.locks
              (<["src/b.py" := hook_row "alice" "t1" 300]> SampleHook.locks)
              "src/b.py" _ _ _ _ _ _ _).
    + reflexivity.
    + discriminate.
    + discriminate.
    + vm_compute. reflexivity.
    + apply elem_of_cons. right. apply elem_of_cons. by left.
    + vm_compute. reflexivity.
    + repeat constructor.
Defined.

(** C9 as worded does not hold: [agent open --lock] acquires its locks
    without a session and, once the tmux window is started, records the
    project session on them. When that session has ended, the next garbage
    collection deletes them, and nothing has released them. *)
Lemma untagged_lock_collected_after_open :
  Scripted.locks
    (Scripted.run (cmd_agent_open SampleMerge.ps (SampleOpen.args false true))
       (SampleOpen.world false)).1.2
  = run_steps
      [Acquire (Scripted.tmux (SampleOpen.world false)) 1700000000 ["src/a.py"]
         "alice" "t1" None;
       RecordSession "alice" "t1" "hydra"]
      (Scripted.locks (SampleOpen.world false))
  ∧ (_acquire_locks (Scripted.tmux (SampleOpen.world false)) 1700000000 ["src/a.py"]
       "alice" "t1" None (Scripted.locks (SampleOpen.world false))).2 !! "src/a.py"
    = Some {| agent := "alice"; task := "t1"; locked_at := 1700000000;
              tmux_session := None |}
  ∧ run_steps [RecordSession "alice" "t1" "hydra"; Collect SampleLocks.tmux]
      (_acquire_locks (Scripted.tmux (SampleOpen.world false)) 1700000000 ["src/a.py"]
         "alice" "t1" None (Scripted.locks (SampleOpen.world false))).2 !! "src/a.py"
    = None
  ∧ ¬ stays_until_released "alice" "t1" "src/a.py"
        (_acquire_locks (Scripted.tmux (SampleOpen.world false)) 1700000000 ["src/a.py"]
           "alice" "t1" None (Scripted.locks (SampleOpen.world false))).2.
Proof.
  split; [by vm_compute|]. split; [by vm_compute|]. split; [by vm_compute|].
  intros Hstays.
  destruct (Hstays [RecordSession "alice" "t1" "hydra"; Collect SampleLocks.tmux])
    as [row Hrow].
  - repeat constructor; intros ? ? [=].
  - vm_compute in Hrow. discriminate.
Qed.

(** ** More on the permission resolver *)

Lemma prefix_inv (p s : string) :
  String.prefix p s = true → ∃ b, s = p ++ b.
Proof.
  revert s. induction p as [|c p IH]; intros s Hp.
  - exists s. reflexivity.
  - destruct s as [|c' s]; [done|]. cbn in Hp.
    destruct (ascii_dec c c') as [<-|]; [|done].
    destruct (IH s Hp) as [b ->]. exists b. by rewrite app_cons.
Qed.

Lemma contains_inv (needle s : string) :
  Py.contains needle s = true → ∃ a b, s = a ++ needle ++ b.
Proof.
  induction s as [|c s IH]; cbn [Py.contains].
  - rewrite orb_false_r. intros [b Hb]%prefix_inv. exists "", b. by rewrite app_empty.
  - intros [Hp|Hc]%orb_true_iff.
    + destruct (prefix_inv _ _ Hp) as [b Hb]. exists "", b. by rewrite app_empty.
    + destruct (IH Hc) as (a & b & ->). exists (String c a), b. by rewrite app_cons.
Qed.

(** [(a + sep + b).split(sep) == a.split(sep) + b.split(sep)] *)
Lemma split_app_sep (sep : ascii) (a b : string) :
  Py.split sep (a ++ String sep b) = (Py.split sep a ++ Py.split sep b)%list.
Proof.
  induction a as [|c a IH].
  - rewrite app_empty. cbn [Py.split]. by rewrite Ascii.eqb_refl.
  - rewrite app_cons. cbn [Py.split]. rewrite IH.
    destruct (Ascii.eqb c sep); [done|].
    pose proof (split_nonempty sep a). by destruct (Py.split sep a).
Qed.

Lemma split_dotdot_slash (b : string) :
  Py.split "/" ("../" ++ b) = ".." :: Py.split "/" b.
Proof. change ("../" ++ b) with (".." ++ String "/" b). by rewrite split_app_sep. Qed.

(** X1. [_validate_allow_pattern] accepts exactly the patterns that are not
    empty, not absolute, not [..] itself, and in which a [..] segment
    (after the backslashes are turned into slashes) can only be the last
    one. *)
Theorem validate_accepts_iff (p : string) :
  is_ok (_validate_allow_pattern p) = true ↔
  p ≠ "" ∧ isabs p = false ∧ Py.replace_char "\" "/" p ≠ ".."
  ∧ ∀ i, Py.split "/" (Py.replace_char "\" "/" p) !! i = Some ".." →
         S i = length (Py.split "/" (Py.replace_char "\" "/" p)).
Proof.
  split.
  - intros Hok. assert (p ≠ "") as Hne.
    { intros ->. done. }
    assert (isabs p = false) as Habs.
    { destruct (isabs p) eqn:Habs; [|done].
      by rewrite (validate_rejects_absolute p Habs) in Hok. }
    split; [done|]. split; [done|]. split.
    + intros Hdd. unfold _validate_allow_pattern in Hok.
      apply String.eqb_neq in Hne. rewrite Hne, Habs, Hdd in Hok. done.
    + intros i Hi.
      destruct (decide (S i < length (Py.split "/" (Py.replace_char "\" "/" p))))%nat
        as [Hlt|Hge].
      * by rewrite (validate_rejects_inner_dotdot p i Hi Hlt) in Hok.
      * apply lookup_lt_Some in Hi. lia.
  - intros (Hne & Habs & Hdd & Hlast). unfold _validate_allow_pattern.
    apply String.eqb_neq in Hne, Hdd. rewrite Hne, Habs, Hdd, orb_false_r.
    destruct (Py.startswith _ "../") eqn:Hstart.
    { apply prefix_inv in Hstart as [b Hb].
      specialize (Hlast 0%nat). rewrite Hb, split_dotdot_slash in Hlast.
      specialize (Hlast eq_refl). simpl in Hlast.
      pose proof (split_nonempty "/" b). destruct (Py.split "/" b); [done|].
      simpl in Hlast. lia. }
    destruct (Py.contains "/../" _) eqn:Hin; [|done].
    apply contains_inv in Hin as (a & b & Hab).
    change ("/../" ++ b) with (String "/" ("../" ++ b)) in Hab.
    specialize (Hlast (length (Py.split "/" a))).
    rewrite Hab, split_app_sep, split_dotdot_slash in Hlast.
    rewrite lookup_app_r, Nat.sub_diag in Hlast by lia.
    specialize (Hlast eq_refl). rewrite length_app in Hlast. simpl in Hlast.
    pose proof (split_nonempty "/" b). destruct (Py.split "/" b); [done|].
    simpl in Hlast. lia.
Qed.

Lemma validate_accepts_iff_witness :
  is_ok (_validate_allow_pattern "src/*.py") = true
  ∧ is_ok (_validate_allow_pattern "src\..\lib") = false.
Proof.
  split.
  - apply validate_accepts_iff. split; [discriminate|]. split; [reflexivity|].
    split; [discriminate|].
    intros [|[|i]] Hi; vm_compute in Hi; try discriminate.
  - destruct (is_ok (_validate_allow_pattern "src\..\lib")) eqn:Hok; [|done].
    apply validate_accepts_iff in Hok as (_ & _ & _ & Hlast).
    specialize (Hlast 1%nat eq_refl). vm_compute in Hlast. discriminate.
Defined.

Lemma replace_char_removes (old new : ascii) (s : string) :
  old ≠ new → Py.contains (String old EmptyString) (Py.replace_char old new s) = false.
Proof.
  intros Hne. induction s as [|c s IH]; [done|].
  cbn [Py.replace_char Py.contains]. rewrite IH, orb_false_r.
  cbn [String.prefix]. destruct (Ascii.eqb_spec c old) as [->|Hc].
  - by destruct (ascii_dec old new).
  - by destruct (ascii_dec old c) as [->|].
Qed.

Lemma existsb_dot_slash (c : ascii) :
  existsb (Ascii.eqb c) ["."; "/"]%char = bool_decide ("."%char = c) || bool_decide ("/"%char = c).
Proof.
  cbn [existsb]. rewrite orb_false_r. f_equal.
  - destruct (Ascii.eqb_spec c ".") as [->|Hne]; [by rewrite bool_decide_eq_true_2|].
    by rewrite bool_decide_eq_false_2.
  - destruct (Ascii.eqb_spec c "/") as [->|Hne]; [by rewrite bool_decide_eq_true_2|].
    by rewrite bool_decide_eq_false_2.
Qed.

Lemma lstrip_suffix (chars : list ascii) (s : string) :
  ∃ a, s = a ++ Py.lstrip chars s.
Proof.
  induction s as [|c s [a IH]]; [by exists ""|].
  cbn [Py.lstrip]. destruct (existsb (Ascii.eqb c) chars).
  - exists (String c a). by rewrite app_cons, <- IH.
  - exists "". by rewrite app_empty.
Qed.

Lemma lstrip_head (chars : list ascii) (s : string) (c : ascii) (r : string) :
  Py.lstrip chars s = String c r → existsb (Ascii.eqb c) chars = false.
Proof.
  induction s as [|c' s IH]; [done|]. cbn [Py.lstrip].
  destruct (existsb (Ascii.eqb c') chars) eqn:Hc'; [done|].
  by intros [= <- _].
Qed.

Lemma contains_suffix_false (needle a s : string) :
  Py.contains needle (a ++ s) = false → Py.contains needle s = false.
Proof.
  intros H. destruct (Py.contains needle s) eqn:Hs; [|done].
  by rewrite (contains_app needle a s Hs) in H.
Qed.

(** X2. A pattern that [_validate_allow_pattern] returns has no backslash
    and no leading [.] or [/]. Validating it again (as [_load_task] and
    [_path_is_allowed] do with stored patterns) returns it unchanged, unless
    it is empty: a pattern made of dots and slashes only, such as [.] or
    [./], is accepted as the empty pattern, which the next validation
    rejects. *)
Theorem validate_result_stable (p q : string) :
  _validate_allow_pattern p = Ok q →
  Py.contains "\" q = false
  ∧ Py.startswith q "." = false
  ∧ Py.startswith q "/" = false
  ∧ (q ≠ "" → _validate_allow_pattern q = Ok q)
  ∧ (q = "" → is_ok (_validate_allow_pattern q) = false).
Proof.
  unfold _validate_allow_pattern at 1.
  destruct (String.eqb p ""); [done|]. destruct (isabs p); [done|].
  set (norm := Py.replace_char "\" "/" p).
  destruct (Py.startswith norm "../" || Py.contains "/../" norm || String.eqb norm "..")
    eqn:Hchecks; [done|].
  intros [= <-].
  apply orb_false_iff in Hchecks as [[Hstart Hin]%orb_false_iff Hdd].
  destruct (lstrip_suffix ["."; "/"]%char norm) as [a Ha].
  set (q := Py.lstrip ["."; "/"]%char norm) in *.
  assert (Py.contains "\" q = false) as Hbs.
  { apply (contains_suffix_false _ a). rewrite <- Ha. by apply replace_char_removes. }
  assert (Py.startswith q "." = false ∧ Py.startswith q "/" = false) as [Hdot Hslash].
  { destruct q as [|c r] eqn:Hq; [done|].
    pose proof (lstrip_head _ _ _ _ Hq) as Hc. rewrite existsb_dot_slash in Hc.
    apply orb_false_iff in Hc as [Hc1 Hc2]. by rewrite !startswith_char. }
  split; [done|]. split; [done|]. split; [done|]. split; [|by intros ->].
  intros Hne. unfold _validate_allow_pattern.
  apply String.eqb_neq in Hne. rewrite Hne. unfold isabs. rewrite Hslash.
  rewrite (replace_char_absent _ _ _ Hbs).
  assert (Py.startswith q "../" = false) as ->.
  { destruct q as [|c r]; [done|]. rewrite startswith_char in Hdot.
    unfold Py.startswith. cbn [String.prefix].
    destruct (ascii_dec "." c) as [Heq|]; [|done].
    by rewrite bool_decide_eq_true_2 in Hdot. }
  assert (Py.contains "/../" q = false) as ->.
  { apply (contains_suffix_false _ a). by rewrite <- Ha. }
  assert (String.eqb q ".." = false) as ->.
  { apply String.eqb_neq. intros Hq. by rewrite Hq in Hdot. }
  cbn [orb]. f_equal. apply lstrip_no_leading.
  destruct q as [|c r]; [done|]. rewrite existsb_dot_slash.
  rewrite startswith_char in Hdot, Hslash. by rewrite Hdot, Hslash.
Qed.

Lemma validate_result_stable_witness :
  _validate_allow_pattern "src/*.py" = Ok "src/*.py"
  ∧ is_ok (_validate_allow_pattern "") = false.
Proof.
  split.
  - apply (validate_result_stable ".\src\*.py" "src/*.py"); [reflexivity|discriminate].
  - apply (validate_result_stable "./" ""); reflexivity.
Defined.

Section PathAllowedFacts.

Variable fnmatch : string → string → bool.

Lemma path_is_allowed_loop_app (path : string) (pre post validated : list string) :
  map_result _validate_allow_pattern pre = Ok validated →
  path_is_allowed_loop fnmatch path (pre ++ post)
  = if existsb (fnmatch path) validated then Ok true
    else path_is_allowed_loop fnmatch path post.
Proof.
  revert validated. induction pre as [|raw pre IH]; intros validated.
  - intros [= <-]. done.
  - cbn [map_result app path_is_allowed_loop].
    destruct (_validate_allow_pattern raw) as [q|msg]; [|done]. cbn.
    destruct (map_result _validate_allow_pattern pre) as [qs|msg] eqn:Hpre; [|done].
    cbn. intros [= <-]. cbn [existsb].
    destruct (fnmatch path q); [done|]. by apply IH.
Qed.

(** X3. [_path_is_allowed] validates lazily. With patterns that all pass
    validation, a path is allowed exactly when [fnmatch] matches it (its
    backslashes turned into slashes) against one of the validated
    patterns; an empty allow list allows nothing. And as soon as a pattern
    matches, the answer is [True] whatever follows in the list, also a
    pattern that validation would reject. *)
Theorem path_is_allowed_first_match (path : string) (pre post validated : list string) :
  map_result _validate_allow_pattern pre = Ok validated →
  _path_is_allowed fnmatch path pre
    = Ok (existsb (fnmatch (Py.replace_char "\" "/" path)) validated)
  ∧ (existsb (fnmatch (Py.replace_char "\" "/" path)) validated = true →
     _path_is_allowed fnmatch path (pre ++ post) = Ok true).
Proof.
  intros Hpre. unfold _path_is_allowed. split.
  - rewrite <- (app_nil_r pre), (path_is_allowed_loop_app _ _ _ _ Hpre).
    by destruct (existsb _ _).
  - intros Hmatch. by rewrite (path_is_allowed_loop_app _ _ _ _ Hpre), Hmatch.
Qed.

End PathAllowedFacts.

Lemma path_is_allowed_first_match_witness :
  _path_is_allowed SampleHook.fnmatch "src\a.py" ["src/*"] = Ok true
  ∧ _path_is_allowed SampleHook.fnmatch "src/a.py" ["src/*"; "../escape"] = Ok true.
Proof.
  split.
  - exact (proj1 (path_is_allowed_first_match SampleHook.fnmatch "src\a.py" ["src/*"] []
                    ["src/*"] eq_refl)).
  - exact (proj2 (path_is_allowed_first_match SampleHook.fnmatch "src/a.py" ["src/*"]
                    ["../escape"] ["src/*"] eq_refl) eq_refl).
Defined.

Section ExpandErrors.

Variable glob : string → list string.
Variable resolve : string → Exn + option string.
Variable is_file : string → Exn + bool.
Variable relative_to_root : string → option string.

Lemma add_matches_returns (ms : list string) (locked : gset string) :
  (∀ m, m ∈ ms → match resolve m with
                 | inl _ => False
                 | inr None => True
                 | inr (Some rp) => returns (is_file rp) = true
                 end) →
  returns (add_matches resolve is_file relative_to_root ms locked) = true.
Proof.
  revert locked. induction ms as [|m ms IH]; intros locked Hms; [done|].
  cbn [add_matches].
  assert (∀ locked', returns (add_matches resolve is_file relative_to_root ms locked')
                     = true) as Hrest.
  { intros locked'. apply IH. intros m' Hm'. apply Hms, elem_of_cons. by right. }
  specialize (Hms m (list_elem_of_here _ _)).
  destruct (resolve m) as [e|[rp|]]; [done| |done].
  destruct (is_file rp) as [e|[|]]; [done| |done].
  by destruct (relative_to_root rp).
Qed.

Lemma expand_loop_returns (allow : list string) (locked : gset string) :
  file_system_answers glob resolve is_file allow →
  returns (expand_loop glob resolve is_file relative_to_root allow locked)
  = forallb (λ raw, is_ok (_validate_allow_pattern raw)) allow.
Proof.
  revert locked. induction allow as [|raw allow IH]; intros locked Hfs; [done|].
  assert (file_system_answers glob resolve is_file allow) as Hfs'.
  { intros r q m Hr. apply Hfs, elem_of_cons. by right. }
  cbn [expand_loop forallb].
  destruct (_validate_allow_pattern raw) as [q|msg] eqn:Hval; [|done]. cbn [is_ok andb].
  destruct (_is_glob_pattern q) eqn:Hglob; cbn [negb]; [|by apply IH].
  pose proof (add_matches_returns (glob q) locked) as Hadd.
  destruct (add_matches _ _ _ (glob q) locked) as [e|locked'].
  - discriminate Hadd. intros m Hm.
    apply (Hfs raw q m); [apply list_elem_of_here|done..].
  - by apply IH.
Qed.


(** X30. What pattern expansion returns, when it returns: a sorted list
    without duplicates, whose paths are exactly the literal patterns as
    validation returns them (backslashes turned into slashes, every
    leading dot and slash stripped), kept whether or not such a file
    exists, and the root-relative paths of the existing regular files
    inside the root that a glob pattern matches. A literal in normal form
    is in the result as it is written, also when it was given with
    backslashes or with a leading [./]. *)
Theorem expand_allow_sorted_origins (allow out : list string) :
  _expand_allow glob resolve is_file relative_to_root allow = inr out →
  StronglySorted String.le out
  ∧ NoDup out
  ∧ (∀ p, p ∈ out ↔
          from_literal allow p
          ∨ from_glob glob resolve is_file relative_to_root allow p)
  ∧ (∀ raw p, raw ∈ allow → is_normal_literal p = true →
              Py.replace_char "\" "/" raw = p
              ∨ Py.replace_char "\" "/" raw = "./" ++ p →
              p ∈ out).
Proof.
  unfold _expand_allow.
  destruct (expand_loop _ _ _ _ allow ∅) as [e|locked] eqn:Hloop; [done|].
  intros [= <-].
  assert (∀ p, p ∈ Py.sorted (elements locked) ↔
               from_literal allow p
               ∨ from_glob glob resolve is_file relative_to_root allow p) as Hmem.
  { intros p.
    rewrite elem_of_sorted, elem_of_elements, (expand_loop_spec _ _ _ _ _ _ _ Hloop).
    rewrite elem_of_empty. tauto. }
  split; [apply sorted_strongly|]. split.
  { rewrite sorted_perm. apply NoDup_elements. }
  split; [done|].
  intros raw p Hraw Hnormal Hnorm. apply Hmem. left.
  destruct (normal_literal_fixed p Hnormal) as (_ & Hstrip & Hposix & Hglob).
  exists raw. assert (stored_pattern raw = p) as ->.
  { unfold stored_pattern. destruct Hnorm as [->| ->]; [done|].
    destruct p as [|c p]; [done|]. done. }
  by repeat split.
Qed.

End ExpandErrors.

Lemma sample_file_system_answers (allow : list string) :
  file_system_answers Sample.glob Sample.resolve Sample.is_file allow.
Proof. intros raw pattern m _ _ _ _. reflexivity. Qed.


Lemma expand_allow_sorted_origins_witness :
  Sample.expand ["src/*"; "docs\new.md"] = inr ["docs/new.md"; "src/a.py"]
  ∧ StronglySorted String.le ["docs/new.md"; "src/a.py"]
  ∧ NoDup ["docs/new.md"; "src/a.py"]
  ∧ "docs/new.md" ∈ ["docs/new.md"; "src/a.py"].
Proof.
  assert (Sample.expand ["src/*"; "docs\new.md"] = inr ["docs/new.md"; "src/a.py"])
    as Hrun by (vm_compute; reflexivity).
  split; [exact Hrun|].
  destruct (expand_allow_sorted_origins Sample.glob Sample.resolve Sample.is_file
              Sample.relative_to_root _ _ Hrun) as (Hsorted & Hnodup & _ & Hlit).
  split; [exact Hsorted|]. split; [exact Hnodup|].
  apply (Hlit "docs\new.md" "docs/new.md").
  - apply elem_of_cons; right. apply elem_of_cons; by left.
  - vm_compute; reflexivity.
  - left. vm_compute; reflexivity.
Defined.

(** ** More on the lock store *)

(** X5. Garbage collection is idempotent: a second run under the same
    answers of the liveness oracle deletes nothing and returns 0. *)
Theorem cleanup_dead_locks_idempotent (tm : Tmux) (db : Locks) :
  _cleanup_dead_locks tm (_cleanup_dead_locks tm db).2
  = (0%nat, (_cleanup_dead_locks tm db).2).
Proof.
  assert ((_cleanup_dead_locks tm (_cleanup_dead_locks tm db).2).2
          = (_cleanup_dead_locks tm db).2) as Htable.
  { apply map_eq. intros f. rewrite !cleanup_dead_locks_lookup.
    destruct (db !! f) as [row|]; [|done]. cbn.
    destruct (confirmed_dead tm row) eqn:Hdead; [done|]. cbn. by rewrite Hdead. }
  pose proof (cleanup_dead_locks_count tm (_cleanup_dead_locks tm db).2) as Hcount.
  rewrite Htable in Hcount.
  destruct (_cleanup_dead_locks tm (_cleanup_dead_locks tm db).2) as [n db''].
  cbn in *. subst db''. f_equal. lia.
Qed.

(** X6. Releasing the locks of an owner deletes exactly the rows of that
    (agent, task): none of them is left, every other row is as before, and
    the count returned is the number of rows deleted. *)
Theorem release_locks_deletes_owner_rows (a t : string) (db : Locks) :
  (∀ f row, (_release_locks a t db).2 !! f = Some row →
            db !! f = Some row ∧ ¬ (agent row = a ∧ task row = t))
  ∧ (∀ f row, db !! f = Some row → ¬ (agent row = a ∧ task row = t) →
              (_release_locks a t db).2 !! f = Some row)
  ∧ ((_release_locks a t db).1 + size (_release_locks a t db).2)%nat = size db.
Proof.
  split; [|split].
  - intros f row. rewrite release_locks_lookup.
    destruct (db !! f) as [row'|]; [|done]. cbn.
    destruct (decide _); [done|]. by intros [= <-].
  - intros f row Hf Hother. rewrite release_locks_lookup, Hf. cbn.
    by destruct (decide _).
  - unfold _release_locks. cbn [fst snd].
    rewrite <- map_size_disj_union by apply map_disjoint_filter_complement.
    by rewrite map_filter_union_complement.
Qed.

Lemma release_locks_deletes_owner_rows_witness :
  (_release_locks "bob" "t2" SampleLocks.locks).2 !! "src/live.py"
  = Some (SampleLocks.row "alice" "t1" (Some "main")).
Proof.
  apply (proj1 (proj2 (release_locks_deletes_owner_rows "bob" "t2" SampleLocks.locks))).
  - vm_compute. reflexivity.
  - intros [Ha _]. discriminate Ha.
Defined.

(** Where the rows of the requested files belong to the requester, the
    request has no conflict, whatever garbage collection deletes. *)
Lemma no_conflict_when_owned (tm : Tmux) (files : list string) (a t : string)
    (db : Locks) :
  (∀ f row, f ∈ files → db !! f = Some row → agent row = a ∧ task row = t) →
  conflicts_with (Py.sorted (remove_dups files)) a t (_cleanup_dead_locks tm db).2 = [].
Proof.
  intros Hown. apply elem_of_nil_inv. intros c Hc.
  apply elem_of_conflicts_with in Hc as (Hin & row & Hrow & _ & _ & Hother).
  apply (proj1 (elem_of_unique _ _)) in Hin.
  rewrite cleanup_dead_locks_lookup in Hrow.
  destruct (db !! c.1.1) as [row'|] eqn:Hdb; [|done]. cbn in Hrow.
  destruct (confirmed_dead tm row'); [done|]. injection Hrow as ->.
  destruct (Hown _ _ Hin Hdb). tauto.
Qed.

(** X7. Release followed by acquisition: if every locked file among
    [files] is held by [(a, t)], then after [(a, t)] releases, a request
    of any owner for [files] is granted, with no conflict. *)
Theorem release_then_acquire_succeeds (tm : Tmux) (now_ : Z) (files : list string)
    (a t b u : string) (session : option string) (db : Locks) :
  (∀ f row, f ∈ files → db !! f = Some row → agent row = a ∧ task row = t) →
  (_acquire_locks tm now_ files b u session (_release_locks a t db).2).1 = Ok ()
  ∧ ∀ f, f ∈ files →
         (_acquire_locks tm now_ files b u session (_release_locks a t db).2).2 !! f
         = Some {| agent := b; task := u; locked_at := now_; tmux_session := session |}.
Proof.
  intros Hown.
  destruct (acquire_locks_granted_table tm now_ files b u session
              (_release_locks a t db).2) as [Hok Htable].
  { apply no_conflict_when_owned. intros f row Hf.
    rewrite release_locks_lookup.
    destruct (db !! f) as [row'|] eqn:Hdb; [|done]. cbn.
    destruct (decide _) as [|Hother]; [done|]. intros [= <-].
    destruct (Hown _ _ Hf Hdb). tauto. }
  split; [done|]. intros f Hf. by rewrite Htable, decide_True.
Qed.

Lemma release_then_acquire_succeeds_witness :
  (_acquire_locks SampleLocks.no_tmux 200 SampleConflicts.files "alice" "t1" None
     (_release_locks "bob" "t2" SampleConflicts.locks).2).1 = Ok ().
Proof.
  apply (release_then_acquire_succeeds SampleLocks.no_tmux 200 SampleConflicts.files
           "bob" "t2" "alice" "t1" None SampleConflicts.locks).
  intros f row _ Hrow. unfold SampleConflicts.locks in Hrow.
  apply elem_of_list_to_map_2, list_elem_of_fmap in Hrow as (f' & [= _ ->] & _).
  done.
Defined.

(** X8. Acquisition is idempotent for an owner: after a granted request,
    the same owner's request for the same files is granted again, under
    any answers of the liveness oracle, and refreshes the time and the
    session of every row. *)
Theorem acquire_again_refreshes (tm tm' : Tmux) (now_ now' : Z) (files : list string)
    (a t : string) (session session' : option string) (db : Locks) :
  (_acquire_locks tm now_ files a t session db).1 = Ok () →
  (_acquire_locks tm' now' files a t session'
     (_acquire_locks tm now_ files a t session db).2).1 = Ok ()
  ∧ ∀ f, f ∈ files →
         (_acquire_locks tm' now' files a t session'
            (_acquire_locks tm now_ files a t session db).2).2 !! f
         = Some {| agent := a; task := t; locked_at := now'; tmux_session := session' |}.
Proof.
  intros Hok.
  assert (conflicts_with (Py.sorted (remove_dups files)) a t
            (_cleanup_dead_locks tm db).2 = []) as Hnil.
  { destruct (decide (conflicts_with (Py.sorted (remove_dups files)) a t
                        (_cleanup_dead_locks tm db).2 = [])) as [|Hne]; [done|].
    pose proof (acquire_locks_conflict_raises tm now_ files a t session db Hne) as Herr.
    by rewrite Hok in Herr. }
  destruct (acquire_locks_granted_table tm now_ files a t session db Hnil)
    as [_ Htable].
  destruct (acquire_locks_granted_table tm' now' files a t session'
              (_acquire_locks tm now_ files a t session db).2) as [Hok' Htable'].
  { apply no_conflict_when_owned. intros f row Hf. rewrite Htable, decide_True by done.
    by intros [= <-]. }
  split; [done|]. intros f Hf. by rewrite Htable', decide_True.
Qed.

Lemma acquire_again_refreshes_witness :
  (_acquire_locks SampleLocks.tmux 300 ["a.py"] "alice" "t1" (Some "main")
     (_acquire_locks SampleLocks.tmux 200 ["a.py"] "alice" "t1" None
        SampleConflicts.stale).2).2 !! "a.py"
  = Some {| agent := "alice"; task := "t1"; locked_at := 300;
            tmux_session := Some "main" |}.
Proof.
  apply (acquire_again_refreshes SampleLocks.tmux SampleLocks.tmux 200 300 ["a.py"]
           "alice" "t1" None (Some "main") SampleConflicts.stale).
  - vm_compute. reflexivity.
  - apply elem_of_cons. by left.
Defined.

(** X9. Requests for disjoint file sets do not disturb each other: if the
    requests of [(a, t)] for [files1] and of [(b, u)] for [files2] would
    each be granted on a table, and the two sets are disjoint, then the
    second is still granted after the first, and then [files2] is locked
    by [(b, u)] while each file of [files1] keeps the row of [(a, t)]
    unless the garbage collection of the second call finds its session
    dead. *)
Theorem disjoint_requests_both_granted (tm tm' : Tmux) (now1 now2 : Z)
    (files1 files2 : list string) (a t b u : string) (s1 s2 : option string)
    (db : Locks) :
  (∀ f, f ∈ files1 → f ∉ files2) →
  (_acquire_locks tm now1 files1 a t s1 db).1 = Ok () →
  (_acquire_locks tm now2 files2 b u s2 db).1 = Ok () →
  let db1 := (_acquire_locks tm now1 files1 a t s1 db).2 in
  let row1 := {| agent := a; task := t; locked_at := now1; tmux_session := s1 |} in
  (_acquire_locks tm' now2 files2 b u s2 db1).1 = Ok ()
  ∧ (∀ f, f ∈ files2 →
          (_acquire_locks tm' now2 files2 b u s2 db1).2 !! f
          = Some {| agent := b; task := u; locked_at := now2; tmux_session := s2 |})
  ∧ (∀ f, f ∈ files1 →
          (_acquire_locks tm' now2 files2 b u s2 db1).2 !! f
          = if confirmed_dead tm' row1 then None else Some row1).
Proof.
  intros Hdisj Hok1 Hok2 db1 row1.
  assert (∀ files x y s n,
            (_acquire_locks tm n files x y s db).1 = Ok () →
            conflicts_with (Py.sorted (remove_dups files)) x y
              (_cleanup_dead_locks tm db).2 = []) as Hnil.
  { intros files x y s n Hok.
    destruct (decide (conflicts_with (Py.sorted (remove_dups files)) x y
                        (_cleanup_dead_locks tm db).2 = [])) as [|Hne]; [done|].
    pose proof (acquire_locks_conflict_raises tm n files x y s db Hne) as Herr.
    by rewrite Hok in Herr. }
  destruct (acquire_locks_granted_table tm now1 files1 a t s1 db (Hnil _ _ _ _ _ Hok1))
    as [_ Htable1]. fold db1 in Htable1.
  assert (conflicts_with (Py.sorted (remove_dups files2)) b u
            (_cleanup_dead_locks tm' db1).2 = []) as Hnil2.
  { apply elem_of_nil_inv. intros c Hc.
    apply elem_of_conflicts_with in Hc as (Hin & row & Hrow & Hca & Hct & Hother).
    apply (proj1 (elem_of_unique _ _)) in Hin.
    rewrite cleanup_dead_locks_lookup, Htable1 in Hrow.
    rewrite decide_False in Hrow by (intros Hf1; by apply (Hdisj _ Hf1)).
    destruct ((_cleanup_dead_locks tm db).2 !! c.1.1) as [row'|] eqn:Hgc; [|done].
    cbn in Hrow. destruct (confirmed_dead tm' row'); [done|]. injection Hrow as ->.
    assert (c ∈ conflicts_with (Py.sorted (remove_dups files2)) b u
                  (_cleanup_dead_locks tm db).2) as Hc'.
    { apply elem_of_conflicts_with. split; [by apply elem_of_unique|]. eauto 10. }
    rewrite (Hnil _ _ _ _ _ Hok2) in Hc'. by apply elem_of_nil in Hc'. }
  destruct (acquire_locks_granted_table tm' now2 files2 b u s2 db1 Hnil2)
    as [Hok' Htable2].
  split; [done|]. split.
  - intros f Hf. by rewrite Htable2, decide_True.
  - intros f Hf. rewrite Htable2, decide_False by by apply Hdisj.
    rewrite cleanup_dead_locks_lookup, Htable1, decide_True by done. done.
Qed.

Lemma disjoint_requests_both_granted_witness :
  (_acquire_locks SampleLocks.tmux 300 ["b.py"] "bob" "t2" None
     (_acquire_locks SampleLocks.tmux 200 ["a.py"] "alice" "t1" None ∅).2).1 = Ok ()
  ∧ (_acquire_locks SampleLocks.tmux 300 ["b.py"] "bob" "t2" None
       (_acquire_locks SampleLocks.tmux 200 ["a.py"] "alice" "t1" None ∅).2).2 !! "a.py"
    = Some {| agent := "alice"; task := "t1"; locked_at := 200; tmux_session := None |}.
Proof.
  pose proof (disjoint_requests_both_granted SampleLocks.tmux SampleLocks.tmux 200 300
                ["a.py"] ["b.py"] "alice" "t1" "bob" "t2" None None ∅) as H.
  cbv zeta in H. destruct H as (Hok & _ & Hfirst).
  - intros f ->%list_elem_of_singleton [=]%list_elem_of_singleton.
  - vm_compute. reflexivity.
  - vm_compute. reflexivity.
  - split; [exact Hok|]. apply Hfirst. apply elem_of_cons. by left.
Defined.

(** X10. Backfilling a session and crash recovery compose: after the
    session [s] is recorded on the locks of [(a, t)], a garbage collection
    whose oracle does not find [s] (with tmux available and [s] not empty)
    deletes every lock of [(a, t)], and one whose oracle finds [s]
    keeps them all, holder and time unchanged. *)
Theorem backfilled_session_decides_collection (tm : Tmux) (a t s : string)
    (db : Locks) (f : string) (row : Lock) :
  db !! f = Some row → agent row = a → task row = t →
  (_cleanup_dead_locks tm (_set_locks_tmux_session a t s db).2).2 !! f
  = if _tmux_available tm && negb (String.eqb s "") && negb (has_session tm s)
    then None
    else Some {| agent := a; task := t; locked_at := locked_at row;
                 tmux_session := Some s |}.
Proof.
  intros Hf Ha Ht. rewrite cleanup_dead_locks_lookup, set_session_lookup, Hf. cbn.
  rewrite decide_True by done. unfold confirmed_dead. cbn. rewrite Ha, Ht.
  by rewrite andb_assoc.
Qed.

Lemma backfilled_session_decides_collection_witness :
  (_cleanup_dead_locks SampleLocks.tmux
     (_set_locks_tmux_session "carol" "t3" "gone" SampleLocks.locks).2).2 !! "src/new.py"
  = None.
Proof.
  apply (backfilled_session_decides_collection SampleLocks.tmux "carol" "t3" "gone"
           SampleLocks.locks "src/new.py" (SampleLocks.row "carol" "t3" None));
    [vm_compute; reflexivity|reflexivity|reflexivity].
Defined.

(** ** More on commit-time enforcement *)

Section HookFacts.

Variable fnmatch : string → string → bool.

(** X11. The pre-commit hook writes the lock table only when it enforces
    and succeeds. With [HYDRA_SKIP_HOOKS] set, or without an agent or a
    task in the environment, it returns 0 and neither checks nor locks
    anything; and whenever it raises (a bad task descriptor, a staged path
    outside the allow list, a missing database, a lock conflict) the table
    is as before, the rows inserted on the way rolled back. *)
Theorem pre_commit_changes_table_only_on_success (inp : HookInput) (db : option Locks) :
  (Py.strip (environ_HYDRA_SKIP_HOOKS inp) ≠ ""
   ∨ Py.strip (environ_AGENT_ID inp) = ""
   ∨ Py.strip (environ_TASK_ID inp) = "" →
   _hook_pre_commit fnmatch inp db = (Ok 0, db))
  ∧ (is_ok (_hook_pre_commit fnmatch inp db).1 = false →
     (_hook_pre_commit fnmatch inp db).2 = db)
  ∧ (staged inp = [] → (_hook_pre_commit fnmatch inp db).2 = db).
Proof.
  unfold _hook_pre_commit. split; [|split].
  - intros [Hskip|[Hagent|Htask]].
    + apply String.eqb_neq in Hskip. by rewrite Hskip.
    + destruct (negb _); [done|]. by rewrite Hagent.
    + destruct (negb _); [done|]. rewrite Htask. by rewrite orb_true_r.
  - destruct (negb _); [done|]. destruct (_ || _); [done|].
    destruct (task_allow inp ≫= _) as [allow_patterns|]; [|done].
    destruct (staged inp) as [|rel rest]; [done|].
    destruct (not_allowed_paths _ _ _) as [[|p ps]|]; [|done..].
    destruct db as [locks|]; [|done].
    by destruct (pre_commit_loop _ _ _ _ _ _) as [locks' [|c cs]].
  - intros Hnil. rewrite Hnil. destruct (negb _); [done|]. destruct (_ || _); [done|].
    by destruct (task_allow inp ≫= _).
Qed.

(** X12. When the hook enforces, the staged paths are all allowed and the
    database exists, the hook blocks the commit exactly when a staged
    path has a lock row of another (agent, task); a path locked by the
    committer or by nobody never blocks. *)
Theorem pre_commit_blocks_iff_conflict (inp : HookInput) (locks : Locks)
    (allow_patterns : list string) :
  Py.strip (environ_HYDRA_SKIP_HOOKS inp) = "" →
  Py.strip (environ_AGENT_ID inp) ≠ "" →
  Py.strip (environ_TASK_ID inp) ≠ "" →
  (raw ← task_allow inp; map_result _validate_allow_pattern raw) = Ok allow_patterns →
  not_allowed_paths fnmatch (staged inp) allow_patterns = Ok [] →
  is_ok (_hook_pre_commit fnmatch inp (Some locks)).1 = false ↔
  ∃ f row, f ∈ staged inp ∧ locks !! f = Some row
           ∧ (agent row ≠ Py.strip (environ_AGENT_ID inp)
              ∨ task row ≠ Py.strip (environ_TASK_ID inp)).
Proof.
  intros Hskip Hagent Htask Hallow Hpaths. unfold _hook_pre_commit.
  rewrite Hskip. cbn [negb String.eqb].
  apply String.eqb_neq in Hagent, Htask. rewrite Hagent, Htask. cbn [orb].
  rewrite Hallow.
  destruct (staged inp) as [|rel rest] eqn:Hst.
  { split; [done|]. intros (f & _ & Hf & _). by apply elem_of_nil in Hf. }
  rewrite <- Hst in *. rewrite Hpaths.
  pose proof (pre_commit_loop_spec (Py.strip (environ_AGENT_ID inp))
                (Py.strip (environ_TASK_ID inp)) (now inp) (staged inp) locks [])
    as [Hcs _].
  destruct (pre_commit_loop _ _ _ (staged inp) locks []) as [locks' cs].
  cbn [snd app] in Hcs. subst cs.
  destruct (conflicts_with _ _ _ _) as [|c cs] eqn:Hconf; cbn [fst is_ok]; split.
  - done.
  - intros (f & row & Hf & Hrow & Hother). exfalso.
    assert ((f, agent row, task row) ∈
            conflicts_with (staged inp) (Py.strip (environ_AGENT_ID inp))
              (Py.strip (environ_TASK_ID inp)) locks) as Hc.
    { apply elem_of_conflicts_with. cbn [fst snd]. eauto 10. }
    rewrite Hconf in Hc. by apply elem_of_nil in Hc.
  - intros _.
    assert (c ∈ conflicts_with (staged inp) (Py.strip (environ_AGENT_ID inp))
                  (Py.strip (environ_TASK_ID inp)) locks) as Hc.
    { rewrite Hconf. apply elem_of_cons. by left. }
    apply elem_of_conflicts_with in Hc as (Hf & row & Hrow & _ & _ & Hother).
    eauto.
  - done.
Qed.

End HookFacts.

Lemma pre_commit_changes_table_only_on_success_witness :
  _hook_pre_commit SampleHook.fnmatch
    {| environ_HYDRA_SKIP_HOOKS := "1"; environ_AGENT_ID := "alice";
       environ_TASK_ID := "t1"; task_allow := Ok ["src/*"];
       staged := ["src/dead.py"]; now := 300 |} (Some SampleLocks.locks)
  = (Ok 0, Some SampleLocks.locks).
Proof.
  apply (pre_commit_changes_table_only_on_success SampleHook.fnmatch).
  left. discriminate.
Defined.

Lemma pre_commit_blocks_iff_conflict_witness :
  is_ok (_hook_pre_commit SampleHook.fnmatch
           {| environ_HYDRA_SKIP_HOOKS := ""; environ_AGENT_ID := "alice";
              environ_TASK_ID := "t1"; task_allow := Ok ["src/*"];
              staged := ["src/live.py"; "src/dead.py"]; now := 300 |}
           (Some SampleLocks.locks)).1 = false.
Proof.
  apply (pre_commit_blocks_iff_conflict SampleHook.fnmatch _ SampleLocks.locks ["src/*"]);
    [reflexivity|discriminate|discriminate|reflexivity|reflexivity|].
  exists "src/dead.py", (SampleLocks.row "bob" "t2" (Some "gone")).
  split; [apply elem_of_cons; right; apply elem_of_cons; by left|].
  split; [vm_compute; reflexivity|]. left. discriminate.
Defined.

(** ** The snapshot debounce wait *)

Section DebounceFacts.

Import Debounce.
Local Open Scope Q_scope.

Lemma Qle_bool_false (x y : Q) : Qle_bool x y = false ↔ y < x.
Proof.
  rewrite <- not_true_iff_false, Qle_bool_iff.
  split; [apply Qnot_le_lt|apply Qlt_not_le].
Qed.

Lemma float_le_finite_mono (d : PyFloat) (x y : Q) :
  x <= y → float_le d (Finite x) = true → float_le d (Finite y) = true.
Proof. destruct d; cbn; try done. rewrite !Qle_bool_iff. lra. Qed.

Lemma float_le_refl (d : PyFloat) : float_le d d = true ↔ d ≠ NaN.
Proof.
  destruct d; cbn; split; try done.
  intros _. apply Qle_bool_iff. lra.
Qed.

Lemma float_le_unbounded (m : PyFloat) (x : Q) :
  m = PosInf ∨ m = NaN → float_le m (Finite x) = false.
Proof. by intros [-> | ->]. Qed.

(** What the loop over the rows computes: the newest modification time
    of the regular files among the rows, and at least [latest]. *)
Lemma latest_mtime_from_spec (rs : list StatusRow) (latest newest : Q) :
  latest_mtime_from latest rs = inr newest →
  latest <= newest
  ∧ (∀ r m, r ∈ rs → changed_at r m → m <= newest)
  ∧ (newest == latest ∨ ∃ r m, r ∈ rs ∧ changed_at r m ∧ m == newest).
Proof.
  revert latest. induction rs as [|r rs IH]; intros latest Hrun; cbn in Hrun.
  { injection Hrun as ->. split; [lra|]. split; [|by left].
    intros r m Hin. by apply elem_of_nil in Hin. }
  assert (∀ latest',
            latest_mtime_from latest' rs = inr newest →
            latest <= latest' →
            (∀ m, changed_at r m → m <= latest') →
            (latest' == latest ∨ ∃ m, changed_at r m ∧ m == latest') →
            latest <= newest
            ∧ (∀ r0 m, r0 ∈ r :: rs → changed_at r0 m → m <= newest)
            ∧ (newest == latest
               ∨ ∃ r0 m, r0 ∈ r :: rs ∧ changed_at r0 m ∧ m == newest)) as Hstep.
  { intros latest' Hrest Hle Hhead Horigin.
    destruct (IH latest' Hrest) as (Hge & Hall & Hsome).
    split; [lra|]. split.
    - intros r0 m Hin Hchanged. apply elem_of_cons in Hin as [->|Hin].
      + specialize (Hhead m Hchanged). lra.
      + by apply (Hall r0).
    - destruct Hsome as [Heq|(r0 & m & Hin & Hchanged & Heq)].
      + destruct Horigin as [Hsame|(m & Hchanged & Heq')].
        * left. lra.
        * right. exists r, m. split; [by left|]. split; [done|lra].
      + right. exists r0, m. split; [by right|]. done. }
  destruct (String.eqb (rel r) "") eqn:Hrel.
  { apply String.eqb_eq in Hrel. apply (Hstep latest Hrun); [lra| |by left].
    intros m (Hne & _). done. }
  destruct (stat r) as [e|[st_mtime|]] eqn:Hstat; [done| |].
  - destruct (is_file r) as [e|[|]] eqn:Hfile; [done| |].
    + apply (Hstep _ Hrun).
      * apply Q.le_max_l.
      * intros m (_ & Hm & _). rewrite Hstat in Hm. injection Hm as <-.
        apply Q.le_max_r.
      * destruct (Q.max_spec latest st_mtime) as [[Hlt Hmax]|[Hle Hmax]].
        -- right. exists st_mtime. split; [|lra].
           split; [|done]. apply String.eqb_neq. done.
        -- left. lra.
    + apply (Hstep latest Hrun); [lra| |by left].
      intros m (_ & _ & Hm). congruence.
  - apply (Hstep latest Hrun); [lra| |by left].
    intros m (_ & Hm & _). congruence.
Qed.

Lemma latest_mtime_of_spec (rs : list StatusRow) (newest : Q) :
  latest_mtime_of rs = inr newest →
  0 <= newest
  ∧ (∀ r m, r ∈ rs → changed_at r m → m <= newest)
  ∧ (newest == 0 ∨ ∃ r m, r ∈ rs ∧ changed_at r m ∧ m == newest).
Proof. apply latest_mtime_from_spec. Qed.

Lemma latest_mtime_from_answers (rs : list StatusRow) (latest : Q) :
  (∀ r, r ∈ rs → row_answers r) →
  ∃ newest, latest_mtime_from latest rs = inr newest.
Proof.
  revert latest. induction rs as [|r rs IH]; intros latest Hrows; cbn.
  { by exists latest. }
  assert (∀ latest', ∃ newest, latest_mtime_from latest' rs = inr newest) as Hrest.
  { intros latest'. apply IH. intros r0 Hin. apply Hrows. by right. }
  destruct (String.eqb (rel r) "") eqn:Hrel; [done|].
  destruct (Hrows r) as [Hempty|[Hnone|(m & b & Hstat & Hfile)]]; [by left| | |].
  - apply String.eqb_neq in Hrel. done.
  - by rewrite Hnone.
  - rewrite Hstat, Hfile. by destruct b.
Qed.

Section OnePass.

Variables (debounce_seconds max_wait_seconds poll_seconds : PyFloat).
Variable start : Q.
Variable p : Pass.
Variable clock : Q.

#[local] Abbreviation pass :=
  (one_pass debounce_seconds max_wait_seconds poll_seconds start p clock).

(** The two ways in which a pass with rows goes on after the test of
    quietness. *)
Lemma one_pass_cases :
  (∃ e, pass = inl (Raised e))
  ∨ (rows p = inr [] ∧ pass = inl Returned)
  ∨ ∃ rs newest,
      rows p = inr rs ∧ rs ≠ [] ∧ latest_mtime_of rs = inr newest
      ∧ let quiet_for :=
          if negb (Qeq_bool newest 0)
          then Finite (clock + before_quiet_reading p - newest)
          else debounce_seconds in
        if float_le debounce_seconds quiet_for then pass = inl Returned
        else
          if float_le max_wait_seconds
               (Finite (clock + before_quiet_reading p + before_timeout_reading p - start))
          then pass = inl TimedOut
          else
            match time_sleep p
                    (py_min poll_seconds
                       (py_max (Finite (5 # 100))
                          (float_sub debounce_seconds quiet_for)))
            with
            | inl e => pass = inl (Raised e)
            | inr slept =>
                pass = inr (clock + before_quiet_reading p + before_timeout_reading p
                            + slept)
            end.
Proof.
  unfold one_pass. destruct (rows p) as [e|rs] eqn:Hrows; [left; by exists e|].
  destruct rs as [|r rs']; [right; by left|].
  remember (r :: rs') as rs eqn:Hrs.
  destruct (latest_mtime_of rs) as [e|newest] eqn:Hnewest; [left; by exists e|].
  right. right. exists rs, newest.
  split; [done|]. split; [by subst|]. split; [done|]. cbv zeta.
  destruct (float_le debounce_seconds _); [done|].
  destruct (float_le max_wait_seconds _); [done|].
  by destruct (time_sleep p _).
Qed.

Lemma one_pass_returned_quiet :
  pass = inl Returned → quiet_pass debounce_seconds p clock.
Proof.
  intros Hret.
  destruct one_pass_cases as [[e He]|[[Hrows _]|(rs & newest & Hrows & Hne & Hnew & Hrun)]].
  { rewrite He in Hret. done. }
  { exists []. split; [done|]. by left. }
  exists rs. split; [done|]. right.
  destruct (latest_mtime_of_spec rs newest Hnew) as (Hpos & Hall & Hsome).
  cbv zeta in Hrun.
  destruct (Qeq_bool newest 0) eqn:Hzero; cbn [negb] in Hrun.
  - apply Qeq_bool_iff in Hzero. right. split; [done|]. split.
    + intros r m Hin Hchanged. specialize (Hall r m Hin Hchanged). lra.
    + destruct (float_le debounce_seconds debounce_seconds) eqn:Hrefl.
      * by apply float_le_refl.
      * destruct (float_le max_wait_seconds _); [by rewrite Hrun in Hret|].
        destruct (time_sleep p _); by rewrite Hrun in Hret.
  - apply Qeq_bool_neq in Hzero. left.
    destruct (float_le debounce_seconds (Finite _)) eqn:Hold.
    + split.
      * destruct Hsome as [Heq|(r & m & Hin & Hchanged & Heq)]; [done|].
        exists r, m. split; [done|]. split; [done|].
        destruct (Qlt_le_dec 0 m) as [|Hle]; [done|]. destruct Hzero. lra.
      * intros r m Hin Hchanged. specialize (Hall r m Hin Hchanged).
        refine (float_le_finite_mono _ _ _ _ Hold). lra.
    + destruct (float_le max_wait_seconds _); [by rewrite Hrun in Hret|].
      destruct (time_sleep p _); by rewrite Hrun in Hret.
Qed.

Lemma one_pass_next (clock' : Q) :
  pass = inr clock' →
  ¬ quiet_pass debounce_seconds p clock
  ∧ float_le max_wait_seconds
      (Finite (clock + before_quiet_reading p + before_timeout_reading p - start))
    = false
  ∧ ∃ z slept,
      time_sleep p (py_min poll_seconds (py_max (Finite (5 # 100)) z)) = inr slept
      ∧ clock' = clock + before_quiet_reading p + before_timeout_reading p + slept.
Proof.
  intros Hnext.
  destruct one_pass_cases as [[e He]|[[_ He]|(rs & newest & Hrows & Hne & Hnew & Hrun)]];
    [by rewrite He in Hnext..|].
  cbv zeta in Hrun.
  destruct (float_le debounce_seconds _) eqn:Hquiet; [by rewrite Hrun in Hnext|].
  destruct (float_le max_wait_seconds _) eqn:Hwait; [by rewrite Hrun in Hnext|].
  destruct (time_sleep p _) as [e|slept] eqn:Hsleep; [by rewrite Hrun in Hnext|].
  rewrite Hrun in Hnext. injection Hnext as <-.
  split; [|split; [done|eauto]].
  intros (rs' & Hrows' & Hq). rewrite Hrows in Hrows'. injection Hrows' as <-.
  destruct (latest_mtime_of_spec rs newest Hnew) as (Hpos & Hall & Hsome).
  destruct Hq as [Hnil|[[(r & m & Hin & Hchanged & Hm) Hold]|(_ & Hepoch & Hnan)]].
  - done.
  - specialize (Hall r m Hin Hchanged) as Hle.
    assert (Qeq_bool newest 0 = false) as Hzero.
    { apply not_true_iff_false. rewrite Qeq_bool_iff. lra. }
    rewrite Hzero in Hquiet. cbn [negb] in Hquiet.
    destruct Hsome as [Heq|(r' & m' & Hin' & Hchanged' & Heq)]; [lra|].
    specialize (Hold r' m' Hin' Hchanged').
    assert (float_le debounce_seconds
              (Finite (clock + before_quiet_reading p - newest)) = true) as Hquiet'.
    { refine (float_le_finite_mono _ _ _ _ Hold). lra. }
    by rewrite Hquiet' in Hquiet.
  - assert (Qeq_bool newest 0 = true) as Hzero.
    { apply Qeq_bool_iff.
      destruct Hsome as [Heq|(r' & m' & Hin' & Hchanged' & Heq)]; [done|].
      specialize (Hepoch r' m' Hin' Hchanged'). lra. }
    rewrite Hzero in Hquiet. cbn [negb] in Hquiet.
    by apply float_le_refl in Hnan; rewrite Hnan in Hquiet.
Qed.

(** The sleep that the loop asks for is no shorter than
    [shortest_sleep], and no longer than a finite [poll_seconds]. *)
Lemma sleep_request_bounds (z : PyFloat) (slept : Q) :
  poll_positive poll_seconds →
  time_sleep p (py_min poll_seconds (py_max (Finite (5 # 100)) z)) = inr slept →
  ∃ q, sleep p q = inr slept
       ∧ shortest_sleep poll_seconds <= q
       ∧ ∀ poll, poll_seconds = Finite poll → q <= poll.
Proof.
  unfold poll_positive, py_min, py_max, time_sleep, shortest_sleep, float_lt.
  destruct poll_seconds as [poll| | |], z as [zz| | |]; cbn;
    repeat (match goal with
            | |- context [Qle_bool ?a ?b] => destruct (Qle_bool a b) eqn:?; cbn
            end);
    try done; intros _ Hsleep; eexists; (split; [exact Hsleep|]);
    repeat match goal with
           | H : Qle_bool _ _ = true |- _ => apply Qle_bool_iff in H
           | H : Qle_bool _ _ = false |- _ => apply Qle_bool_false in H
           end;
    try (pose proof (Q.le_min_l poll (5 # 100));
         pose proof (Q.le_min_r poll (5 # 100)));
    (split; [lra|]); intros ? [= <-]; lra.
Qed.

Lemma sleep_request_finite (z : PyFloat) (poll : Q) :
  poll_seconds = Finite poll → 0 < poll →
  ∃ q, py_min poll_seconds (py_max (Finite (5 # 100)) z) = Finite q ∧ 0 <= q.
Proof.
  intros -> Hpoll. unfold py_min, py_max, float_lt.
  destruct z as [zz| | |]; cbn;
    repeat (match goal with
            | |- context [Qle_bool ?a ?b] => destruct (Qle_bool a b) eqn:?; cbn
            end);
    repeat match goal with
           | H : Qle_bool _ _ = true |- _ => apply Qle_bool_iff in H
           | H : Qle_bool _ _ = false |- _ => apply Qle_bool_false in H
           end;
    eexists; (split; [reflexivity|]); lra.
Qed.

(** A pass in which nothing raises and the worktree is not quiet goes on
    to the next one, when no timeout can end it. *)
Lemma one_pass_goes_on (poll : Q) :
  max_wait_seconds = PosInf ∨ max_wait_seconds = NaN →
  poll_seconds = Finite poll → 0 < poll →
  pass_answers p →
  ¬ quiet_pass debounce_seconds p clock →
  ∃ clock', pass = inr clock'.
Proof.
  intros Hwait Hpoll Hpos [(rs0 & Hrows0 & Hanswers) Hsleeps] Hbusy.
  destruct one_pass_cases as [[e He]|[[_ He]|(rs & newest & Hrows & Hne & Hnew & Hrun)]].
  - exfalso. unfold one_pass in He. rewrite Hrows0 in He.
    destruct rs0 as [|r rs']; [done|].
    destruct (latest_mtime_from_answers (r :: rs') 0 Hanswers) as [newest Hnew].
    unfold latest_mtime_of in He. rewrite Hnew in He. cbv zeta in He.
    destruct (float_le debounce_seconds _); [done|].
    rewrite (float_le_unbounded _ _ Hwait) in He.
    match type of He with
    | context [py_max _ ?z] =>
        destruct (sleep_request_finite z poll Hpoll Hpos) as (q & Hq & Hq0)
    end.
    rewrite Hq in He. cbn [time_sleep] in He.
    apply Qle_bool_iff in Hq0 as Hq0'. rewrite Hq0' in He.
    specialize (Hsleeps q Hq0). by destruct (sleep p q).
  - destruct Hbusy. by apply one_pass_returned_quiet.
  - cbv zeta in Hrun.
    destruct (float_le debounce_seconds _) eqn:Hquiet.
    { destruct Hbusy. by apply one_pass_returned_quiet. }
    rewrite (float_le_unbounded _ _ Hwait) in Hrun.
    match type of Hrun with
    | context [py_max _ ?z] =>
        destruct (sleep_request_finite z poll Hpoll Hpos) as (q & Hq & Hq0)
    end.
    rewrite Hq in Hrun. cbn [time_sleep] in Hrun.
    apply Qle_bool_iff in Hq0 as Hq0'. rewrite Hq0' in Hrun.
    specialize (Hsleeps q Hq0). destruct (sleep p q) as [e|slept]; [done|].
    by exists (clock + before_quiet_reading p + before_timeout_reading p + slept).
Qed.

End OnePass.

Section Loop.

Variables (debounce_seconds max_wait_seconds poll_seconds : PyFloat).
Variable env : nat → Pass.
Variable start : Q.

#[local] Abbreviation loop :=
  (wait_loop debounce_seconds max_wait_seconds poll_seconds env start).
#[local] Abbreviation time_of :=
  (clock_at debounce_seconds max_wait_seconds poll_seconds env start).
#[local] Abbreviation quiet :=
  (quiet_at debounce_seconds max_wait_seconds poll_seconds env start).
#[local] Abbreviation delta := (shortest_sleep poll_seconds).

Lemma shortest_sleep_positive : poll_positive poll_seconds → 0 < delta.
Proof.
  unfold poll_positive, shortest_sleep. destruct poll_seconds as [poll| | |]; cbn;
    try done.
  rewrite negb_true_iff, Qle_bool_false. intros Hpoll.
  apply Q.min_glb_lt; [done|reflexivity].
Qed.

(** With [n] sleeps left before the deadline, [S n] passes are enough. *)
Lemma wait_loop_enough (limit : Q) (n k : nat) (clock : Q) :
  poll_positive poll_seconds → clock_advances env →
  max_wait_seconds = Finite limit →
  limit - (clock - start) <= inject_Z (Z.of_nat n) * delta →
  loop (S n) k clock ≠ OutOfFuel.
Proof.
  intros Hpoll Hclock Hlimit. revert k clock.
  induction n as [|n IH]; intros k clock Hleft; cbn [wait_loop];
    destruct (one_pass _ _ _ _ (env k) clock) as [outcome|clock'] eqn:Hpass.
  - destruct (one_pass_cases debounce_seconds max_wait_seconds poll_seconds start
                (env k) clock)
      as [[e He]|[[_ He]|(rs & newest & _ & _ & _ & Hrun)]];
      rewrite Hpass in *; try by simplify_eq.
    cbv zeta in Hrun. destruct (float_le debounce_seconds _); [by simplify_eq|].
    destruct (float_le max_wait_seconds _); [by simplify_eq|].
    destruct (time_sleep _ _); by simplify_eq.
  - exfalso. destruct (one_pass_next _ _ _ _ _ _ _ Hpass) as (_ & Hwait & _).
    rewrite Hlimit in Hwait. cbn in Hwait. apply Qle_bool_false in Hwait.
    destruct (Hclock k) as (Hq & Ht & _).
    change (inject_Z (Z.of_nat 0)) with 0 in Hleft. lra.
  - destruct (one_pass_cases debounce_seconds max_wait_seconds poll_seconds start
                (env k) clock)
      as [[e He]|[[_ He]|(rs & newest & _ & _ & _ & Hrun)]];
      rewrite Hpass in *; try by simplify_eq.
    cbv zeta in Hrun. destruct (float_le debounce_seconds _); [by simplify_eq|].
    destruct (float_le max_wait_seconds _); [by simplify_eq|].
    destruct (time_sleep _ _); by simplify_eq.
  - apply IH.
    destruct (one_pass_next _ _ _ _ _ _ _ Hpass) as (_ & Hwait & z & slept & Hsleep & ->).
    destruct (sleep_request_bounds _ _ _ _ Hpoll Hsleep) as (q & Hq & Hshort & _).
    destruct (Hclock k) as (Hq0 & Ht & Hslept). specialize (Hslept q slept Hq).
    rewrite Nat2Z.inj_succ, <- Z.add_1_r, inject_Z_plus in Hleft.
    change (inject_Z 1) with 1 in Hleft. lra.
Qed.

(** More passes than needed do not change the outcome. *)
Lemma wait_loop_more_fuel (n m k : nat) (clock : Q) :
  loop n k clock ≠ OutOfFuel → loop (n + m) k clock = loop n k clock.
Proof.
  revert k clock. induction n as [|n IH]; intros k clock; [done|].
  cbn [wait_loop Nat.add]. destruct (one_pass _ _ _ _ _ _); [done|]. apply IH.
Qed.

Lemma enough_fuel_covers (limit : Q) :
  poll_positive poll_seconds →
  limit - (start - start)
  <= inject_Z (Z.of_nat (Z.to_nat (Qceiling (limit / delta)))) * delta.
Proof.
  intros Hpoll. pose proof (shortest_sleep_positive Hpoll) as Hd.
  assert (limit <= inject_Z (Z.of_nat (Z.to_nat (Qceiling (limit / delta)))) * delta)
    as H; [|lra].
  destruct (Z.le_gt_cases 0 (Qceiling (limit / delta))) as [Hpos|Hneg].
  - rewrite Z2Nat.id by done.
    pose proof (Qle_ceiling (limit / delta)) as Hc.
    apply (Qmult_le_compat_r _ _ delta) in Hc; [|lra].
    rewrite Qmult_comm, Qmult_div_r in Hc by lra. done.
  - rewrite Z2Nat.nonpos by lia. change (inject_Z (Z.of_nat 0)) with 0.
    pose proof (Qle_ceiling (limit / delta)) as Hc.
    assert (inject_Z (Qceiling (limit / delta)) < 0) as Hlt.
    { change 0 with (inject_Z 0). rewrite <- Zlt_Qlt. lia. }
    assert (limit / delta < 0) as Hq by lra.
    apply (Qmult_lt_compat_r _ _ delta) in Hq; [|done].
    rewrite Qmult_comm, Qmult_div_r in Hq by lra. lra.
Qed.

Lemma wait_loop_within_bound (limit : Q) (fuel : nat) :
  poll_positive poll_seconds → clock_advances env →
  max_wait_seconds = Finite limit →
  (enough_fuel limit poll_seconds <= fuel)%nat →
  loop fuel 0%nat start ≠ OutOfFuel
  ∧ loop fuel 0%nat start = loop (enough_fuel limit poll_seconds) 0%nat start.
Proof.
  intros Hpoll Hclock Hlimit Hfuel.
  pose proof (wait_loop_enough limit _ 0 start Hpoll Hclock Hlimit
                (enough_fuel_covers limit Hpoll)) as Hdone.
  fold (enough_fuel limit poll_seconds) in Hdone.
  replace fuel
    with (enough_fuel limit poll_seconds + (fuel - enough_fuel limit poll_seconds))%nat
    by lia.
  by rewrite wait_loop_more_fuel.
Qed.

(** Without a finite deadline, passes that are never quiet and in which
    nothing raises go on for ever. *)
Lemma wait_loop_never_ends (poll : Q) (fuel k : nat) :
  max_wait_seconds = PosInf ∨ max_wait_seconds = NaN →
  poll_seconds = Finite poll → 0 < poll →
  (∀ j, pass_answers (env j) ∧ ¬ quiet j) →
  loop fuel k (time_of k) = OutOfFuel.
Proof.
  intros Hwait Hpoll Hpos Hbusy. revert k.
  induction fuel as [|fuel IH]; intros k; [done|]. cbn [wait_loop].
  destruct (Hbusy k) as [Hanswers Hnot].
  destruct (one_pass_goes_on debounce_seconds max_wait_seconds poll_seconds start
              (env k) (time_of k) poll Hwait Hpoll Hpos Hanswers Hnot) as [clock' Hpass].
  rewrite Hpass. specialize (IH (S k)). cbn [clock_at] in IH. by rewrite Hpass in IH.
Qed.

(** The loop returns in the first pass that is quiet. *)
Lemma wait_loop_returned_first_quiet (fuel k : nat) :
  (∀ j, (j < k)%nat → ¬ quiet j) →
  loop fuel k (time_of k) = Returned →
  ∃ k', (k' < k + fuel)%nat ∧ quiet k' ∧ ∀ j, (j < k')%nat → ¬ quiet j.
Proof.
  revert k. induction fuel as [|fuel IH]; intros k Hbefore; [done|].
  cbn [wait_loop].
  destruct (one_pass _ _ _ _ (env k) (time_of k)) as [outcome|clock'] eqn:Hpass.
  - intros ->. exists k. split; [lia|]. split; [|done].
    by apply (one_pass_returned_quiet _ _ _ _ _ _ Hpass).
  - intros Hret.
    destruct (one_pass_next _ _ _ _ _ _ _ Hpass) as (Hnot & _).
    destruct (IH (S k)) as (k' & Hk' & Hquiet & Hfirst).
    + intros j Hj. destruct (decide (j = k)) as [->|]; [done|]. apply Hbefore. lia.
    + cbn [clock_at]. by rewrite Hpass.
    + exists k'. split; [lia|done].
Qed.

End Loop.

(** X13. The debounce wait with a finite deadline terminates. For
    [max_wait_seconds] a finite number, [poll_seconds] positive, and a
    clock that does not run backwards (no negative time between two
    readings, and a sleep that returns has lasted as long as asked), the
    function returns, raises the timeout or raises the exception of a pass
    ([git status], [stat], [is_file], [sleep]) within
    [enough_fuel] passes, a bound that depends on [max_wait_seconds] and
    [poll_seconds] only; more passes do not change the outcome. For
    [max_wait_seconds] infinite or NaN there is no deadline: with a
    positive [debounce_seconds] and a finite positive [poll_seconds], if
    nothing raises and no pass is quiet, the function never ends. *)
Theorem wait_for_worktree_quiet_terminates
    (debounce_seconds max_wait_seconds poll_seconds : Debounce.PyFloat)
    (env : nat → Debounce.Pass) (start : Q) :
  (∀ (limit : Q) (fuel : nat),
     poll_positive poll_seconds → clock_advances env →
     max_wait_seconds = Debounce.Finite limit →
     (Debounce.enough_fuel limit poll_seconds <= fuel)%nat →
     Debounce._wait_for_worktree_quiet debounce_seconds max_wait_seconds poll_seconds
       env start fuel ≠ Debounce.OutOfFuel
     ∧ Debounce._wait_for_worktree_quiet debounce_seconds max_wait_seconds poll_seconds
         env start fuel
       = Debounce._wait_for_worktree_quiet debounce_seconds max_wait_seconds
           poll_seconds env start (Debounce.enough_fuel limit poll_seconds))
  ∧ (∀ (poll : Q) (fuel : nat),
       max_wait_seconds = Debounce.PosInf ∨ max_wait_seconds = Debounce.NaN →
       Debounce.float_le debounce_seconds (Debounce.Finite 0) = false →
       poll_seconds = Debounce.Finite poll → 0 < poll →
       (∀ k, pass_answers (env k)
             ∧ ¬ quiet_at debounce_seconds max_wait_seconds poll_seconds env start k) →
       Debounce._wait_for_worktree_quiet debounce_seconds max_wait_seconds poll_seconds
         env start fuel = Debounce.OutOfFuel).
Proof.
  split.
  - intros limit fuel Hpoll Hclock Hlimit Hfuel. unfold _wait_for_worktree_quiet.
    destruct (float_le debounce_seconds _); [done|].
    by apply wait_loop_within_bound.
  - intros poll fuel Hwait Hdebounce Hpoll Hpos Hbusy. unfold _wait_for_worktree_quiet.
    rewrite Hdebounce.
    by apply (wait_loop_never_ends _ _ _ _ _ poll fuel 0).
Qed.

(** X14. The debounce wait returns only when the worktree is quiet. If
    the function returns, then [debounce_seconds <= 0] (it returns at
    once, without a look at the worktree), or it returns in the first
    quiet pass: that pass is quiet and no earlier one is, where quiet is
    one of three things: the status is clean; a row names a regular file
    modified after the epoch, and every regular file of the rows was
    modified at least [debounce_seconds] before the reading of the clock;
    or no row names a regular file modified after the epoch (the rows are
    deleted paths or directories) and [debounce_seconds] is not NaN.
    Conversely, for [max_wait_seconds] a finite number, [poll_seconds]
    positive, a clock that does not run backwards and [debounce_seconds]
    not [<= 0], if no pass is quiet (writes that never settle), the
    function raises within [enough_fuel] passes: the timeout, or the
    exception of a pass. *)
Theorem wait_for_worktree_quiet_times_out_unless_quiet
    (debounce_seconds max_wait_seconds poll_seconds : Debounce.PyFloat)
    (env : nat → Debounce.Pass) (start : Q) :
  (∀ fuel : nat,
     Debounce._wait_for_worktree_quiet debounce_seconds max_wait_seconds poll_seconds
       env start fuel = Debounce.Returned →
     Debounce.float_le debounce_seconds (Debounce.Finite 0) = true
     ∨ ∃ k, (k < fuel)%nat
            ∧ quiet_at debounce_seconds max_wait_seconds poll_seconds env start k
            ∧ ∀ j, (j < k)%nat →
                ¬ quiet_at debounce_seconds max_wait_seconds poll_seconds env start j)
  ∧ (∀ limit : Q,
       poll_positive poll_seconds → clock_advances env →
       max_wait_seconds = Debounce.Finite limit →
       Debounce.float_le debounce_seconds (Debounce.Finite 0) = false →
       (∀ k, ¬ quiet_at debounce_seconds max_wait_seconds poll_seconds env start k) →
       Debounce._wait_for_worktree_quiet debounce_seconds max_wait_seconds poll_seconds
         env start (Debounce.enough_fuel limit poll_seconds) = Debounce.TimedOut
       ∨ ∃ e, Debounce._wait_for_worktree_quiet debounce_seconds max_wait_seconds
                poll_seconds env start (Debounce.enough_fuel limit poll_seconds)
              = Debounce.Raised e).
Proof.
  split.
  - intros fuel. unfold _wait_for_worktree_quiet.
    destruct (float_le debounce_seconds _); [by left|]. intros Hret. right.
    apply (wait_loop_returned_first_quiet _ _ _ _ _ fuel 0); [|done].
    intros j Hj. lia.
  - intros limit Hpoll Hclock Hlimit Hdebounce Hbusy. unfold _wait_for_worktree_quiet.
    rewrite Hdebounce.
    destruct (wait_loop_within_bound debounce_seconds _ _ env start limit
                (enough_fuel limit poll_seconds) Hpoll Hclock Hlimit (le_n _))
      as [Hdone _].
    destruct (wait_loop _ _ _ _ _ _ _ _) as [| |e|] eqn:Hout; [|by left|by eauto|done].
    destruct (wait_loop_returned_first_quiet _ _ _ _ _ _ 0 ltac:(intros j Hj; lia) Hout)
      as (k & _ & Hk & _).
    by destruct (Hbusy k).
Qed.

End DebounceFacts.

Section DebounceSamples.

Import Debounce.
Local Open Scope Q_scope.

Lemma sample_clock_advances : clock_advances SampleDebounce.busy.
Proof.
  intros k. cbn. repeat split; try discriminate.
  intros q slept [= <-]. lra.
Qed.

Lemma busy_answers (k : nat) : pass_answers (SampleDebounce.busy k).
Proof.
  split; [|done]. eexists. split; [reflexivity|].
  intros r Hin. apply list_elem_of_singleton in Hin as ->.
  right. right. by eexists _, _.
Qed.

Lemma busy_clock_bound (max_wait_seconds : PyFloat) (k : nat) :
  clock_at (Finite 3) max_wait_seconds (Finite (1 # 2)) SampleDebounce.busy 1000 k
  <= inject_Z (Z.of_nat k) * (6 # 10) + 1000.
Proof.
  induction k as [|k IH].
  - cbn [clock_at]. change (inject_Z (Z.of_nat 0)) with 0. lra.
  - cbn [clock_at]. rewrite Nat2Z.inj_succ, <- Z.add_1_r, inject_Z_plus.
    change (inject_Z 1) with 1.
    destruct (one_pass _ _ _ _ _ _) as [outcome|clock'] eqn:Hpass; [lra|].
    destruct (one_pass_next _ _ _ _ _ _ _ Hpass) as (_ & _ & z & slept & Hsleep & ->).
    destruct (sleep_request_bounds (Finite (1 # 2)) _ _ _ eq_refl Hsleep)
      as (q & Hq & _ & Hpoll).
    specialize (Hpoll _ eq_refl). cbn in Hq. injection Hq as <-.
    cbn [SampleDebounce.busy before_quiet_reading before_timeout_reading]. lra.
Qed.

Lemma busy_never_quiet (max_wait_seconds : PyFloat) (k : nat) :
  ¬ quiet_at (Finite 3) max_wait_seconds (Finite (1 # 2)) SampleDebounce.busy 1000 k.
Proof.
  intros (rs & Hrows & Hquiet). cbn in Hrows. injection Hrows as <-.
  pose proof (busy_clock_bound max_wait_seconds k) as Hclock.
  assert (0 <= inject_Z (Z.of_nat k)) as Hk.
  { change 0 with (inject_Z 0). rewrite <- Zle_Qle. lia. }
  match type of Hquiet with
  | context [[?row]] =>
      assert (changed_at row (inject_Z (Z.of_nat k) * (6 # 10) + 1000)) as Hchanged
        by done;
      assert (row ∈ [row]) as Hin by apply list_elem_of_here
  end.
  destruct Hquiet as [Hnil|[[_ Hold]|(_ & Hepoch & _)]].
  - done.
  - specialize (Hold _ _ Hin Hchanged). cbn in Hold. apply Qle_bool_iff in Hold. lra.
  - specialize (Hepoch _ _ Hin Hchanged). lra.
Qed.

End DebounceSamples.

Lemma wait_for_worktree_quiet_terminates_witness :
  Debounce._wait_for_worktree_quiet (Debounce.Finite 3) (Debounce.Finite 3)
    (Debounce.Finite (1 # 2)) SampleDebounce.busy 1000 100 = Debounce.TimedOut
  ∧ Debounce._wait_for_worktree_quiet (Debounce.Finite 3) Debounce.PosInf
      (Debounce.Finite (1 # 2)) SampleDebounce.busy 1000 1000 = Debounce.OutOfFuel.
Proof.
  split.
  - destruct (proj1 (wait_for_worktree_quiet_terminates (Debounce.Finite 3)
                       (Debounce.Finite 3) (Debounce.Finite (1 # 2))
                       SampleDebounce.busy 1000)
                3%Q 100%nat eq_refl sample_clock_advances eq_refl) as [_ ->].
    + vm_compute. lia.
    + vm_compute. reflexivity.
  - apply (proj2 (wait_for_worktree_quiet_terminates (Debounce.Finite 3)
                    Debounce.PosInf (Debounce.Finite (1 # 2))
                    SampleDebounce.busy 1000) (1 # 2)%Q 1000%nat).
    + by left.
    + reflexivity.
    + reflexivity.
    + reflexivity.
    + intros k. split; [apply busy_answers|apply busy_never_quiet].
Defined.

Lemma wait_for_worktree_quiet_times_out_unless_quiet_witness :
  (Debounce.float_le (Debounce.Finite 3) (Debounce.Finite 0) = true
   ∨ ∃ k, (k < 100)%nat
          ∧ quiet_at (Debounce.Finite 3) (Debounce.Finite 20) (Debounce.Finite (1 # 2))
              SampleSettled.settled 1000 k
          ∧ ∀ j, (j < k)%nat →
              ¬ quiet_at (Debounce.Finite 3) (Debounce.Finite 20)
                  (Debounce.Finite (1 # 2)) SampleSettled.settled 1000 j)
  ∧ (Debounce._wait_for_worktree_quiet (Debounce.Finite 3) (Debounce.Finite 20)
       (Debounce.Finite (1 # 2)) SampleDebounce.busy 1000
       (Debounce.enough_fuel 20 (Debounce.Finite (1 # 2))) = Debounce.TimedOut
     ∨ ∃ e, Debounce._wait_for_worktree_quiet (Debounce.Finite 3) (Debounce.Finite 20)
              (Debounce.Finite (1 # 2)) SampleDebounce.busy 1000
              (Debounce.enough_fuel 20 (Debounce.Finite (1 # 2))) = Debounce.Raised e).
Proof.
  split.
  - apply (proj1 (wait_for_worktree_quiet_times_out_unless_quiet (Debounce.Finite 3)
                    (Debounce.Finite 20) (Debounce.Finite (1 # 2))
                    SampleSettled.settled 1000) 100%nat).
    vm_compute. reflexivity.
  - apply (proj2 (wait_for_worktree_quiet_times_out_unless_quiet (Debounce.Finite 3)
                    (Debounce.Finite 20) (Debounce.Finite (1 # 2))
                    SampleDebounce.busy 1000) 20%Q).
    + reflexivity.
    + apply sample_clock_advances.
    + reflexivity.
    + reflexivity.
    + apply busy_never_quiet.
Defined.

(** ** The journal *)

Section JournalFacts.

Import Journal.

Variable json_loads : string → option Json.
Variable py_int : Json → option Z.
Variable py_str : Json → option string.

#[local] Abbreviation key_le := (λ x y : JournalEntry, key_leb x y = true).

Lemma key_leb_total (x y : JournalEntry) : key_leb x y = false → key_leb y x = true.
Proof.
  unfold key_leb. rewrite orb_false_iff, andb_false_iff, orb_true_iff, andb_true_iff.
  rewrite !Z.ltb_ge, !Z.ltb_lt, !Z.eqb_eq, Z.eqb_neq, Nat.leb_le, Nat.leb_gt. lia.
Qed.

Lemma key_leb_trans (x y z : JournalEntry) :
  key_leb x y = true → key_leb y z = true → key_leb x z = true.
Proof.
  unfold key_leb. rewrite !orb_true_iff, !andb_true_iff.
  rewrite !Z.ltb_lt, !Z.eqb_eq, !Nat.leb_le. lia.
Qed.

Lemma insert_sorted_perm (x : JournalEntry) (l : list JournalEntry) :
  insert_sorted x l ≡ₚ x :: l.
Proof.
  induction l as [|y l IH]; [done|]. cbn [insert_sorted].
  destruct (key_leb y x); [|done]. rewrite IH. apply Permutation_swap.
Qed.

Lemma insert_sorted_sorted (x : JournalEntry) (l : list JournalEntry) :
  StronglySorted key_le l → StronglySorted key_le (insert_sorted x l).
Proof.
  induction 1 as [|y l Hl IH Hy]; cbn [insert_sorted].
  - by repeat constructor.
  - destruct (key_leb y x) eqn:Hyx.
    + constructor; [done|]. rewrite insert_sorted_perm. by constructor.
    + constructor; [by constructor|]. apply key_leb_total in Hyx.
      constructor; [done|]. eapply Forall_impl; [exact Hy|].
      intros z Hz. by eapply key_leb_trans.
Qed.

Lemma sort_fold_spec (l acc : list JournalEntry) :
  StronglySorted key_le acc →
  fold_left (λ acc' x, insert_sorted x acc') l acc ≡ₚ l ++ acc
  ∧ StronglySorted key_le (fold_left (λ acc' x, insert_sorted x acc') l acc).
Proof.
  revert acc. induction l as [|x l IH]; intros acc Hacc; [done|].
  cbn [fold_left]. destruct (IH (insert_sorted x acc)) as [Hperm Hsorted].
  { by apply insert_sorted_sorted. }
  split; [|done]. rewrite Hperm, insert_sorted_perm. cbn.
  by rewrite Permutation_middle.
Qed.

Lemma sort_by_key_spec (l : list JournalEntry) :
  sort_by_key l ≡ₚ l ∧ StronglySorted key_le (sort_by_key l).
Proof.
  destruct (sort_fold_spec l []) as [Hperm Hsorted]; [constructor|].
  split; [|done]. unfold sort_by_key. by rewrite Hperm, app_nil_r.
Qed.

(** The entries read so far have indices below [idx], in increasing order. *)
Lemma read_lines_indices (lines : list string) (idx : nat)
    (entries : list JournalEntry) (invalid : nat) :
  StronglySorted (λ x y, (index x < index y)%nat) entries →
  Forall (λ e, (index e < idx)%nat) entries →
  (length entries + invalid <= idx)%nat →
  let res := read_lines json_loads py_int py_str idx lines entries invalid in
  StronglySorted (λ x y, (index x < index y)%nat) res.1
  ∧ Forall (λ e, (index e < idx + length lines)%nat) res.1
  ∧ (length res.1 + res.2 <= idx + length lines)%nat.
Proof.
  revert idx entries invalid.
  induction lines as [|raw lines IH]; intros idx entries invalid Hsorted Hbound Hcount.
  { cbn. rewrite Nat.add_0_r. done. }
  cbn [read_lines length].
  replace (idx + S (length lines))%nat with (S idx + length lines)%nat by lia.
  assert (Forall (λ e, (index e < S idx)%nat) entries) as Hbound'.
  { eapply Forall_impl; [exact Hbound|]. cbn. lia. }
  destruct (read_line json_loads py_int py_str idx raw) as [[e|]|] eqn:Hline.
  - assert (index e = idx) as He.
    { unfold read_line in Hline. destruct (String.eqb _ ""); [done|].
      destruct (json_loads _) as [[]|]; try done.
      apply (inj Some) in Hline.
      do 5 (apply bind_Some in Hline; destruct Hline as (? & _ & Hline)).
      by injection Hline as <-. }
    apply IH.
    + apply StronglySorted_app_2; [|done|by repeat constructor].
      intros x y Hx ->%list_elem_of_singleton.
      rewrite Forall_forall in Hbound. rewrite He. by apply Hbound.
    + apply Forall_app. split; [done|]. constructor; [lia|constructor].
    + rewrite length_app. cbn. lia.
  - apply IH; [done|done|lia].
  - apply IH; [done|done|lia].
Qed.

Lemma read_journal_entries_indexed_aux (journal : option (list string)) :
  StronglySorted (λ x y, (index x < index y)%nat)
    (_read_journal_entries json_loads py_int py_str journal).1.
Proof.
  destruct journal as [lines|]; cbn; [|constructor].
  by destruct (read_lines_indices lines 0 [] 0) as (Hs & _);
    [constructor|constructor|cbn; lia|].
Qed.



End JournalFacts.

(** ** Commands: every run *)

Lemma exec_always {A : Type} (World : Type)
    (respond : ∀ X : Type, Request X → World → X * World)
    (P : list Event → Exn + A → Prop) (p : Prog A) (w : World) :
  always P p → P (exec World respond p w).2 (exec World respond p w).1.1.
Proof.
  revert P w. induction p as [a|e|X rq k IH]; intros P w Hp; [done|done|].
  cbn [exec]. destruct (respond X rq w) as [x w'].
  specialize (IH x _ w' (Hp x)).
  by destruct (exec World respond (k x) w') as [[r w''] evs].
Qed.

(** One step of a command: the next request is answered by a fresh
    variable, a test on an answer is decided both ways. *)
Ltac head_case p :=
  lazymatch p with
  | prog_bind _ ?q => head_case q
  | try_finally ?q _ => head_case q
  | try_except ?q _ => head_case q
  | lift_result ?r => destruct r eqn:?
  | or_raise ?r => destruct r eqn:?
  | raise_if ?r => destruct r eqn:?
  | match ?c with _ => _ end => destruct c eqn:?
  end.

Ltac run_step :=
  first
    [ progress cbn [always prog_bind try_finally try_except ask raise_hydra lift_result
                    or_raise raise_if send_keys event_of andb negb fst snd]
    | lazymatch goal with
      | |- ∀ _, _ => intro
      | |- always _ ?p => head_case p
      end ].

(** The property is kept folded while the command runs. *)
Ltac run_all :=
  let Q := fresh "Q" in
  let HQ := fresh "HQ" in
  lazymatch goal with |- always ?P _ => remember P as Q eqn:HQ end;
  repeat run_step;
  subst Q; cbn beta.

Ltac decide_codes :=
  repeat match goal with
  | H : negb _ = true |- _ => apply negb_true_iff in H
  | H : negb _ = false |- _ => apply negb_false_iff in H
  | H : (_ =? _) = true |- _ => apply Z.eqb_eq in H
  | H : (_ =? _) = false |- _ => apply Z.eqb_neq in H
  end.

(** An event of an explicit trace: one case for each position. *)
Ltac in_trace H :=
  repeat (apply elem_of_cons in H as [H|H]; [try discriminate H|]);
  try (apply elem_of_nil in H; destruct H).

Ltac find_event :=
  repeat first [apply list_elem_of_here | apply list_elem_of_further].

Ltac find_sublist :=
  repeat first [apply sublist_nil_l | apply sublist_skip | apply sublist_cons].

Ltac unfold_helpers :=
  unfold _default_trunk_ref, find_agent_worktree, _ensure_worktree_clean,
    _abort_revert, _abort_merge, _resolve_commit, _list_changed_files,
    _find_worktree_by_branch, _git_ref_exists, _run.

(** *** [cmd_rollback] *)

Lemma rollback_not_ancestor_always (ps : Paths) (args : RollbackArgs) :
  always (λ evs r, ∀ cwd c b code,
            Ran cwd ["git"; "merge-base"; "--is-ancestor"; c; b] code ∈ evs →
            code ≠ 0 →
            (∃ msg, r = inl (EHydra msg))
            ∧ last evs = Some (Ran cwd ["git"; "merge-base"; "--is-ancestor"; c; b] code))
    (cmd_rollback ps args).
Proof.
  unfold cmd_rollback, rollback_body. unfold_helpers. run_all.
  all: intros ? ? ? ? Hin Hne; decide_codes.
  all: in_trace Hin.
  all: injection Hin as -> -> -> ->; try done.
  all: split; [by eexists|done].
Qed.

Lemma rollback_commit_always (ps : Paths) (args : RollbackArgs) :
  always (λ evs r, ∀ cwd rest code,
            Ran cwd ("git" :: "commit" :: rest) code ∈ evs →
            ∃ c b, [Ran (root ps) ["git"; "merge-base"; "--is-ancestor"; c; b] 0;
                    Ran cwd ["git"; "revert"; "--no-commit"; c ++ "..HEAD"] 0;
                    Ran cwd ("git" :: "commit" :: rest) code] `sublist_of` evs)
    (cmd_rollback ps args).
Proof.
  unfold cmd_rollback, rollback_body. unfold_helpers. run_all.
  all: intros ? ? ? Hin; decide_codes.
  all: in_trace Hin.
  all: injection Hin as -> -> ->.
  all: repeat match goal with H : returncode _ = 0 |- _ => rewrite !H; clear H end.
  all: do 2 eexists; find_sublist.
Qed.

Lemma rollback_failed_revert_always (ps : Paths) (args : RollbackArgs) :
  always (λ evs r, ∀ cwd range code,
            Ran cwd ["git"; "revert"; "--no-commit"; range] code ∈ evs → code ≠ 0 →
            (∃ msg, r = inl (EHydra msg))
            ∧ (∃ c, Ran cwd ["git"; "revert"; "--abort"] c ∈ evs)
            ∧ ∀ ev, ev ∈ evs → ¬ is_commit ev)
    (cmd_rollback ps args).
Proof.
  unfold cmd_rollback, rollback_body. unfold_helpers. run_all.
  all: intros ? ? ? Hin Hne; decide_codes.
  all: in_trace Hin.
  all: injection Hin as -> -> ->; try done.
  all: split; [by eexists|split].
  all: try (eexists; find_event).
  all: intros ev Hev (? & ? & ? & ->); in_trace Hev.
Qed.

Lemma rollback_worktree_always (ps : Paths) (args : RollbackArgs) :
  always (λ evs r, ∀ cwd wt branch,
            Ran cwd ["git"; "worktree"; "add"; wt; branch] 0 ∈ evs →
            ∃ c, last evs = Some (Ran cwd ["git"; "worktree"; "remove"; "--force"; wt] c))
    (cmd_rollback ps args).
Proof.
  unfold cmd_rollback, rollback_body. unfold_helpers. run_all.
  all: intros ? ? ? Hin; decide_codes.
  all: in_trace Hin.
  all: injection Hin as -> -> -> Hcode; try done.
  all: by eexists.
Qed.

Section RollbackRuns.

Variable World : Type.
Variable respond : ∀ X : Type, Request X → World → X * World.
Variable ps : Paths.
Variable args : RollbackArgs.
Variable w : World.

(** X17. [cmd_rollback] refuses a target that is not an ancestor of the
    agent branch: when [git merge-base --is-ancestor] leaves with a status
    other than 0, the command raises [HydraError] and that check is the last
    thing it did (no worktree is created, nothing is reverted or
    committed), whatever the collaborators answer. *)
Theorem rollback_not_ancestor_stops (cwd c b : string) (code : Z) :
  Ran cwd ["git"; "merge-base"; "--is-ancestor"; c; b] code
    ∈ (exec World respond (cmd_rollback ps args) w).2 →
  code ≠ 0 →
  (∃ msg, (exec World respond (cmd_rollback ps args) w).1.1 = inl (EHydra msg))
  ∧ last (exec World respond (cmd_rollback ps args) w).2
    = Some (Ran cwd ["git"; "merge-base"; "--is-ancestor"; c; b] code).
Proof. apply (exec_always _ _ _ _ _ (rollback_not_ancestor_always ps args)). Qed.

(** X18. [cmd_rollback] commits only a range it has reverted: a run with
    a [git commit] has, before it and in this order, the ancestor check of
    the target commit [c] leaving with status 0 and
    [git revert --no-commit c..HEAD] leaving with status 0 in the worktree
    of the commit. *)
Theorem rollback_commits_reverted_range (cwd : string) (rest : list string) (code : Z) :
  Ran cwd ("git" :: "commit" :: rest) code
    ∈ (exec World respond (cmd_rollback ps args) w).2 →
  ∃ c b, [Ran (root ps) ["git"; "merge-base"; "--is-ancestor"; c; b] 0;
          Ran cwd ["git"; "revert"; "--no-commit"; c ++ "..HEAD"] 0;
          Ran cwd ("git" :: "commit" :: rest) code]
            `sublist_of` (exec World respond (cmd_rollback ps args) w).2.
Proof. apply (exec_always _ _ _ _ _ (rollback_commit_always ps args)). Qed.

(** X19. A revert that fails is aborted: when [git revert --no-commit]
    leaves with a status other than 0, [cmd_rollback] runs
    [git revert --abort] in the same worktree, raises [HydraError] and
    makes no commit. *)
Theorem rollback_failed_revert_is_aborted (cwd range : string) (code : Z) :
  Ran cwd ["git"; "revert"; "--no-commit"; range] code
    ∈ (exec World respond (cmd_rollback ps args) w).2 →
  code ≠ 0 →
  (∃ msg, (exec World respond (cmd_rollback ps args) w).1.1 = inl (EHydra msg))
  ∧ (∃ c, Ran cwd ["git"; "revert"; "--abort"] c
    ∈ (exec World respond (cmd_rollback ps args) w).2)
  ∧ ∀ ev, ev ∈ (exec World respond (cmd_rollback ps args) w).2 → ¬ is_commit ev.
Proof. apply (exec_always _ _ _ _ _ (rollback_failed_revert_always ps args)). Qed.

(** X20. The [finally] clause of [cmd_rollback]: a temporary worktree that
    [git worktree add] has created is removed with
    [git worktree remove --force] as the last thing the command does,
    whether it returns or raises. *)
Theorem rollback_removes_created_worktree (cwd wt branch : string) :
  Ran cwd ["git"; "worktree"; "add"; wt; branch] 0
    ∈ (exec World respond (cmd_rollback ps args) w).2 →
  ∃ c, last (exec World respond (cmd_rollback ps args) w).2
       = Some (Ran cwd ["git"; "worktree"; "remove"; "--force"; wt] c).
Proof. apply (exec_always _ _ _ _ _ (rollback_worktree_always ps args)). Qed.

End RollbackRuns.

Lemma rollback_not_ancestor_stops_witness :
  (∃ msg, (exec Scripted.World Scripted.respond
             (cmd_rollback SampleRollback.ps SampleRollback.args)
             (SampleRollback.world 0 1)).1.1 = inl (EHydra msg))
  ∧ last (exec Scripted.World Scripted.respond
            (cmd_rollback SampleRollback.ps SampleRollback.args)
            (SampleRollback.world 0 1)).2
    = Some (Ran "/repo" ["git"; "merge-base"; "--is-ancestor"; "0123456789abcdef";
                         "agent/alice/t1"] 1).
Proof.
  apply (rollback_not_ancestor_stops Scripted.World Scripted.respond
           SampleRollback.ps SampleRollback.args (SampleRollback.world 0 1)).
  - apply (list_elem_of_lookup_2 _ 4). vm_compute. reflexivity.
  - lia.
Defined.

Lemma rollback_commits_reverted_range_witness :
  ∃ c b,
    [Ran (root SampleRollback.ps) ["git"; "merge-base"; "--is-ancestor"; c; b] 0;
     Ran "/repo/.hydra/worktrees/rollback-alice-t1-1700000000"
       ["git"; "revert"; "--no-commit"; c ++ "..HEAD"] 0;
     Ran "/repo/.hydra/worktrees/rollback-alice-t1-1700000000"
       ("git" :: "commit" :: ["-m"; "Rollback agent/alice/t1 to HEAD~2 (0123456789ab)"]) 0]
    `sublist_of`
    (exec Scripted.World Scripted.respond
       (cmd_rollback SampleRollback.ps SampleRollback.args)
       (SampleRollback.world 0 0)).2.
Proof.
  apply (rollback_commits_reverted_range Scripted.World Scripted.respond
           SampleRollback.ps SampleRollback.args (SampleRollback.world 0 0)).
  apply (list_elem_of_lookup_2 _ 13). vm_compute. reflexivity.
Defined.

Lemma rollback_failed_revert_is_aborted_witness :
  (∃ msg, (exec Scripted.World Scripted.respond
             (cmd_rollback SampleRollback.ps SampleRollback.args)
             (SampleRollback.world 1 0)).1.1 = inl (EHydra msg))
  ∧ (∃ c, Ran "/repo/.hydra/worktrees/rollback-alice-t1-1700000000"
            ["git"; "revert"; "--abort"] c
          ∈ (exec Scripted.World Scripted.respond
               (cmd_rollback SampleRollback.ps SampleRollback.args)
               (SampleRollback.world 1 0)).2)
  ∧ ∀ ev, ev ∈ (exec Scripted.World Scripted.respond
                  (cmd_rollback SampleRollback.ps SampleRollback.args)
                  (SampleRollback.world 1 0)).2 → ¬ is_commit ev.
Proof.
  apply (rollback_failed_revert_is_aborted Scripted.World Scripted.respond
           SampleRollback.ps SampleRollback.args (SampleRollback.world 1 0)
           _ "0123456789abcdef..HEAD" 1).
  - apply (list_elem_of_lookup_2 _ 12). vm_compute. reflexivity.
  - lia.
Defined.

Lemma rollback_removes_created_worktree_witness :
  ∃ c, last (exec Scripted.World Scripted.respond
               (cmd_rollback SampleRollback.ps SampleRollback.args)
               (SampleRollback.world 1 0)).2
       = Some (Ran "/repo" ["git"; "worktree"; "remove"; "--force";
                            "/repo/.hydra/worktrees/rollback-alice-t1-1700000000"] c).
Proof.
  apply (rollback_removes_created_worktree Scripted.World Scripted.respond
           SampleRollback.ps SampleRollback.args (SampleRollback.world 1 0)
           _ _ "agent/alice/t1").
  apply (list_elem_of_lookup_2 _ 9). vm_compute. reflexivity.
Defined.

(** *** Composition of runs *)

Lemma always_mono {A : Type} (P Q : list Event → Exn + A → Prop) (p : Prog A) :
  (∀ evs r, P evs r → Q evs r) → always P p → always Q p.
Proof.
  revert P Q. induction p as [a|e|X rq k IH]; intros P Q HPQ; cbn [always]; [auto|auto|].
  intros Hp x. eapply IH; [|apply Hp]. cbn beta. auto.
Qed.

Lemma always_bind {A B : Type} (P : list Event → Exn + B → Prop)
    (k : A → Prog B) (p : Prog A) :
  always (λ evs1 r1, match r1 with
                     | inr a => always (λ evs2 r2, P (evs1 ++ evs2)%list r2) (k a)
                     | inl e => P evs1 (inl e)
                     end) p →
  always P (prog_bind k p).
Proof.
  revert P. induction p as [a|e|X rq h IH]; intros P; cbn [always prog_bind].
  - intros H. eapply always_mono; [|exact H]. done.
  - done.
  - intros H x. apply IH. eapply always_mono; [|apply H].
    intros evs [e|a]; cbn beta iota; [done|].
    apply always_mono. done.
Qed.

Lemma always_try_finally {A : Type} (P : list Event → Exn + A → Prop)
    (body : Prog A) (cleanup : Prog unit) :
  always (λ evs1 r1,
            always (λ evs2 r2, P (evs1 ++ evs2)%list
                                 match r2 with inl e => inl e | inr _ => r1 end)
              cleanup) body →
  always P (try_finally body cleanup).
Proof.
  revert P. induction body as [a|e|X rq h IH]; intros P; cbn [always try_finally].
  - intros H. apply always_bind. eapply always_mono; [|exact H].
    intros evs [e|[]]; cbn; [done|]. by rewrite app_nil_r.
  - intros H. apply always_bind. eapply always_mono; [|exact H].
    intros evs [e'|[]]; cbn; [done|]. by rewrite app_nil_r.
  - intros H x. apply IH. eapply always_mono; [|apply H].
    intros evs r. apply always_mono. done.
Qed.

Lemma always_print_each {A : Type} (P : list Event → Exn + A → Prop)
    (lines : list string) (k : unit → Prog A) :
  always (λ evs r, P ((Printed <$> lines) ++ evs)%list r) (k ()) →
  always P (prog_bind k (print_each lines)).
Proof.
  revert P. induction lines as [|line lines IH]; intros P Hk; [done|].
  cbn [print_each prog_bind ask always event_of]. intros []. by apply IH.
Qed.

Lemma always_bind_assoc {A B C : Type} (P : list Event → Exn + C → Prop)
    (k1 : B → Prog C) (k2 : A → Prog B) (p : Prog A) :
  always P (prog_bind (λ x, prog_bind k1 (k2 x)) p) →
  always P (prog_bind k1 (prog_bind k2 p)).
Proof.
  revert P. induction p as [a|e|X rq h IH]; intros P; cbn [always prog_bind]; [done|done|].
  intros H x. apply IH, H.
Qed.

Ltac run_prints :=
  lazymatch goal with
  | |- always _ (prog_bind _ (print_each _)) => apply always_print_each
  | |- always _ (prog_bind _ (prog_bind _ _)) => apply always_bind_assoc
  end.

Ltac run_all_prints :=
  let Q := fresh "Q" in
  let HQ := fresh "HQ" in
  lazymatch goal with |- always ?P _ => remember P as Q eqn:HQ end;
  repeat first [run_step | run_prints];
  subst Q; cbn beta.

(** An event of a trace that has printed lines in it. *)
Ltac in_long_trace H :=
  repeat first
    [ apply elem_of_cons in H as [H|H]; [try discriminate H|]
    | apply elem_of_app in H as [H|H];
      [apply list_elem_of_fmap in H as (? & H & _); try discriminate H|]
    | apply elem_of_nil in H; destruct H ].

Ltac find_long_event :=
  repeat first [apply list_elem_of_here | apply list_elem_of_further
               | apply elem_of_app; right].

(** *** [cmd_merge] *)

Lemma not_cleanup_not_add (ev : Event) :
  match ev with
  | Ran _ ("tmux" :: "kill-session" :: _) _ => False
  | Ran _ ("git" :: "branch" :: "-D" :: _) _ => False
  | Ran _ ("git" :: "worktree" :: "add" :: _) _ => False
  | PrintedErr _ => False
  | _ => True
  end → ¬ is_merge_cleanup ev ∧ ¬ is_worktree_add ev.
Proof.
  intros Hev. split.
  - intros [(? & ? & ? & ->)|[(? & ? & ? & ->)|(? & ->)]]; exact Hev.
  - intros (? & ? & ? & ->); exact Hev.
Qed.

Ltac no_cleanup :=
  let ev := fresh "ev" in
  let Hev := fresh "Hev" in
  intros ev Hev; apply not_cleanup_not_add; in_long_trace Hev; subst ev; exact I.

Ltac only_collect :=
  let db := fresh "db" in
  let Hin := fresh "Hin" in
  intros db Hin; in_long_trace Hin; injection Hin as ->;
  do 2 eexists; (split; [reflexivity|find_sublist]).

Ltac failed_attempt :=
  let Hev := fresh "Hev" in
  let Heq := fresh "Heq" in
  let Hc := fresh "Hc" in
  intros ? ? ? Hev (? & [Heq|Heq]) ?; in_long_trace Hev; subst;
  try discriminate Heq; injection Heq as <- <- <-; try done;
  first
    [ left; split; [reflexivity|]; intros ? Hc; in_long_trace Hc
    | right; split; [by eexists|]; left; eexists; solve [find_long_event]
    | right; split; [by eexists|]; right;
      match goal with
      | H : returncode ?x ≠ 0 |- _ =>
          exists (returncode x); split; [exact H|solve [find_long_event]]
      end ].

Lemma merge_body_always (ps : Paths) (args : MergeArgs)
    (a task_id branch branch_ref trunk trunk_worktree : string) :
  always merge_body_ok
    (merge_body ps args a task_id branch branch_ref trunk trunk_worktree).
Proof.
  unfold merge_body, merge_step, merge_failed, merge_lock_check.
  unfold_helpers.
  run_all_prints.
  all: decide_codes.
  all: split; [no_cleanup|split; [only_collect|failed_attempt]].
Qed.

Lemma not_attempt_not_add (ev : Event) :
  match ev with
  | Ran _ ("git" :: "merge" :: _) _ => False
  | Ran _ ("git" :: "worktree" :: "add" :: _) _ => False
  | _ => True
  end → (∀ cwd code, ¬ is_merge_attempt cwd code ev) ∧ ¬ is_worktree_add ev.
Proof.
  intros Hev. split.
  - intros ? ? (? & [->| ->]); exact Hev.
  - intros (? & ? & ? & ->); exact Hev.
Qed.

Lemma merge_cleanup_always (ps : Paths) (a task_id branch branch_ref merged_sha : string) :
  always (λ evs _, merge_cleanup_ok evs)
    (merge_cleanup ps a task_id branch branch_ref merged_sha).
Proof.
  unfold merge_cleanup. unfold_helpers. run_all.
  all: intros ev Hev; apply not_attempt_not_add; in_trace Hev; subst ev; exact I.
Qed.

(** The runs of the [try ... finally] block and what follows it: the
    events of the block, then of the [finally] clause, then of the
    clean-up when the block has returned a merged commit. *)
Lemma merge_in_worktree_always (ps : Paths) (args : MergeArgs)
    (a task_id branch branch_ref trunk wt : string) (created : bool) :
  always (λ evs r, ∃ e1 r1 e2 e3,
            evs = (e1 ++ e2 ++ e3)%list
            ∧ merge_body_ok e1 r1
            ∧ (if created
               then ∃ c, e2 = [Ran (root ps) ["git"; "worktree"; "remove"; "--force"; wt] c]
               else e2 = [])
            ∧ match r1 with
              | inl e => r = inl e ∧ e3 = []
              | inr (inl code) => r = inr code ∧ e3 = []
              | inr (inr _) => merge_cleanup_ok e3
              end)
    (merge_in_worktree ps args a task_id branch branch_ref trunk wt created).
Proof.
  unfold merge_in_worktree. apply always_bind, always_try_finally.
  eapply always_mono; [|apply merge_body_always]. cbn beta.
  intros e1 r1 Hbody.
  assert (always (λ evs2 (r2 : Exn + unit),
                    r2 = inr ()
                    ∧ if created
                      then ∃ c, evs2 = [Ran (root ps) ["git"; "worktree"; "remove";
                                                       "--force"; wt] c]
                      else evs2 = [])
            (if created
             then prog_bind (λ _, Ret ())
                    (_run ["git"; "worktree"; "remove"; "--force"; wt] (root ps) false [])
             else Ret ())) as Hfin.
  { destruct created; [|done]. unfold _run. cbn. intros x. split; [done|by eexists]. }
  eapply always_mono; [|exact Hfin]. cbn beta.
  intros e2 r2 [-> He2].
  destruct r1 as [e|[code|sha]].
  - exists e1, (inl e), e2, []. by rewrite !app_nil_r.
  - cbn. exists e1, (inr (inl code)), e2, []. by rewrite !app_nil_r.
  - eapply always_mono; [|apply merge_cleanup_always]. cbn beta.
    intros e3 r3 Hclean. exists e1, (inr (inr sha)), e2, e3. by rewrite <-app_assoc.
Qed.

Lemma merge_in_worktree_failed (ps : Paths) (args : MergeArgs)
    (a task_id branch branch_ref trunk wt : string) (created : bool) :
  always failed_merge_ok
    (merge_in_worktree ps args a task_id branch branch_ref trunk wt created).
Proof.
  eapply always_mono; [|apply merge_in_worktree_always]. cbn beta.
  intros evs r (e1 & r1 & e2 & e3 & -> & (Hno & Hw & Hatt) & He2 & Htail).
  intros cwd code ev Hev Hattempt Hne.
  assert (∀ ev, ev ∈ e2 →
            ∃ c, ev = Ran (root ps) ["git"; "worktree"; "remove"; "--force"; wt] c)
    as He2'.
  { destruct created.
    - destruct He2 as [c ->]. intros ? ->%list_elem_of_singleton. by exists c.
    - subst e2. by intros ? ?%elem_of_nil. }
  clear He2. rewrite !elem_of_app in Hev. destruct Hev as [Hev|[Hev|Hev]].
  - assert (e3 = [] ∧ left_or_aborted 1 cwd e1 r) as [-> Hout].
    { destruct (Hatt _ _ _ Hev Hattempt Hne) as [[-> Hnone]|[[msg ->] Hab]];
        destruct Htail as [-> ->]; (split; [done|]); [by left|right].
      split; [by eexists|done]. }
    rewrite app_nil_r. split; [|split].
    + destruct Hout as [[-> Hnone]|[Hmsg Hab]]; [left|right]; (split; [done|]).
      * intros c [Hc|Hc]%elem_of_app; [by apply (Hnone c)|].
        by apply He2' in Hc as [? [=]].
      * destruct Hab as [[c Hc]|(c & Hc0 & Hc)]; [left|right]; exists c;
          rewrite elem_of_app; auto.
    + intros ev' [Hev'|Hev']%elem_of_app; [by apply Hno|].
      apply He2' in Hev' as [c ->].
      by intros [(? & ? & ? & [=])|[(? & ? & ? & [=])|(? & [=])]].
    + intros db' [Hdb|Hdb]%elem_of_app; [|by apply He2' in Hdb as [? [=]]].
      destruct (Hw _ Hdb) as (db & tm & -> & Hsub). exists db, tm.
      split; [done|]. by apply sublist_inserts_r.
  - apply He2' in Hev as [c ->]. by destruct Hattempt as [b [[=]|[=]]].
  - destruct r1 as [e|[c|sha]].
    + destruct Htail as [_ ->]. by apply elem_of_nil in Hev.
    + destruct Htail as [_ ->]. by apply elem_of_nil in Hev.
    + destruct (Htail _ Hev) as [Hnot _]. destruct (Hnot _ _ Hattempt).
Qed.

Lemma failed_merge_cons (p : Event) (evs : list Event) (r : Exn + Z) :
  inert p → failed_merge_ok evs r → failed_merge_ok (p :: evs) r.
Proof.
  intros Hp Hok cwd code ev Hev Hattempt Hne.
  apply elem_of_cons in Hev as [->|Hev].
  { by destruct Hattempt as [b [->| ->]]. }
  destruct (Hok _ _ _ Hev Hattempt Hne) as (Hout & Hno & Hw). split; [|split].
  - destruct Hout as [[-> Hnone]|[Hmsg Hab]]; [left|right]; (split; [done|]).
    + intros c [Hc|Hc]%elem_of_cons; [by subst p|by apply (Hnone c)].
    + destruct Hab as [[c Hc]|(c & Hc0 & Hc)]; [left|right]; exists c;
        rewrite elem_of_cons; auto.
  - intros ev' [->|Hev']%elem_of_cons; [|by apply Hno].
    by intros [(? & ? & ? & ->)|[(? & ? & ? & ->)|(? & ->)]].
  - intros db' [Hdb|Hdb]%elem_of_cons; [by subst p|].
    destruct (Hw _ Hdb) as (db & tm & -> & Hsub). exists db, tm.
    split; [done|]. by apply sublist_cons.
Qed.

Lemma merge_failed_always (ps : Paths) (args : MergeArgs) :
  always failed_merge_ok (cmd_merge ps args).
Proof.
  unfold cmd_merge. unfold_helpers. run_all.
  all: lazymatch goal with
       | |- always _ _ =>
           eapply always_mono; [|apply merge_in_worktree_failed]; cbn beta;
           intros evs r Hok; repeat (apply failed_merge_cons; [exact I|]); exact Hok
       | |- _ =>
           let Hev := fresh "Hev" in
           intros ? ? ? Hev (? & [->| ->]) ?; in_trace Hev
       end.
Qed.

Lemma merge_in_worktree_removes (ps : Paths) (args : MergeArgs)
    (a task_id branch branch_ref trunk wt : string) (created : bool) :
  always (λ evs _,
            (∀ ev, ev ∈ evs → ¬ is_worktree_add ev)
            ∧ (created = true →
               ∃ c, Ran (root ps) ["git"; "worktree"; "remove"; "--force"; wt] c ∈ evs))
    (merge_in_worktree ps args a task_id branch branch_ref trunk wt created).
Proof.
  eapply always_mono; [|apply merge_in_worktree_always]. cbn beta.
  intros evs r (e1 & r1 & e2 & e3 & -> & (Hno & _ & _) & He2 & Htail). split.
  - intros ev. rewrite !elem_of_app. intros [Hev|[Hev|Hev]].
    + by apply Hno.
    + destruct created.
      * destruct He2 as [c ->]. apply list_elem_of_singleton in Hev as ->.
        by intros (? & ? & ? & [=]).
      * subst e2. by apply elem_of_nil in Hev.
    + destruct r1 as [e|[c|sha]].
      * destruct Htail as [_ ->]. by apply elem_of_nil in Hev.
      * destruct Htail as [_ ->]. by apply elem_of_nil in Hev.
      * by apply Htail.
  - intros ->. destruct He2 as [c ->]. exists c.
    rewrite !elem_of_app, list_elem_of_singleton. auto.
Qed.

Lemma merge_worktree_always (ps : Paths) (args : MergeArgs) :
  always (λ evs r, ∀ cwd wt trunk,
            Ran cwd ["git"; "worktree"; "add"; wt; trunk] 0 ∈ evs →
            ∃ c, Ran cwd ["git"; "worktree"; "remove"; "--force"; wt] c ∈ evs)
    (cmd_merge ps args).
Proof.
  unfold cmd_merge. unfold_helpers. run_all.
  all: decide_codes.
  all: lazymatch goal with
       | |- always _ _ =>
           eapply always_mono; [|apply merge_in_worktree_removes]; cbn beta;
           let Hin := fresh "Hin" in
           let Hadd := fresh "Hadd" in
           let Hrm := fresh "Hrm" in
           intros evs r [Hadd Hrm] ? ? ? Hin;
           repeat (apply elem_of_cons in Hin as [Hin|Hin]; [try discriminate Hin|]);
           [..|by destruct (Hadd _ Hin); repeat eexists];
           injection Hin as -> -> -> ?;
           destruct (Hrm eq_refl) as [c Hc]; exists c;
           repeat apply list_elem_of_further; exact Hc
       | |- _ =>
           let Hin := fresh "Hin" in
           intros ? ? ? Hin; in_trace Hin; injection Hin as -> -> -> ?; done
       end.
Qed.

Lemma merge_abort_always (ps : Paths) (args : MergeArgs) :
  merge_abort args = true →
  always (λ evs r,
            (∀ ev, ev ∈ evs → abort_only ev)
            ∧ (∀ z, r = inr z →
                 z = 0 ∧ ∃ wt c, [Ran wt ["git"; "merge"; "--abort"] c;
                                  Printed ("Merge aborted in " ++ wt)] `sublist_of` evs))
    (cmd_merge ps args).
Proof.
  intros Habort. unfold cmd_merge. rewrite Habort. unfold_helpers. run_all.
  all: split;
    [ let Hev := fresh "Hev" in
      intros ev Hev; in_trace Hev; subst ev; cbn; eauto
    | intros z [=]; subst z; (split; [done|]); do 2 eexists; find_sublist ].
Qed.

Section MergeRuns.

Variable World : Type.
Variable respond : ∀ X : Type, Request X → World → X * World.
Variable ps : Paths.
Variable args : MergeArgs.
Variable w : World.

(** X21. The [finally] clause of [cmd_merge]: a temporary trunk worktree
    that [git worktree add] has created is removed with
    [git worktree remove --force] on every way out of the command, also
    when the merge has met a conflict and the command returns 1. *)
Theorem merge_removes_created_trunk_worktree (cwd wt trunk : string) :
  Ran cwd ["git"; "worktree"; "add"; wt; trunk] 0
    ∈ (exec World respond (cmd_merge ps args) w).2 →
  ∃ c, Ran cwd ["git"; "worktree"; "remove"; "--force"; wt] c
    ∈ (exec World respond (cmd_merge ps args) w).2.
Proof. apply (exec_always _ _ _ _ _ (merge_worktree_always ps args)). Qed.

(** X22. A failed merge cleans nothing up. When the [git merge] of the
    agent branch leaves with a status other than 0, [cmd_merge] either
    returns 1 without having run [git merge --abort], or it raises
    [HydraError], having run [git merge --abort] unless the [git status]
    that looks for conflicts failed itself. In both cases it does not kill
    the session, does not delete the branch, prints nothing on the error
    stream (where the release of the locks is reported), and the only write
    to the lock table is the garbage collection of the pre-flight check. *)
Theorem merge_failure_cleans_nothing_up (cwd : string) (code : Z) (ev : Event) :
  ev ∈ (exec World respond (cmd_merge ps args) w).2 →
  is_merge_attempt cwd code ev →
  code ≠ 0 →
  left_or_aborted 1 cwd (exec World respond (cmd_merge ps args) w).2
    (exec World respond (cmd_merge ps args) w).1.1
  ∧ (∀ ev', ev' ∈ (exec World respond (cmd_merge ps args) w).2 →
            ¬ is_merge_cleanup ev')
  ∧ writes_only_collect (exec World respond (cmd_merge ps args) w).2.
Proof. apply (exec_always _ _ _ _ _ (merge_failed_always ps args)). Qed.

(** X23. [cmd_merge --abort] only aborts. After the start-up
    ([_find_project_root], [_ensure_dirs], [_ensure_config]), the command
    asks its three look-ups, which change nothing:
    [_resolve_agent_task], [_load_task] and [_find_worktree_by_branch]
    (the first and the last read with [git for-each-ref] and
    [git worktree list --porcelain]). Apart from them, its only
    subprocesses are the [git show-ref] that looks for the trunk,
    [git merge --abort] and, when that fails, [git reset --hard HEAD]; it
    neither reads nor writes the lock table, does not ask the liveness
    oracle and reports nothing on the error stream. When it returns, it
    returns 0, and it has run [git merge --abort] in the trunk worktree
    and printed that the merge was aborted there. *)
Theorem merge_abort_only_aborts :
  merge_abort args = true →
  (∀ ev, ev ∈ (exec World respond (cmd_merge ps args) w).2 → abort_only ev)
  ∧ (∀ z, (exec World respond (cmd_merge ps args) w).1.1 = inr z →
       z = 0 ∧ ∃ wt c, [Ran wt ["git"; "merge"; "--abort"] c;
                        Printed ("Merge aborted in " ++ wt)]
                          `sublist_of` (exec World respond (cmd_merge ps args) w).2).
Proof.
  intros Habort. apply (exec_always _ _ _ _ _ (merge_abort_always ps args Habort)).
Qed.

End MergeRuns.

(** X24. The pre-flight lock check of [cmd_merge] on the changed files of
    the branch: after the garbage collection, the merge is blocked with
    [HydraError] exactly when a changed file is locked by another agent or
    task. A blocked check leaves the lock table as it was (the garbage
    collection is rolled back with the transaction); a check that passes
    leaves the collected table. *)
Theorem merge_blocked_iff_foreign_lock (w : Scripted.World) (a task_id : string)
    (changed : list string) :
  changed ≠ [] →
  let db1 := (_cleanup_dead_locks (Scripted.tmux w) (Scripted.locks w)).2 in
  let run := Scripted.run (merge_lock_check a task_id changed) w in
  ((∃ msg, run.1.1 = inl (EHydra msg)) ↔
     ∃ f row, f ∈ changed ∧ db1 !! f = Some row
              ∧ (agent row ≠ a ∨ task row ≠ task_id))
  ∧ ((∃ msg, run.1.1 = inl (EHydra msg)) → Scripted.locks run.1.2 = Scripted.locks w)
  ∧ (run.1.1 = inr () → Scripted.locks run.1.2 = db1).
Proof.
  intros Hchanged db1 run. subst run. unfold Scripted.run, merge_lock_check.
  destruct changed as [|f0 changed]; [done|]. cbn [prog_bind ask exec Scripted.respond].
  fold db1.
  change (List.filter (λ row, negb (owned_by a task_id row)) (select_in (f0 :: changed) db1))
    with (conflicts_with (f0 :: changed) a task_id db1).
  destruct (conflicts_with (f0 :: changed) a task_id db1) as [|c cs] eqn:Hcs;
    cbn [prog_bind ask exec Scripted.respond raise_hydra fst snd Scripted.locks
         Scripted.with_locks].
  - split; [|split]; [|by intros [? [=]]|done]. split; [by intros [? [=]]|].
    intros (f & row & Hf & Hrow & Hown).
    assert ((f, agent row, task row) ∈ conflicts_with (f0 :: changed) a task_id db1)
      as Hin by (apply elem_of_conflicts_with; eauto 10).
    rewrite Hcs in Hin. by apply elem_of_nil in Hin.
  - split; [|split]; [|done|by intros [=]]. split; [|by eexists].
    intros _.
    assert (c ∈ conflicts_with (f0 :: changed) a task_id db1) as Hin
      by (rewrite Hcs; apply list_elem_of_here).
    apply elem_of_conflicts_with in Hin as (Hf & row & Hrow & _ & _ & Hown). eauto.
Qed.

Lemma merge_removes_created_trunk_worktree_witness :
  ∃ c, Ran "/repo" ["git"; "worktree"; "remove"; "--force"; temporary_trunk] c
       ∈ (exec Scripted.World Scripted.respond
            (cmd_merge SampleMerge.ps (SampleMerge.args false)) conflicted_merge).2.
Proof.
  apply (merge_removes_created_trunk_worktree Scripted.World Scripted.respond
           SampleMerge.ps (SampleMerge.args false) conflicted_merge _ _ "main").
  apply (list_elem_of_lookup_2 _ 9). vm_compute. reflexivity.
Defined.

Lemma merge_failure_cleans_nothing_up_witness :
  left_or_aborted 1 temporary_trunk
    (exec Scripted.World Scripted.respond
       (cmd_merge SampleMerge.ps (SampleMerge.args false)) conflicted_merge).2
    (exec Scripted.World Scripted.respond
       (cmd_merge SampleMerge.ps (SampleMerge.args false)) conflicted_merge).1.1
  ∧ (∀ ev', ev' ∈ (exec Scripted.World Scripted.respond
                     (cmd_merge SampleMerge.ps (SampleMerge.args false))
                     conflicted_merge).2 → ¬ is_merge_cleanup ev')
  ∧ writes_only_collect
      (exec Scripted.World Scripted.respond
         (cmd_merge SampleMerge.ps (SampleMerge.args false)) conflicted_merge).2.
Proof.
  apply (merge_failure_cleans_nothing_up Scripted.World Scripted.respond
           SampleMerge.ps (SampleMerge.args false) conflicted_merge temporary_trunk 1
           (Ran temporary_trunk ["git"; "merge"; "--no-ff"; "--no-edit"; "agent/alice/t1"] 1)).
  - apply (list_elem_of_lookup_2 _ 19). vm_compute. reflexivity.
  - exists "agent/alice/t1". right. reflexivity.
  - lia.
Defined.

Lemma merge_abort_only_aborts_witness :
  (∀ ev, ev ∈ (exec Scripted.World Scripted.respond
                 (cmd_merge SampleMerge.ps (SampleMerge.args true))
                 (SampleMerge.world 1 (Some "/repo") ∅)).2 → abort_only ev)
  ∧ (∀ z, (exec Scripted.World Scripted.respond
             (cmd_merge SampleMerge.ps (SampleMerge.args true))
             (SampleMerge.world 1 (Some "/repo") ∅)).1.1 = inr z →
       z = 0 ∧ ∃ wt c, [Ran wt ["git"; "merge"; "--abort"] c;
                        Printed ("Merge aborted in " ++ wt)]
                       `sublist_of`
                       (exec Scripted.World Scripted.respond
                          (cmd_merge SampleMerge.ps (SampleMerge.args true))
                          (SampleMerge.world 1 (Some "/repo") ∅)).2).
Proof.
  apply (merge_abort_only_aborts Scripted.World Scripted.respond
           SampleMerge.ps (SampleMerge.args true) (SampleMerge.world 1 (Some "/repo") ∅)).
  reflexivity.
Defined.

Lemma merge_blocked_iff_foreign_lock_witness :
  (∃ msg, (Scripted.run (merge_lock_check "alice" "t1" ["src/a.py"]) foreign_lock).1.1
          = inl (EHydra msg))
  ∧ Scripted.locks (Scripted.run (merge_lock_check "alice" "t1" ["src/a.py"])
                      foreign_lock).1.2
    = Scripted.locks foreign_lock.
Proof.
  pose proof (merge_blocked_iff_foreign_lock foreign_lock "alice" "t1" ["src/a.py"])
    as Hcheck.
  destruct Hcheck as (Hiff & Hblocked & _); [done|].
  assert (∃ msg, (Scripted.run (merge_lock_check "alice" "t1" ["src/a.py"])
                    foreign_lock).1.1 = inl (EHydra msg)) as Hmsg.
  { apply Hiff. exists "src/a.py", (SampleMerge.row "bob" "t2").
    split; [apply list_elem_of_here|]. split; [vm_compute; reflexivity|].
    left. discriminate. }
  split; [exact Hmsg|exact (Hblocked Hmsg)].
Defined.

(** ** Names: [_sanitize_ref_component], [_sanitize_task_id] *)

Lemma chars_app (a b : string) :
  list_ascii_of_string (a ++ b) = (list_ascii_of_string a ++ list_ascii_of_string b)%list.
Proof.
  induction a as [|c a IH]; [by rewrite app_empty|].
  rewrite app_cons. cbn. by rewrite IH.
Qed.

Lemma sub_unsafe_safe (s : string) (in_run : bool) :
  Forall (λ c, PyText.is_safe c = true) (list_ascii_of_string (PyText.sub_unsafe s in_run)).
Proof.
  revert in_run. induction s as [|c s IH]; intros in_run; cbn [PyText.sub_unsafe];
    [constructor|].
  destruct (PyText.is_safe c) eqn:Hc; [by constructor|].
  destruct in_run; [done|]. by constructor.
Qed.

Lemma sub_unsafe_id (s : string) (in_run : bool) :
  Forall (λ c, PyText.is_safe c = true) (list_ascii_of_string s) →
  PyText.sub_unsafe s in_run = s.
Proof.
  revert in_run. induction s as [|c s IH]; intros in_run Hs; [done|].
  cbn in Hs. apply Forall_cons in Hs as [Hc Hs].
  cbn [PyText.sub_unsafe]. rewrite Hc. by rewrite IH.
Qed.

Lemma rstrip_char_prefix (ch : ascii) (s : string) :
  ∃ b, s = PyText.rstrip_char ch s ++ b.
Proof.
  induction s as [|c s [b IH]]; [by exists ""|]. cbn [PyText.rstrip_char].
  destruct (PyText.rstrip_char ch s) as [|c' r] eqn:Hr.
  - destruct (Ascii.eqb c ch).
    + exists (String c s). by rewrite app_empty.
    + exists b. rewrite app_cons. by rewrite IH at 1.
  - exists b. rewrite app_cons. by rewrite IH at 1.
Qed.

Lemma rstrip_char_end (ch : ascii) (s : string) :
  PyText.endswith_char (PyText.rstrip_char ch s) ch = false.
Proof.
  induction s as [|c s IH]; [done|]. cbn [PyText.rstrip_char].
  destruct (PyText.rstrip_char ch s) as [|c' r] eqn:Hr.
  - destruct (Ascii.eqb c ch) eqn:Hc; [done|]. cbn. exact Hc.
  - exact IH.
Qed.

Lemma rstrip_char_head (ch c : ascii) (s r : string) :
  PyText.rstrip_char ch s = String c r → ∃ r', s = String c r'.
Proof.
  destruct s as [|c' s]; [done|]. cbn [PyText.rstrip_char].
  destruct (PyText.rstrip_char ch s); [destruct (Ascii.eqb c' ch); [done|]|];
    intros [= <- _]; by eexists.
Qed.

Lemma rstrip_char_id (ch : ascii) (s : string) :
  PyText.endswith_char s ch = false → PyText.rstrip_char ch s = s.
Proof.
  induction s as [|c s IH]; [done|]. cbn [PyText.rstrip_char PyText.endswith_char].
  destruct s as [|c' s].
  - cbn. by intros ->.
  - intros Hend. by rewrite (IH Hend).
Qed.

Lemma strip_char_spec (ch : ascii) (s : string) :
  (∃ a b, s = a ++ PyText.strip_char ch s ++ b)
  ∧ Py.startswith (PyText.strip_char ch s) (String ch EmptyString) = false
  ∧ PyText.endswith_char (PyText.strip_char ch s) ch = false.
Proof.
  unfold PyText.strip_char. split; [|split].
  - destruct (lstrip_suffix [ch] s) as [a Ha].
    destruct (rstrip_char_prefix ch (Py.lstrip [ch] s)) as [b Hb].
    exists a, b. by rewrite <- Hb.
  - destruct (PyText.rstrip_char ch (Py.lstrip [ch] s)) as [|c r] eqn:Hr; [done|].
    rewrite startswith_char. apply bool_decide_eq_false_2. intros <-.
    apply rstrip_char_head in Hr as [r' Hr]. apply lstrip_head in Hr.
    cbn in Hr. by rewrite Ascii.eqb_refl in Hr.
  - apply rstrip_char_end.
Qed.

Lemma strip_char_id (ch : ascii) (s : string) :
  Py.startswith s (String ch EmptyString) = false →
  PyText.endswith_char s ch = false →
  PyText.strip_char ch s = s.
Proof.
  intros Hstart Hend. unfold PyText.strip_char.
  assert (Py.lstrip [ch] s = s) as ->; [|by apply rstrip_char_id].
  destruct s as [|c s]; [done|]. cbn [Py.lstrip existsb].
  rewrite startswith_char in Hstart. apply bool_decide_eq_false_1 in Hstart.
  destruct (Ascii.eqb_spec c ch) as [->|]; [done|]. done.
Qed.

Lemma contains_char_chars (c : ascii) (s : string) :
  Py.contains (String c EmptyString) s = true → c ∈ list_ascii_of_string s.
Proof.
  intros (a & b & ->)%contains_inv. rewrite chars_app, app_cons, app_empty. cbn.
  apply elem_of_app. right. apply list_elem_of_here.
Qed.

(** X25. What [_sanitize_ref_component] returns is a name that is safe in a
    branch name and in a session name: it is not empty, it has only
    characters of [[A-Za-z0-9._-]] (so no slash), and no hyphen at either
    end. Sanitizing it again either raises (the returned name can begin or
    end with a dot) or returns it unchanged. *)
Theorem sanitize_ref_component_safe (value label safe : string) :
  _sanitize_ref_component value label = Ok safe →
  safe ≠ ""
  ∧ Forall (λ c, PyText.is_safe c = true) (list_ascii_of_string safe)
  ∧ Py.contains "/" safe = false
  ∧ Py.startswith safe "-" = false
  ∧ PyText.endswith_char safe "-" = false
  ∧ ∀ label' safe', _sanitize_ref_component safe label' = Ok safe' → safe' = safe.
Proof.
  unfold _sanitize_ref_component at 1.
  destruct (String.eqb value ""); [done|].
  destruct (_ || _); [done|].
  destruct (String.eqb_spec (PyText.strip_char "-" (PyText.sub_unsafe value false)) "")
    as [|Hne]; [done|].
  intros [= <-].
  destruct (strip_char_spec "-" (PyText.sub_unsafe value false))
    as ((a & b & Hab) & Hstart & Hend).
  assert (Forall (λ c, PyText.is_safe c = true)
            (list_ascii_of_string (PyText.strip_char "-" (PyText.sub_unsafe value false))))
    as Hsafe.
  { pose proof (sub_unsafe_safe value false) as Hall.
    rewrite Hab, !chars_app, !Forall_app in Hall. tauto. }
  split; [done|]. split; [done|]. split; [|split; [done|split; [done|]]].
  - destruct (Py.contains "/" _) eqn:Hslash; [|done].
    apply contains_char_chars in Hslash. rewrite Forall_forall in Hsafe.
    by apply Hsafe in Hslash.
  - intros label' safe'. unfold _sanitize_ref_component.
    destruct (String.eqb _ ""); [done|]. destruct (_ || _); [done|].
    rewrite (sub_unsafe_id _ _ Hsafe), (strip_char_id _ _ Hstart Hend).
    destruct (String.eqb _ ""); [done|]. by intros [= <-].
Qed.

Lemma sanitize_ref_component_safe_witness :
  "feature-x.1" ≠ ""
  ∧ Forall (λ c, PyText.is_safe c = true) (list_ascii_of_string "feature-x.1")
  ∧ Py.contains "/" "feature-x.1" = false
  ∧ Py.startswith "feature-x.1" "-" = false
  ∧ PyText.endswith_char "feature-x.1" "-" = false
  ∧ ∀ label' safe', _sanitize_ref_component "feature-x.1" label' = Ok safe' →
                    safe' = "feature-x.1".
Proof.
  apply (sanitize_ref_component_safe "-feature x.1" "agent name" "feature-x.1").
  vm_compute. reflexivity.
Defined.

(** *** [cmd_agent_close] *)

Lemma agent_close_always (ps : Paths) (args : CloseArgs) (a task_id : string) :
  _sanitize_ref_component (close_name args) "agent name" = Ok a →
  _sanitize_task_id (close_task args) = Ok task_id →
  always (λ evs r,
            (∃ db, [LocksRead db; LocksWritten (_release_locks a task_id db).2]
                   `sublist_of` evs)
            ∧ (r = inr 0
               ∨ (∃ msg, r = inl (EHydra msg))
                 ∧ close_dry_run args = false
                 ∧ ∃ wt c, c ≠ 0
                           ∧ last evs = Some (Ran (root ps) ["git"; "worktree"; "remove";
                                                             "--force"; wt] c)))
    (cmd_agent_close ps args).
Proof.
  intros Ha Ht. unfold cmd_agent_close, close_window. rewrite Ha, Ht. unfold _run.
  run_all.
  all: decide_codes.
  all: split; [eexists; find_sublist|].
  all: first [by left | right; split; [by eexists|]; split; [done|];
              do 2 eexists; split; [eassumption|reflexivity]].
Qed.

Section CloseRuns.

Variable World : Type.
Variable respond : ∀ X : Type, Request X → World → X * World.
Variable ps : Paths.
Variable args : CloseArgs.
Variable w : World.

(** X26. [cmd_agent_close] releases the locks of the agent's task in every
    run that gets past the two name checks: with [--keep-tmux] or without,
    whether closing the window worked, and also under [--dry-run], which
    only prints what it would do to the window and the worktree. The table
    written is the one read without the rows of (agent, task). The command
    then returns 0, unless [git worktree remove] fails, which it reports
    with [HydraError] after the locks are released. *)
Theorem agent_close_always_releases (a task_id : string) :
  _sanitize_ref_component (close_name args) "agent name" = Ok a →
  _sanitize_task_id (close_task args) = Ok task_id →
  (∃ db, [LocksRead db; LocksWritten (_release_locks a task_id db).2]
         `sublist_of` (exec World respond (cmd_agent_close ps args) w).2)
  ∧ ((exec World respond (cmd_agent_close ps args) w).1.1 = inr 0
     ∨ (∃ msg, (exec World respond (cmd_agent_close ps args) w).1.1 = inl (EHydra msg))
       ∧ close_dry_run args = false
       ∧ ∃ wt c, c ≠ 0
                 ∧ last (exec World respond (cmd_agent_close ps args) w).2
                   = Some (Ran (root ps) ["git"; "worktree"; "remove"; "--force"; wt] c)).
Proof.
  intros Ha Ht. apply (exec_always _ _ _ _ _ (agent_close_always ps args a task_id Ha Ht)).
Qed.

End CloseRuns.

Lemma agent_close_always_releases_witness :
  (∃ db, [LocksRead db; LocksWritten (_release_locks "alice" "t1" db).2]
         `sublist_of` (exec Scripted.World Scripted.respond
                         (cmd_agent_close SampleMerge.ps dry_close) conflicted_merge).2)
  ∧ ((exec Scripted.World Scripted.respond
        (cmd_agent_close SampleMerge.ps dry_close) conflicted_merge).1.1 = inr 0
     ∨ (∃ msg, (exec Scripted.World Scripted.respond
                  (cmd_agent_close SampleMerge.ps dry_close) conflicted_merge).1.1
               = inl (EHydra msg))
       ∧ close_dry_run dry_close = false
       ∧ ∃ wt c, c ≠ 0
                 ∧ last (exec Scripted.World Scripted.respond
                           (cmd_agent_close SampleMerge.ps dry_close) conflicted_merge).2
                   = Some (Ran (root SampleMerge.ps)
                             ["git"; "worktree"; "remove"; "--force"; wt] c)).
Proof.
  apply (agent_close_always_releases Scripted.World Scripted.respond
           SampleMerge.ps dry_close conflicted_merge "alice" "t1").
  - vm_compute. reflexivity.
  - vm_compute. reflexivity.
Defined.

(** *** [cmd_agent_open] *)

Ltac unfold_open :=
  unfold cmd_agent_open, open_body, open_failed, acquire_for_open, _start_tmux_window,
    _create_worktree, _default_base_ref, agent_env, _run.

Lemma agent_open_unlocked_always (ps : Paths) (args : OpenArgs) :
  open_lock args = false →
  always (λ evs r, ∀ ev, ev ∈ evs → off_the_table ev) (cmd_agent_open ps args).
Proof.
  intros Hlock. unfold_open. rewrite Hlock, ?andb_false_r. run_all.
  all: intros ev Hev; in_trace Hev; subst ev; exact I.
Qed.

Lemma agent_open_failed_always (ps : Paths) (args : OpenArgs) (a task_id : string) :
  _sanitize_ref_component (open_name args) "agent name" = Ok a →
  _sanitize_task_id (open_task args) = Ok task_id →
  open_lock args = true →
  always (λ evs r, ∀ e, r = inl e →
            (∀ db, LocksWritten db ∉ evs)
            ∨ ∃ db, last evs = Some (LocksWritten (_release_locks a task_id db).2)
                    ∧ [LocksRead db; LocksWritten (_release_locks a task_id db).2]
                      `sublist_of` evs)
    (cmd_agent_open ps args).
Proof.
  intros Ha Ht Hlock. unfold_open. rewrite Ha, Ht, Hlock, ?andb_true_r. run_all.
  all: intros ? Hr; try discriminate Hr; clear Hr.
  all: first
         [ right; eexists; split; [reflexivity|find_sublist]
         | left; let Hdb := fresh "Hdb" in intros ? Hdb; solve [in_trace Hdb] ].
Qed.

Lemma agent_open_dry_run_always (ps : Paths) (args : OpenArgs) (a task_id : string) :
  _sanitize_ref_component (open_name args) "agent name" = Ok a →
  _sanitize_task_id (open_task args) = Ok task_id →
  open_lock args = true →
  open_dry_run args = true →
  always (λ evs r, r = inr 0 →
            ∃ now_ db tm files,
              [Printed ("[dry-run] would lock " ++ pretty (length files) ++ " paths");
               LocksRead db; TmuxProbed tm;
               LocksWritten (_acquire_locks tm now_ files a task_id None db).2]
              `sublist_of` evs
              ∧ ∀ db', LocksWritten db' ∈ evs →
                       db' = (_acquire_locks tm now_ files a task_id None db).2)
    (cmd_agent_open ps args).
Proof.
  intros Ha Ht Hlock Hdry. unfold_open. rewrite Ha, Ht, Hlock, Hdry. run_all.
  all: intros Hr; try discriminate Hr; clear Hr.
  all: do 4 eexists; (split; [find_sublist|]).
  all: let Hdb := fresh "Hdb" in intros ? Hdb; in_trace Hdb; by injection Hdb as ->.
Qed.

Section OpenRuns.

Variable World : Type.
Variable respond : ∀ X : Type, Request X → World → X * World.
Variable ps : Paths.
Variable args : OpenArgs.
Variable w : World.

(** X27. Without [--lock], [cmd_agent_open] is optimistic: it neither
    reads nor writes the lock table, whatever happens (no acquisition, no
    session recorded, no release on failure). *)
Theorem agent_open_without_lock_leaves_table :
  open_lock args = false →
  ∀ ev, ev ∈ (exec World respond (cmd_agent_open ps args) w).2 → off_the_table ev.
Proof.
  intros Hlock. apply (exec_always _ _ _ _ _ (agent_open_unlocked_always ps args Hlock)).
Qed.


(** X29. A dry run with [--lock] is not dry for the lock table: a run
    under [--dry-run --lock] that returns 0 has printed that it would lock
    the paths and has then acquired them, as rows with no session, and this
    acquisition is its only write to the table (nothing releases the rows
    afterwards). *)
Theorem agent_open_dry_run_still_locks (a task_id : string) :
  _sanitize_ref_component (open_name args) "agent name" = Ok a →
  _sanitize_task_id (open_task args) = Ok task_id →
  open_lock args = true →
  open_dry_run args = true →
  (exec World respond (cmd_agent_open ps args) w).1.1 = inr 0 →
  ∃ now_ db tm files,
    [Printed ("[dry-run] would lock " ++ pretty (length files) ++ " paths");
     LocksRead db; TmuxProbed tm;
     LocksWritten (_acquire_locks tm now_ files a task_id None db).2]
    `sublist_of` (exec World respond (cmd_agent_open ps args) w).2
    ∧ ∀ db', LocksWritten db' ∈ (exec World respond (cmd_agent_open ps args) w).2 →
             db' = (_acquire_locks tm now_ files a task_id None db).2.
Proof.
  intros Ha Ht Hlock Hdry.
  apply (exec_always _ _ _ _ _
           (agent_open_dry_run_always ps args a task_id Ha Ht Hlock Hdry)).
Qed.

End OpenRuns.

Lemma agent_open_without_lock_leaves_table_witness :
  Forall off_the_table
    (exec Scripted.World Scripted.respond
       (cmd_agent_open SampleMerge.ps (SampleOpen.args false false))
       (SampleOpen.world false)).2.
Proof.
  apply Forall_forall.
  apply (agent_open_without_lock_leaves_table Scripted.World Scripted.respond
           SampleMerge.ps (SampleOpen.args false false) (SampleOpen.world false)).
  reflexivity.
Defined.


Lemma agent_open_dry_run_still_locks_witness :
  ∃ now_ db tm files,
    [Printed ("[dry-run] would lock " ++ pretty (length files) ++ " paths");
     LocksRead db; TmuxProbed tm;
     LocksWritten (_acquire_locks tm now_ files "alice" "t1" None db).2]
    `sublist_of` (exec Scripted.World Scripted.respond
                    (cmd_agent_open SampleMerge.ps (SampleOpen.args true true))
                    (SampleOpen.world false)).2
    ∧ ∀ db', LocksWritten db' ∈ (exec Scripted.World Scripted.respond
                                   (cmd_agent_open SampleMerge.ps (SampleOpen.args true true))
                                   (SampleOpen.world false)).2 →
             db' = (_acquire_locks tm now_ files "alice" "t1" None db).2.
Proof.
  apply (agent_open_dry_run_still_locks Scripted.World Scripted.respond
           SampleMerge.ps (SampleOpen.args true true) (SampleOpen.world false)
           "alice" "t1").
  - vm_compute. reflexivity.
  - vm_compute. reflexivity.
  - reflexivity.
  - reflexivity.
  - vm_compute. reflexivity.
Defined.
